(** * ProjectFlow AI: completion aggregation, task tree and AI action batch

    A shallow embedding of the storage layer (server/storage.ts) and of the
    action interpreter of the chat route (server/routes.ts).  The tables of
    the database are lists of rows, in insertion order; a query is a filter
    over the table and an update rewrites every row the WHERE clause
    selects. *)

From Stdlib Require Import Ascii String ZArith Bool Lia Arith List Permutation Sorted.
Import ListNotations.
Local Open Scope string_scope.
Local Open Scope list_scope.
Set Warnings "-register-all".

(** ** JavaScript values *)

(** Truthiness of a string: every string but the empty one. *)
Definition truthy (s : string) : bool := negb (s =? EmptyString).

(** Truthiness of a nullable string column. *)
Definition truthyOpt (o : option string) : bool :=
  match o with
  | Some s => truthy s
  | None => false
  end.

(** [a || null] on a possibly absent string. *)
Definition orNull (o : option string) : option string :=
  if truthyOpt o then o else None.

(** SQL equality of a nullable column with a value: NULL equals nothing. *)
Definition colEq (c : option string) (v : string) : bool :=
  match c with
  | Some s => s =? v
  | None => false
  end.

(** Strict equality [===] of a nullable string with [string | null]. *)
Definition strictEq (a b : option string) : bool :=
  match a, b with
  | Some x, Some y => x =? y
  | None, None => true
  | _, _ => false
  end.

(** [Math.round (total / count)] for an integer [total] and a positive
    integer [count]: the integer nearest to the quotient, a half going up,
    that is [floor (total / count + 1/2)].  The quotient of the source is an
    IEEE double; it rounds to the same integer as the exact quotient as long
    as [count * |total|] stays below 2^52. *)
Definition Math_round_div (total count : Z) : Z :=
  ((2 * total + count) / (2 * count))%Z.

(** ** Rows *)

Module Task.
Record t := mk {
  id : string;
  projectId : string;
  parentTaskId : option string;
  name : string;
  description : option string;
  percentComplete : Z;
  isCompleted : bool;
  status : string;
  roadblocks : option string;
  aiSuggestions : option string;
  sortOrder : Z
}.
End Task.

Module Project.
Record t := mk {
  id : string;
  name : string;
  description : option string;
  categoryId : option string;
  status : string;
  percentComplete : Z;
  roadblocks : option string;
  aiSuggestions : option string
}.
End Project.

Module Category.
Record t := mk {
  id : string;
  name : string;
  color : string
}.
End Category.

(** The object handed to [db.update(tasks).set(...)]: a field that is absent
    leaves its column alone.  [roadblocks] may be present and null. *)
Record TaskUpdates := mkTaskUpdates {
  u_percentComplete : option Z;
  u_isCompleted : option bool;
  u_status : option string;
  u_roadblocks : option (option string)
}.

Definition noTaskUpdates : TaskUpdates := mkTaskUpdates None None None None.

Definition orKeep {A : Type} (o : option A) (old : A) : A :=
  match o with
  | Some v => v
  | None => old
  end.

Definition applyTaskUpdates (u : TaskUpdates) (t : Task.t) : Task.t :=
  Task.mk (Task.id t) (Task.projectId t) (Task.parentTaskId t) (Task.name t)
    (Task.description t)
    (orKeep (u_percentComplete u) (Task.percentComplete t))
    (orKeep (u_isCompleted u) (Task.isCompleted t))
    (orKeep (u_status u) (Task.status t))
    (orKeep (u_roadblocks u) (Task.roadblocks t))
    (Task.aiSuggestions t) (Task.sortOrder t).

Record ProjectUpdates := mkProjectUpdates {
  pu_percentComplete : option Z;
  pu_roadblocks : option (option string)
}.

Definition applyProjectUpdates (u : ProjectUpdates) (p : Project.t) : Project.t :=
  Project.mk (Project.id p) (Project.name p) (Project.description p)
    (Project.categoryId p) (Project.status p)
    (orKeep (pu_percentComplete u) (Project.percentComplete p))
    (orKeep (pu_roadblocks u) (Project.roadblocks p))
    (Project.aiSuggestions p).

(** ** Storage: the tasks table *)

Definition TaskTable := list Task.t.
Definition ProjectTable := list Project.t.

(** [db.select().from(tasks).where(eq(tasks.id, id))], then [result[0]]. *)
Definition getTask (db : TaskTable) (id : string) : option Task.t :=
  find (fun t => Task.id t =? id) db.

(** [db.update(tasks).set(updates).where(eq(tasks.id, id))]. *)
Definition updateTask (db : TaskTable) (id : string) (updates : TaskUpdates)
  : TaskTable :=
  map (fun t => if Task.id t =? id then applyTaskUpdates updates t else t) db.

(** [db.select().from(tasks).where(eq(tasks.parentTaskId, id))]. *)
Definition childrenOf (db : TaskTable) (id : string) : TaskTable :=
  filter (fun t => colEq (Task.parentTaskId t) id) db.

(** [db.select().from(tasks).where(eq(tasks.projectId, projectId))]. *)
Definition getTasksByProject (db : TaskTable) (projectId : string) : TaskTable :=
  filter (fun t => Task.projectId t =? projectId) db.

(** [rows.reduce((sum, t) => sum + t.percentComplete, 0)]. *)
Definition totalPercent (rows : TaskTable) : Z :=
  fold_left (fun sum t => (sum + Task.percentComplete t)%Z) rows 0%Z.

(** The three columns [recalculateParentTaskCompletion] writes. *)
Definition aggregateUpdates (parentTask : Task.t) (avgPercent : Z) : TaskUpdates :=
  let isCompleted := (avgPercent =? 100)%Z in
  mkTaskUpdates (Some avgPercent) (Some isCompleted)
    (Some (if isCompleted then "completed"
           else if (avgPercent >? 0)%Z then "in-progress"
           else Task.status parentTask))
    None.

Definition avgPercentOf (rows : TaskTable) : Z :=
  Math_round_div (totalPercent rows) (Z.of_nat (length rows)).

(** The body of [recalculateParentTaskCompletion]; [fuel] bounds the number
    of nested calls, and [None] is a recursion that has not returned. *)
Fixpoint recalculateParentTaskCompletion_fuel (fuel : nat) (parentTaskId : string)
  (db : TaskTable) : option TaskTable :=
  match fuel with
  | O => None
  | S fuel' =>
    match getTask db parentTaskId with
    | None => Some db
    | Some parentTask =>
      let children := childrenOf db parentTaskId in
      match children with
      | [] => Some db
      | _ :: _ =>
        let avgPercent := avgPercentOf children in
        let db' := updateTask db parentTaskId (aggregateUpdates parentTask avgPercent) in
        match Task.parentTaskId parentTask with
        | Some p =>
          if truthy p then recalculateParentTaskCompletion_fuel fuel' p db'
          else Some db'
        | None => Some db'
        end
      end
    end
  end.

(** Every call but the last is on a different existing row, or the recursion
    never ends, so one more call than the table has rows is enough whenever
    the source returns. *)
Definition recalculateParentTaskCompletion (db : TaskTable) (parentTaskId : string)
  : option TaskTable :=
  recalculateParentTaskCompletion_fuel (S (length db)) parentTaskId db.

(** [projectTasks.filter(t => !t.parentTaskId)]. *)
Definition rootTasksOf (db : TaskTable) (projectId : string) : TaskTable :=
  filter (fun t => negb (truthyOpt (Task.parentTaskId t))) (getTasksByProject db projectId).

(** [db.update(projects).set({ percentComplete }).where(eq(projects.id, id))]. *)
Definition setProjectPercent (ps : ProjectTable) (projectId : string) (v : Z)
  : ProjectTable :=
  map (fun p => if Project.id p =? projectId
                then applyProjectUpdates (mkProjectUpdates (Some v) None) p
                else p) ps.

Definition recalculateProjectCompletion (ps : ProjectTable) (db : TaskTable)
  (projectId : string) : ProjectTable :=
  let rootTasks := rootTasksOf db projectId in
  match rootTasks with
  | [] => setProjectPercent ps projectId 0%Z
  | _ :: _ => setProjectPercent ps projectId (avgPercentOf rootTasks)
  end.

Definition getProject (ps : ProjectTable) (id : string) : option Project.t :=
  find (fun p => Project.id p =? id) ps.

(** ** What "the rounded mean" means *)

Definition sumZ (l : list Z) : Z := fold_right Z.add 0%Z l.

(** [v] is the mean of [l] rounded to the nearest integer, a half going up:
    [v - 1/2 <= sum l / length l < v + 1/2]. *)
Definition mean_rounds_to (l : list Z) (v : Z) : Prop :=
  let n := Z.of_nat (length l) in
  (2 * n * v - n <= 2 * sumZ l < 2 * n * v + n)%Z.

(** The parent links of the table go down along [rank]: no task is its own
    ancestor. *)
Definition ranked (rank : string -> nat) (db : TaskTable) : Prop :=
  forall t p, In t db -> Task.parentTaskId t = Some p -> rank p < rank (Task.id t).

(** What the upward cascade leaves behind, read off the final table [db']:
    every task the cascade reaches, from [x] up along the parent links, that
    has children holds the aggregate of its children as they are in [db'],
    and keeps the status it had in [db] when that aggregate is 0. *)
Inductive cascaded (db db' : TaskTable) : string -> Prop :=
| cascaded_missing : forall x,
    getTask db x = None -> cascaded db db' x
| cascaded_leaf : forall x,
    childrenOf db x = [] -> cascaded db db' x
| cascaded_node : forall x t,
    getTask db x = Some t ->
    childrenOf db x <> [] ->
    getTask db' x =
      Some (applyTaskUpdates (aggregateUpdates t (avgPercentOf (childrenOf db' x))) t) ->
    (forall p, Task.parentTaskId t = Some p -> truthy p = true -> cascaded db db' p) ->
    cascaded db db' x.

(** Columns the aggregation never writes. *)
Definition sameButProgress (t t' : Task.t) : Prop :=
  Task.id t' = Task.id t /\
  Task.projectId t' = Task.projectId t /\
  Task.parentTaskId t' = Task.parentTaskId t /\
  Task.name t' = Task.name t /\
  Task.description t' = Task.description t /\
  Task.roadblocks t' = Task.roadblocks t /\
  Task.aiSuggestions t' = Task.aiSuggestions t /\
  Task.sortOrder t' = Task.sortOrder t.

(** A cascade started at [x] rewrites only rows of rank at most [rank x]. *)
Definition cascadeStep (rank : string -> nat) (x : string) (t t' : Task.t) : Prop :=
  sameButProgress t t' /\ (rank x < rank (Task.id t) -> t' = t).

Definition countLe (rank : string -> nat) (db : TaskTable) (x : string) : nat :=
  length (filter (fun t => Nat.leb (rank (Task.id t)) (rank x)) db).

(** A decidable form of [ranked], for concrete tables. *)
Definition rankedb (rank : string -> nat) (db : TaskTable) : bool :=
  forallb (fun t => match Task.parentTaskId t with
                    | Some p => Nat.ltb (rank p) (rank (Task.id t))
                    | None => true
                    end) db.

(** [n] calls of [recalculateParentTaskCompletion] on the same id, one after
    the other. *)
Fixpoint recalculateTimes (n : nat) (x : string) (db : TaskTable) : option TaskTable :=
  match n with
  | O => Some db
  | S n' =>
    match recalculateParentTaskCompletion db x with
    | Some db' => recalculateTimes n' x db'
    | None => None
    end
  end.

(** ** Sample rows *)

Definition sampleTask (id : string) (parent : option string) (percent : Z)
  (status : string) (sortOrder : Z) : Task.t :=
  Task.mk id "P1" parent id None percent (percent =? 100)%Z status None None sortOrder.

(** Root A with children B (100%) and C (50%); C has a child D. *)
Definition sampleTasks : TaskTable :=
  [ sampleTask "A" None 0 "pending" 0;
    sampleTask "B" (Some "A") 100 "completed" 1;
    sampleTask "C" (Some "A") 50 "in-progress" 0;
    sampleTask "D" (Some "C") 50 "blocked" 0 ].

Definition sampleRank (x : string) : nat :=
  if x =? "A" then 0 else if x =? "B" then 1 else if x =? "C" then 1 else 2.

Definition sampleProjects : ProjectTable :=
  [ Project.mk "P1" "Website" None None "active" 45 None None;
    Project.mk "P2" "Empty" None None "active" 10 None None ].

(** ** Storage: deleting a subtree *)

(** [for (const a of l) { s = await f(a, s) }], where a call that does not
    return stops everything. *)
Fixpoint forEach {A S : Type} (f : A -> S -> option S) (l : list A) (s : S)
  : option S :=
  match l with
  | [] => Some s
  | a :: rest =>
    match f a s with
    | Some s' => forEach f rest s'
    | None => None
    end
  end.

(** [db.delete(tasks).where(eq(tasks.id, id))]. *)
Definition deleteRow (db : TaskTable) (id : string) : TaskTable :=
  filter (fun t => negb (Task.id t =? id)) db.

(** The body of [deleteTask]: the children are read once, each is deleted
    with its own subtree, then the row itself. *)
Fixpoint deleteTask_fuel (fuel : nat) (id : string) (db : TaskTable)
  : option TaskTable :=
  match fuel with
  | O => None
  | S fuel' =>
    let childTasks := childrenOf db id in
    match forEach (fun child d => deleteTask_fuel fuel' (Task.id child) d) childTasks db with
    | Some d => Some (deleteRow d id)
    | None => None
    end
  end.

(** The nesting of the calls follows a path of distinct rows, so one more
    level than the table has rows is enough whenever the source returns. *)
Definition deleteTask (db : TaskTable) (id : string) : option TaskTable :=
  deleteTask_fuel (S (length db)) id db.

(** [y] is [x] or the id of a descendant of [x] in [db]. *)
Inductive inSubtree (db : TaskTable) (x : string) : string -> Prop :=
| subtree_self : inSubtree db x x
| subtree_child : forall y t,
    inSubtree db x y -> In t db -> Task.parentTaskId t = Some y ->
    inSubtree db x (Task.id t).

Definition countGt (rank : string -> nat) (db : TaskTable) (x : string) : nat :=
  length (filter (fun t => Nat.ltb (rank x) (rank (Task.id t))) db).

(** A set of removed ids, given by the ids [keep] rejects, that contains the
    children of its members. *)
Definition closedDown (db : TaskTable) (keep : string -> bool) : Prop :=
  forall c y, In c db -> Task.parentTaskId c = Some y ->
              keep y = false -> keep (Task.id c) = false.

Definition keptRows (keep : string -> bool) (db : TaskTable) : TaskTable :=
  filter (fun t => keep (Task.id t)) db.

(** What a call of [deleteTask] on [x] does to a table from which a closed
    set of ids is already gone. *)
Definition deletesSubtree (db0 : TaskTable) (fuel : nat) (x : string) : Prop :=
  forall keep, closedDown db0 keep ->
    exists keep',
      deleteTask_fuel fuel x (keptRows keep db0) = Some (keptRows keep' db0) /\
      closedDown db0 keep' /\
      forall y, keep' y = false <-> keep y = false \/ inSubtree db0 x y.

(** ** Storage: the task tree *)

(** [{ ...task, children }]. *)
Inductive TaskWithChildren : Type :=
| TaskNode (task : Task.t) (children : list TaskWithChildren).

Definition nodeTask (n : TaskWithChildren) : Task.t :=
  match n with TaskNode t _ => t end.

Definition nodeChildren (n : TaskWithChildren) : list TaskWithChildren :=
  match n with TaskNode _ cs => cs end.

(** [rows.sort((a, b) => a.sortOrder - b.sortOrder)].  The sort of an array
    is stable, which fixes its result; the model inserts each row, from the
    last to the first, in front of the first row that is not smaller. *)
Fixpoint insertBySortOrder (t : Task.t) (sorted : list Task.t) : list Task.t :=
  match sorted with
  | [] => [t]
  | h :: rest =>
    if (Task.sortOrder t <=? Task.sortOrder h)%Z then t :: sorted
    else h :: insertBySortOrder t rest
  end.

Fixpoint sortBySortOrder (rows : list Task.t) : list Task.t :=
  match rows with
  | [] => []
  | t :: rest => insertBySortOrder t (sortBySortOrder rest)
  end.

(** [l.map(f)] where a call of [f] that does not return stops everything. *)
Fixpoint mapM {A B : Type} (f : A -> option B) (l : list A) : option (list B) :=
  match l with
  | [] => Some []
  | a :: rest =>
    match f a with
    | Some b =>
      match mapM f rest with
      | Some bs => Some (b :: bs)
      | None => None
      end
    | None => None
    end
  end.

Definition hasParent (parentId : option string) (t : Task.t) : bool :=
  strictEq (Task.parentTaskId t) parentId.

Fixpoint buildTaskTree_fuel (fuel : nat) (allTasks : list Task.t)
  (parentId : option string) : option (list TaskWithChildren) :=
  match fuel with
  | O => None
  | S fuel' =>
    mapM (fun task =>
            match buildTaskTree_fuel fuel' allTasks (Some (Task.id task)) with
            | Some children => Some (TaskNode task children)
            | None => None
            end)
         (sortBySortOrder (filter (hasParent parentId) allTasks))
  end.

(** The nesting of the calls follows a path of distinct rows, so one more
    level than the list has rows is enough whenever the source returns. *)
Definition buildTaskTree (allTasks : list Task.t) (parentId : option string)
  : option (list TaskWithChildren) :=
  buildTaskTree_fuel (S (length allTasks)) allTasks parentId.

(** [sorted] holds the rows of [rows], ascending by [sortOrder], rows of the
    same [sortOrder] in the order they have in [rows]. *)
Definition stableSortOf (rows sorted : list Task.t) : Prop :=
  Permutation sorted rows /\
  Sorted (fun a b => (Task.sortOrder a <= Task.sortOrder b)%Z) sorted /\
  forall k, filter (fun t => (Task.sortOrder t =? k)%Z) sorted
            = filter (fun t => (Task.sortOrder t =? k)%Z) rows.

(** The forest under [parentId]: its nodes carry the rows whose parent is
    [parentId], sorted, and below each node is the forest under its id. *)
Inductive forestOf (allTasks : list Task.t) : option string -> list TaskWithChildren -> Prop :=
| forestOf_intro : forall parentId forest,
    map nodeTask forest = sortBySortOrder (filter (hasParent parentId) allTasks) ->
    Forall (fun n => forestOf allTasks (Some (Task.id (nodeTask n))) (nodeChildren n)) forest ->
    forestOf allTasks parentId forest.

(** [n] is a node of the forest, at any depth. *)
Inductive inForest (n : TaskWithChildren) : list TaskWithChildren -> Prop :=
| inForest_here : forall forest, In n forest -> inForest n forest
| inForest_below : forall m forest,
    In m forest -> inForest n (nodeChildren m) -> inForest n forest.

(** The ids from [parentId] up to a root, each the parent of the one before. *)
Inductive upPath (allTasks : list Task.t) : option string -> list string -> Prop :=
| upPath_root : upPath allTasks None []
| upPath_step : forall x t rest,
    In t allTasks -> Task.id t = x ->
    upPath allTasks (Task.parentTaskId t) rest ->
    upPath allTasks (Some x) (x :: rest).

(** The sample rows and two more under A: an orphan E whose parent is not in
    the list, and F, which ties with C on [sortOrder]. *)
Definition sampleWithOrphan : TaskTable :=
  sampleTasks ++
  [ sampleTask "E" (Some "gone") 20 "in-progress" 0;
    sampleTask "F" (Some "A") 10 "in-progress" 0 ].

(** ** The action interpreter of the chat route *)

(** One action of the batch, with the fields the system prompt documents.
    An absent field is [None]; [roadblocks] may be present and null. *)
Inductive Action : Type :=
| create_project (name : string) (description : option string)
    (categoryId : option string)
| create_task (projectId : option string) (name : string)
    (description : option string) (parentTaskId : option string)
| update_task (taskId : string) (percentComplete : option Z)
    (isCompleted : option bool) (roadblocks : option (option string))
| update_project (projectId : string) (percentComplete : option Z)
    (roadblocks : option (option string))
| other_action.

Record Store := mkStore {
  projects : ProjectTable;
  tasks : TaskTable;
  nextId : nat
}.

(** A write handed to the database. *)
Inductive Write : Type :=
| InsertProject (row : Project.t)
| InsertTask (row : Task.t)
| UpdateTask (id : string) (updates : TaskUpdates)
| UpdateProject (id : string) (updates : ProjectUpdates).

(** The variables of the loop over the actions. *)
Record Batch := mkBatch {
  store : Store;
  newlyCreatedProjectId : option string;
  executedActions : list string
}.

Definition initialBatch (s : Store) : Batch := mkBatch s None [].

(** How the body of the [try] ends: normally (also by [continue]), by an
    exception, or not at all. *)
Inductive Completion : Type :=
| Normal (b : Batch)
| Throw (b : Batch)
| Loop.

Definition NEW_PROJECT : string := "NEW_PROJECT".

Definition quoted (s : string) : string :=
  let q := Ascii.ascii_of_nat 34 in
  String q (String.append s (String q EmptyString)).

(** [a || b] on possibly absent strings. *)
Definition orElse (a b : option string) : option string :=
  if truthyOpt a then a else b.

(** [a || b] on a possibly absent number. *)
Definition orElseZ (a : option Z) (b : Z) : Z :=
  match a with
  | Some v => if (v =? 0)%Z then b else v
  | None => b
  end.

(** [categories[0]?.id]. *)
Definition firstCategoryId (categories : list Category.t) : option string :=
  match categories with
  | c :: _ => Some (Category.id c)
  | [] => None
  end.

(** The [updates] object the [update_task] branch builds. *)
Definition taskUpdatesOf (existingTask : Task.t) (percentComplete : option Z)
  (isCompleted : option bool) (roadblocks : option (option string)) : TaskUpdates :=
  let u1 :=
    match percentComplete with
    | Some v =>
      mkTaskUpdates (Some v) (Some (v =? 100)%Z)
        (Some (if (v =? 100)%Z then "completed"
               else if (v >? 0)%Z then "in-progress" else "pending"))
        None
    | None => noTaskUpdates
    end in
  let u2 :=
    match isCompleted with
    | Some c =>
      mkTaskUpdates
        (Some (if c then 100%Z
               else orElseZ (u_percentComplete u1) (Task.percentComplete existingTask)))
        (Some c) (u_status u1) (u_roadblocks u1)
    | None => u1
    end in
  match roadblocks with
  | Some r => mkTaskUpdates (u_percentComplete u2) (u_isCompleted u2) (u_status u2) (Some r)
  | None => u2
  end.

(** [db.update(projects).set(updates).where(eq(projects.id, id))]. *)
Definition updateProject (ps : ProjectTable) (id : string) (updates : ProjectUpdates)
  : ProjectTable :=
  map (fun p => if Project.id p =? id then applyProjectUpdates updates p else p) ps.

(** The two calls that follow every write of a task: the cascade from the
    parent, when the row has one, then the project. *)
Definition recalculateAfter (s : Store) (task : Task.t) : option Store :=
  let cascade :=
    match Task.parentTaskId task with
    | Some p =>
      if truthy p then recalculateParentTaskCompletion (tasks s) p else Some (tasks s)
    | None => Some (tasks s)
    end in
  match cascade with
  | Some ts =>
    Some (mkStore (recalculateProjectCompletion (projects s) ts (Task.projectId task))
            ts (nextId s))
  | None => None
  end.

Section Interpreter.

(** The primary key the database gives the [n]-th row it inserts. *)
Variable genId : nat -> string.
(** [String.prototype.toLowerCase]. *)
Variable toLowerCase : string -> string.
(** The writes the database refuses with an exception; the schema that
    decides it is not part of the sources. *)
Variable rejects : Store -> Write -> bool.
(** [categories], read once before the loop. *)
Variable categories : list Category.t.

Definition resolveCategoryId (categoryId : option string) : option string :=
  match orNull (orElse categoryId (firstCategoryId categories)) with
  | Some resolved =>
    if existsb (fun c => Category.id c =? resolved) categories then Some resolved
    else
      let matchedCategory :=
        find (fun c => toLowerCase (Category.name c) =? toLowerCase resolved) categories in
      orNull (orElse (option_map Category.id matchedCategory) (firstCategoryId categories))
  | None => None
  end.

(** The project row the [create_project] branch inserts. *)
Definition newProjectRow (s : Store) (name : string) (description categoryId : option string)
  : Project.t :=
  Project.mk (genId (nextId s)) name (orNull description) (resolveCategoryId categoryId)
    "active" 0%Z None None.

(** The task row the [create_task] branch inserts. *)
Definition newTaskRow (s : Store) (projectId name : string)
  (description parentTaskId : option string) : Task.t :=
  Task.mk (genId (nextId s)) projectId (orNull parentTaskId) name (orNull description)
    0%Z false "pending" None None 0%Z.

(** [projectId] after the placeholder has been replaced. *)
Definition resolveProjectId (b : Batch) (projectId : option string) : option string :=
  match projectId with
  | Some p =>
    if (p =? NEW_PROJECT) && truthyOpt (newlyCreatedProjectId b)
    then newlyCreatedProjectId b
    else Some p
  | None => None
  end.

(** The body of the [try] for one action. *)
Definition tryAction (b : Batch) (action : Action) : Completion :=
  let s := store b in
  match action with
  | create_project name description categoryId =>
    let project := newProjectRow s name description categoryId in
    if rejects s (InsertProject project) then Throw b
    else
      Normal (mkBatch (mkStore (projects s ++ [project]) (tasks s) (S (nextId s)))
                (Some (Project.id project))
                (executedActions b
                 ++ [String.append "Created project " (quoted (Project.name project))]))
  | create_task projectId name description parentTaskId =>
    match resolveProjectId b projectId with
    | None => Normal b
    | Some pid =>
      if negb (truthy pid) || (pid =? NEW_PROJECT) then Normal b
      else
        let task := newTaskRow s pid name description parentTaskId in
        if rejects s (InsertTask task) then Throw b
        else
          match recalculateAfter (mkStore (projects s) (tasks s ++ [task]) (S (nextId s)))
                  task with
          | Some s' =>
            Normal (mkBatch s' (newlyCreatedProjectId b)
                      (executedActions b
                       ++ [String.append "Created task " (quoted (Task.name task))]))
          | None => Loop
          end
    end
  | update_task taskId percentComplete isCompleted roadblocks =>
    match getTask (tasks s) taskId with
    | None => Normal b
    | Some existingTask =>
      let updates := taskUpdatesOf existingTask percentComplete isCompleted roadblocks in
      if rejects s (UpdateTask taskId updates) then Throw b
      else
        let s1 := mkStore (projects s) (updateTask (tasks s) taskId updates) (nextId s) in
        let done s' :=
          Normal (mkBatch s' (newlyCreatedProjectId b)
                    (executedActions b
                     ++ [String.append "Updated task " (quoted (Task.name existingTask))])) in
        match getTask (tasks s1) taskId with
        | Some task =>
          match recalculateAfter s1 task with
          | Some s' => done s'
          | None => Loop
          end
        | None => done s1
        end
    end
  | update_project projectId percentComplete roadblocks =>
    match getProject (projects s) projectId with
    | None => Normal b
    | Some existingProject =>
      let updates := mkProjectUpdates percentComplete roadblocks in
      if rejects s (UpdateProject projectId updates) then Throw b
      else
        Normal (mkBatch (mkStore (updateProject (projects s) projectId updates)
                           (tasks s) (nextId s))
                  (newlyCreatedProjectId b)
                  (executedActions b
                   ++ [String.append "Updated project "
                         (quoted (Project.name existingProject))]))
    end
  | other_action => Normal b
  end.

(** [try { ... } catch (e) { console.error(...) }]: the loop goes on from
    the variables as the exception left them. *)
Definition execAction (b : Batch) (action : Action) : option Batch :=
  match tryAction b action with
  | Normal b' => Some b'
  | Throw b' => Some b'
  | Loop => None
  end.

(** [for (const action of actionResult.actions || [])]. *)
Definition runBatch (actions : list Action) (b : Batch) : option Batch :=
  forEach (fun action b' => execAction b' action) actions b.

(** The action fails: its branch throws, or it names a task that is not
    there. *)
Definition actionFails (b : Batch) (action : Action) : Prop :=
  (exists b', tryAction b action = Throw b') \/
  (exists taskId percentComplete isCompleted roadblocks,
      action = update_task taskId percentComplete isCompleted roadblocks /\
      getTask (tasks (store b)) taskId = None).

End Interpreter.

(** ** A sample database for the interpreter *)

Fixpoint marks (n : nat) : string :=
  match n with
  | O => EmptyString
  | S k => String "x"%char (marks k)
  end.

Definition sampleGenId (n : nat) : string := String.append "id-" (marks n).

Definition sampleLower (s : string) : string := s.

Definition acceptAll (s : Store) (w : Write) : bool := false.

(** A database that refuses an update with no column to set. *)
Definition rejectEmptyUpdate (s : Store) (w : Write) : bool :=
  match w with
  | UpdateTask _ (mkTaskUpdates None None None None) => true
  | UpdateProject _ (mkProjectUpdates None None) => true
  | _ => false
  end.

Definition sampleCategories : list Category.t :=
  [ Category.mk "cat-dev" "Development" "#3B82F6" ].

Definition sampleStore : Store := mkStore sampleProjects sampleTasks 0.

Definition sampleBatch : Batch := initialBatch sampleStore.

Definition emptyBatch : Batch := initialBatch (mkStore [] [] 0).

(** The last of a list of ids, if there is one. *)
Definition lastId (ids : list string) : option string :=
  match rev ids with
  | [] => None
  | i :: _ => Some i
  end.

(** The batch of the scenario: a project, an update of a task that is not
    there, and a task for the new project. *)
Definition sampleActions : list Action :=
  [ create_project "Q2" None None;
    update_task "nope" (Some 50%Z) None None;
    create_task (Some NEW_PROJECT) "Kickoff" None None ].

(** An id the database generated. *)
Definition generatedBy (genId : nat -> string) (i : string) : Prop :=
  exists n, i = genId n.

(** The empty database after [create_project "Q2"]. *)
Definition q2Batch : Batch :=
  mkBatch
    (mkStore [ Project.mk "id-" "Q2" None (Some "cat-dev") "active" 0 None None ] [] 1)
    (Some "id-")
    [ String.append "Created project " (quoted "Q2") ].

(** ** Further properties: the progress columns *)

(** A row whose progress columns agree: a percentage, and [isCompleted]
    exactly at 100. *)
Definition progressOk (t : Task.t) : Prop :=
  (0 <= Task.percentComplete t <= 100)%Z /\
  Task.isCompleted t = (Task.percentComplete t =? 100)%Z.

Definition progressOkb (t : Task.t) : bool :=
  (0 <=? Task.percentComplete t)%Z && (Task.percentComplete t <=? 100)%Z &&
  Bool.eqb (Task.isCompleted t) (Task.percentComplete t =? 100)%Z.

(** What the children lack to 100, summed. *)
Definition shortfall (rows : TaskTable) : Z :=
  sumZ (map (fun t => (100 - Task.percentComplete t)%Z) rows).

(** ** Further storage operations and the task routes *)

(** [deleteProject]: the tasks of the project, then the project row. *)
Definition deleteProject (s : Store) (id : string) : Store :=
  mkStore (filter (fun p => negb (Project.id p =? id)) (projects s))
    (filter (fun t => negb (Task.projectId t =? id)) (tasks s))
    (nextId s).

(** The project row holds the aggregate of the root tasks of [ts]. *)
Definition projectAggregated (ps : ProjectTable) (ts : TaskTable) (projectId : string)
  : Prop :=
  forall p, In p ps -> Project.id p = projectId ->
    (rootTasksOf ts projectId = [] /\ Project.percentComplete p = 0%Z) \/
    (rootTasksOf ts projectId <> [] /\
     mean_rounds_to (map Task.percentComplete (rootTasksOf ts projectId))
       (Project.percentComplete p)).

(** [app.delete("/api/tasks/:id")]: the new database and the status of the
    reply; [None] when a recursion does not return. *)
Definition deleteTaskRoute (s : Store) (id : string) : option (Store * nat) :=
  match getTask (tasks s) id with
  | None => Some (s, 404)
  | Some task =>
    let projectId := Task.projectId task in
    let parentTaskId := Task.parentTaskId task in
    match deleteTask (tasks s) id with
    | None => None
    | Some ts1 =>
      let cascade :=
        match parentTaskId with
        | Some p =>
          if truthy p then
            match getTask ts1 p with
            | Some _ => recalculateParentTaskCompletion ts1 p
            | None => Some ts1
            end
          else Some ts1
        | None => Some ts1
        end in
      match cascade with
      | Some ts2 =>
        Some (mkStore (recalculateProjectCompletion (projects s) ts2 projectId)
                ts2 (nextId s), 204)
      | None => None
      end
    end
  end.

(** The tasks of a tree, the node first, then its children's trees in
    order; and of a forest. *)
Fixpoint flattenNode (n : TaskWithChildren) : list Task.t :=
  match n with
  | TaskNode t cs => t :: flat_map flattenNode cs
  end.

Definition flattenForest (forest : list TaskWithChildren) : list Task.t :=
  flat_map flattenNode forest.

(** Below the node [n], found under a parent whose path to the root is
    [path]: every task has its own path to the root through [n], and no id
    occurs twice. *)
Definition nodeGood (allTasks : list Task.t) (path : list string)
  (n : TaskWithChildren) : Prop :=
  (forall t, In t (flattenNode n) ->
     exists pre, upPath allTasks (Some (Task.id t))
                   (pre ++ Task.id (nodeTask n) :: path)) /\
  NoDup (map Task.id (flattenNode n)).

(** Columns no action of the batch writes. *)
Definition sameLinks (t t' : Task.t) : Prop :=
  Task.id t' = Task.id t /\
  Task.projectId t' = Task.projectId t /\
  Task.parentTaskId t' = Task.parentTaskId t /\
  Task.name t' = Task.name t /\
  Task.description t' = Task.description t /\
  Task.aiSuggestions t' = Task.aiSuggestions t /\
  Task.sortOrder t' = Task.sortOrder t.

Definition sameProjectCore (p p' : Project.t) : Prop :=
  Project.id p' = Project.id p /\
  Project.name p' = Project.name p /\
  Project.description p' = Project.description p /\
  Project.categoryId p' = Project.categoryId p /\
  Project.status p' = Project.status p /\
  Project.aiSuggestions p' = Project.aiSuggestions p.


(** A sample with two categories. *)
Definition twoCategories : list Category.t :=
  [ Category.mk "cat-dev" "Development" "#3B82F6";
    Category.mk "cat-mkt" "Marketing" "#10B981" ].

(** ** The reply of the chat route *)

(** [s.split(" ")]: the pieces between the spaces, empty ones included. *)
Fixpoint splitOnSpace (s : string) : list string :=
  match s with
  | EmptyString => [EmptyString]
  | String c rest =>
    if Ascii.eqb c " "%char then EmptyString :: splitOnSpace rest
    else
      match splitOnSpace rest with
      | w :: ws => String c w :: ws
      | [] => [String c EmptyString]
      end
  end.

(** [(i === 0 ? "" : " ") + words[i]], for every [i]. *)
Definition streamChunks (words : list string) : list string :=
  match words with
  | [] => []
  | w :: ws => w :: map (String.append " ") ws
  end.

(** [items.join(sep)]. *)
Fixpoint joinWith (sep : string) (items : list string) : string :=
  match items with
  | [] => EmptyString
  | [a] => a
  | a :: rest => String.append a (String.append sep (joinWith sep rest))
  end.

Definition newline : string := String (Ascii.ascii_of_nat 10) EmptyString.

(** [`[Actions completed: ${executedActions.join(", ")}]\n\n`]. *)
Definition actionSummary (executedActions : list string) : string :=
  String.append "[Actions completed: "
    (String.append (joinWith ", " executedActions)
       (String.append "]" (String.append newline newline))).

(** The [content] fields the route writes to the stream, in order. *)
Definition streamedContents (executedActions : list string) (responseMessage : string)
  : list string :=
  match executedActions with
  | [] => streamChunks (splitOnSpace responseMessage)
  | _ :: _ =>
    actionSummary executedActions :: streamChunks (splitOnSpace responseMessage)
  end.

(** [fullResponse], the text saved as the assistant's message. *)
Definition fullResponse (executedActions : list string) (responseMessage : string)
  : string :=
  match executedActions with
  | [] => responseMessage
  | _ :: _ => String.append (actionSummary executedActions) responseMessage
  end.

(** The chat dialog: [if (data.content) assistantMessage += data.content]. *)
Definition assembleMessage (contents : list string) : string :=
  fold_left (fun assistantMessage content =>
               if truthy content then String.append assistantMessage content
               else assistantMessage)
    contents EmptyString.

(** ** The route that patches a task *)

(** [Partial<InsertTask>], the body [PATCH /api/tasks/:id] hands to
    [storage.updateTask]: a column that is absent is left alone; a nullable
    column may be present and null. *)
Record TaskPatch := mkTaskPatch {
  p_projectId : option string;
  p_parentTaskId : option (option string);
  p_name : option string;
  p_description : option (option string);
  p_percentComplete : option Z;
  p_isCompleted : option bool;
  p_status : option string;
  p_roadblocks : option (option string);
  p_aiSuggestions : option (option string);
  p_sortOrder : option Z
}.

Definition applyTaskPatch (u : TaskPatch) (t : Task.t) : Task.t :=
  Task.mk (Task.id t)
    (orKeep (p_projectId u) (Task.projectId t))
    (orKeep (p_parentTaskId u) (Task.parentTaskId t))
    (orKeep (p_name u) (Task.name t))
    (orKeep (p_description u) (Task.description t))
    (orKeep (p_percentComplete u) (Task.percentComplete t))
    (orKeep (p_isCompleted u) (Task.isCompleted t))
    (orKeep (p_status u) (Task.status t))
    (orKeep (p_roadblocks u) (Task.roadblocks t))
    (orKeep (p_aiSuggestions u) (Task.aiSuggestions t))
    (orKeep (p_sortOrder u) (Task.sortOrder t)).

(** [db.update(tasks).set(patch).where(eq(tasks.id, id))]. *)
Definition patchTask (db : TaskTable) (id : string) (patch : TaskPatch) : TaskTable :=
  map (fun t => if Task.id t =? id then applyTaskPatch patch t else t) db.

(** What the slider and the checkbox of the task tree send. *)
Definition progressPatch (percentComplete : Z) (isCompleted : bool) : TaskPatch :=
  mkTaskPatch None None None None (Some percentComplete) (Some isCompleted)
    None None None None.

(** A patch that only moves the task under another parent. *)
Definition movePatch (parentTaskId : option string) : TaskPatch :=
  mkTaskPatch None (Some parentTaskId) None None None None None None None None.

(** [app.patch("/api/tasks/:id")]: the new database and the status of the
    reply.  [refuses] tells which patches the database rejects with an
    exception, which the route answers with 500. *)
Definition patchTaskRoute (refuses : Store -> string -> TaskPatch -> bool)
  (s : Store) (id : string) (patch : TaskPatch) : option (Store * nat) :=
  match getTask (tasks s) id with
  | None => Some (s, 404)
  | Some existingTask =>
    if refuses s id patch then Some (s, 500)
    else
      let s1 := mkStore (projects s) (patchTask (tasks s) id patch) (nextId s) in
      match getTask (tasks s1) id with
      | None => Some (s1, 404)
      | Some task =>
        match recalculateAfter s1 task with
        | Some s' => Some (s', 200)
        | None => None
        end
      end
  end.

Definition acceptPatch (s : Store) (id : string) (patch : TaskPatch) : bool := false.


(** ** Projects with their trees *)

(** [{ ...project, category, tasks: taskTree }]. *)
Record ProjectWithTasks := mkProjectWithTasks {
  pwt_project : Project.t;
  pwt_category : option Category.t;
  pwt_tasks : list TaskWithChildren
}.

(** [new Map(allCategories.map(c => [c.id, c])).get(id)]: of two entries
    with the same key the later one stays. *)
Definition categoryMapGet (allCategories : list Category.t) (id : string)
  : option Category.t :=
  find (fun c => Category.id c =? id) (rev allCategories).

(** [project.categoryId ? categoryMap.get(project.categoryId) : undefined]. *)
Definition categoryOfProject (allCategories : list Category.t) (project : Project.t)
  : option Category.t :=
  match Project.categoryId project with
  | Some cid => if truthy cid then categoryMapGet allCategories cid else None
  | None => None
  end.

(** [getAllProjectsWithTasks]; [allTasks] is the result of the query on the
    tasks table, ordered by [sortOrder]. *)
Definition getAllProjectsWithTasks (allProjects : ProjectTable)
  (allCategories : list Category.t) (allTasks : TaskTable)
  : option (list ProjectWithTasks) :=
  mapM (fun project =>
          let projectTasks :=
            filter (fun t => Task.projectId t =? Project.id project) allTasks in
          match buildTaskTree projectTasks None with
          | Some taskTree =>
            Some (mkProjectWithTasks project (categoryOfProject allCategories project)
                    taskTree)
          | None => None
          end)
       allProjects.

(** A subtask G of A that belongs to another project. *)
Definition sampleCrossProject : TaskTable :=
  sampleTasks ++
  [ Task.mk "G" "P2" (Some "A") "G" None 0 false "pending" None None 0 ].

(** ** Rounding *)

Lemma Math_round_div_spec (total count : Z) :
  (0 < count)%Z ->
  (2 * count * Math_round_div total count - count <= 2 * total
   < 2 * count * Math_round_div total count + count)%Z.
Proof.
  intros Hc. unfold Math_round_div.
  pose proof (Z.div_mod (2 * total + count) (2 * count)) as Hdm.
  pose proof (Z.mod_pos_bound (2 * total + count) (2 * count)) as Hb.
  lia.
Qed.

Lemma fold_left_percent (rows : TaskTable) (acc : Z) :
  fold_left (fun sum t => (sum + Task.percentComplete t)%Z) rows acc
  = (acc + sumZ (map Task.percentComplete rows))%Z.
Proof.
  revert acc. induction rows as [|r rows IH]; intros acc; simpl.
  - lia.
  - rewrite IH. lia.
Qed.

Lemma totalPercent_sum (rows : TaskTable) :
  totalPercent rows = sumZ (map Task.percentComplete rows).
Proof. unfold totalPercent. rewrite fold_left_percent. lia. Qed.

Lemma avgPercentOf_rounds (rows : TaskTable) :
  rows <> [] -> mean_rounds_to (map Task.percentComplete rows) (avgPercentOf rows).
Proof.
  intros Hne. unfold mean_rounds_to, avgPercentOf.
  rewrite length_map, totalPercent_sum.
  apply Math_round_div_spec.
  destruct rows; [congruence | simpl length; lia].
Qed.

Lemma sumZ_bounds (l : list Z) (lo hi : Z) :
  Forall (fun v => lo <= v <= hi)%Z l ->
  (Z.of_nat (length l) * lo <= sumZ l <= Z.of_nat (length l) * hi)%Z.
Proof.
  induction 1 as [|v l Hv _ IH]; simpl sumZ; simpl length; lia.
Qed.

(** A rounded mean of percentages is a percentage. *)
Lemma avgPercentOf_range (rows : TaskTable) :
  rows <> [] ->
  Forall (fun t => 0 <= Task.percentComplete t <= 100)%Z rows ->
  (0 <= avgPercentOf rows <= 100)%Z.
Proof.
  intros Hne Hall.
  pose proof (avgPercentOf_rounds rows Hne) as Hm. unfold mean_rounds_to in Hm.
  rewrite length_map in Hm.
  assert (Hs : (Z.of_nat (length rows) * 0 <= sumZ (map Task.percentComplete rows)
                <= Z.of_nat (length rows) * 100)%Z).
  { rewrite <- (length_map Task.percentComplete rows). apply sumZ_bounds.
    rewrite Forall_map. exact Hall. }
  assert (Hn : (0 < Z.of_nat (length rows))%Z)
    by (destruct rows; [congruence | simpl length; lia]).
  nia.
Qed.

(** ** Rows of the tasks table under an update *)

Lemma getTask_In (db : TaskTable) (x : string) (t : Task.t) :
  getTask db x = Some t -> In t db /\ Task.id t = x.
Proof.
  unfold getTask. intros H. apply find_some in H. destruct H as [Hin Heq].
  split; [exact Hin | now apply String.eqb_eq].
Qed.

Lemma getTask_updateTask_same (db : TaskTable) (x : string) (u : TaskUpdates) (t : Task.t) :
  getTask db x = Some t ->
  getTask (updateTask db x u) x = Some (applyTaskUpdates u t).
Proof.
  unfold getTask, updateTask. induction db as [|a db IH]; simpl; [discriminate|].
  destruct (Task.id a =? x) eqn:E; simpl.
  - rewrite E. congruence.
  - rewrite E. exact IH.
Qed.

Lemma getTask_updateTask_none (db : TaskTable) (x y : string) (u : TaskUpdates) :
  getTask db y = None -> getTask (updateTask db x u) y = None.
Proof.
  unfold getTask, updateTask. induction db as [|a db IH]; simpl; [reflexivity|].
  destruct (Task.id a =? y) eqn:E; [discriminate|].
  intros H. destruct (Task.id a =? x); simpl; rewrite E; auto.
Qed.

Lemma getTask_updateTask_other (db : TaskTable) (x y : string) (u : TaskUpdates) :
  x <> y -> getTask (updateTask db x u) y = getTask db y.
Proof.
  intros Hxy. unfold getTask, updateTask. induction db as [|a db IH]; simpl; [reflexivity|].
  destruct (Task.id a =? x) eqn:E; simpl.
  - apply String.eqb_eq in E.
    assert ((Task.id a =? y) = false) as -> by (apply String.eqb_neq; congruence).
    exact IH.
  - destruct (Task.id a =? y); [reflexivity | exact IH].
Qed.

Lemma updateTask_absent (l : TaskTable) (x : string) (u : TaskUpdates) :
  (forall t, In t l -> Task.id t <> x) -> updateTask l x u = l.
Proof.
  unfold updateTask. induction l as [|a l IH]; simpl; intros H; [reflexivity|].
  assert ((Task.id a =? x) = false) as -> by (apply String.eqb_neq; apply H; now left).
  f_equal. apply IH. intros t Ht. apply H. now right.
Qed.

Lemma childrenOf_updateTask (db : TaskTable) (x y : string) (u : TaskUpdates) :
  childrenOf (updateTask db x u) y = updateTask (childrenOf db y) x u.
Proof.
  unfold childrenOf, updateTask. induction db as [|a db IH]; simpl; [reflexivity|].
  destruct (Task.id a =? x) eqn:E; simpl.
  - destruct (colEq (Task.parentTaskId a) y); simpl; rewrite ?E, IH; reflexivity.
  - destruct (colEq (Task.parentTaskId a) y); simpl; rewrite ?E, IH; reflexivity.
Qed.

Lemma childrenOf_In (db : TaskTable) (x : string) (t : Task.t) :
  In t (childrenOf db x) <-> In t db /\ Task.parentTaskId t = Some x.
Proof.
  unfold childrenOf. rewrite filter_In. unfold colEq.
  destruct (Task.parentTaskId t) as [p|].
  - split; intros [H1 H2]; split; auto.
    + apply String.eqb_eq in H2. congruence.
    + apply String.eqb_eq. congruence.
  - split; intros [H1 H2]; split; auto; discriminate.
Qed.

Lemma childrenOf_updateTask_self (rank : string -> nat) (db : TaskTable) (x : string)
  (u : TaskUpdates) :
  ranked rank db -> childrenOf (updateTask db x u) x = childrenOf db x.
Proof.
  intros Hr. rewrite childrenOf_updateTask. apply updateTask_absent.
  intros t Ht Heq. apply childrenOf_In in Ht. destruct Ht as [Hin Hp].
  specialize (Hr t x Hin Hp). rewrite Heq in Hr. lia.
Qed.

Lemma updateTask_length (db : TaskTable) (x : string) (u : TaskUpdates) :
  length (updateTask db x u) = length db.
Proof. apply length_map. Qed.

Lemma ranked_updateTask (rank : string -> nat) (db : TaskTable) (x : string)
  (u : TaskUpdates) :
  ranked rank db -> ranked rank (updateTask db x u).
Proof.
  intros Hr t p Hin Hp. unfold updateTask in Hin. apply in_map_iff in Hin.
  destruct Hin as [t0 [Ht0 Hin0]].
  destruct (Task.id t0 =? x); subst t; [|eauto].
  simpl in *. eauto.
Qed.

Lemma countLe_updateTask (rank : string -> nat) (db : TaskTable) (x y : string)
  (u : TaskUpdates) :
  countLe rank (updateTask db x u) y = countLe rank db y.
Proof.
  unfold countLe, updateTask. induction db as [|a db IH]; simpl; [reflexivity|].
  assert (E : Task.id (if Task.id a =? x then applyTaskUpdates u a else a) = Task.id a)
    by (destruct (Task.id a =? x); reflexivity).
  rewrite E. destruct (Nat.leb _ _); simpl; rewrite IH; reflexivity.
Qed.

Lemma filter_length_lt {A : Type} (f g : A -> bool) (l : list A) (a : A) :
  (forall b, f b = true -> g b = true) ->
  In a l -> f a = false -> g a = true ->
  length (filter f l) < length (filter g l).
Proof.
  intros Hfg. induction l as [|b l IH]; simpl; intros Hin Hf Hg; [contradiction|].
  assert (Hle : forall l', length (filter f l') <= length (filter g l')).
  { induction l' as [|c l' IH']; simpl; [lia|].
    destruct (f c) eqn:Ef; [rewrite (Hfg c Ef); simpl; lia|].
    destruct (g c); simpl; lia. }
  destruct Hin as [-> | Hin].
  - rewrite Hf, Hg. simpl. specialize (Hle l). lia.
  - specialize (IH Hin Hf Hg).
    destruct (f b) eqn:Ef; [rewrite (Hfg b Ef); simpl; lia|].
    destruct (g b); simpl; lia.
Qed.

Lemma countLe_parent (rank : string -> nat) (db : TaskTable) (x p : string) (t : Task.t) :
  In t db -> Task.id t = x -> rank p < rank x ->
  countLe rank db p < countLe rank db x.
Proof.
  intros Hin Hid Hlt. unfold countLe. apply (filter_length_lt _ _ db t); auto.
  - intros b Hb. apply Nat.leb_le in Hb. apply Nat.leb_le. lia.
  - apply Nat.leb_gt. rewrite Hid. exact Hlt.
  - apply Nat.leb_le. rewrite Hid. lia.
Qed.

Lemma countLe_length (rank : string -> nat) (db : TaskTable) (x : string) :
  countLe rank db x <= length db.
Proof. unfold countLe. apply filter_length_le. Qed.

(** ** The upward cascade *)

Lemma sameButProgress_refl (t : Task.t) : sameButProgress t t.
Proof. unfold sameButProgress. tauto. Qed.

Lemma sameButProgress_trans (a b c : Task.t) :
  sameButProgress a b -> sameButProgress b c -> sameButProgress a c.
Proof. unfold sameButProgress. intuition congruence. Qed.

Lemma sameButProgress_aggregate (t0 t : Task.t) (avg : Z) :
  sameButProgress t (applyTaskUpdates (aggregateUpdates t0 avg) t).
Proof. unfold sameButProgress. simpl. tauto. Qed.

Lemma cascadeStep_updateTask (rank : string -> nat) (db : TaskTable) (x : string)
  (t0 : Task.t) (avg : Z) :
  Forall2 (cascadeStep rank x) db (updateTask db x (aggregateUpdates t0 avg)).
Proof.
  unfold updateTask. induction db as [|a db IH]; simpl; constructor; auto.
  destruct (Task.id a =? x) eqn:E; split.
  - apply sameButProgress_aggregate.
  - apply String.eqb_eq in E. rewrite E. lia.
  - apply sameButProgress_refl.
  - reflexivity.
Qed.

Lemma Forall2_compose {A : Type} (R1 R2 R3 : A -> A -> Prop) (l1 l2 l3 : list A) :
  (forall a b c, R1 a b -> R2 b c -> R3 a c) ->
  Forall2 R1 l1 l2 -> Forall2 R2 l2 l3 -> Forall2 R3 l1 l3.
Proof.
  intros Hc H12. revert l3. induction H12; intros l3 H23; inversion H23; subst;
    constructor; eauto.
Qed.

Lemma Forall2_same {A : Type} (R : A -> A -> Prop) (l : list A) :
  (forall a, R a a) -> Forall2 R l l.
Proof. intros H. induction l; constructor; auto. Qed.

Lemma cascadeStep_getTask (rank : string -> nat) (p x : string) (db db' : TaskTable) :
  Forall2 (cascadeStep rank p) db db' -> rank p < rank x ->
  getTask db' x = getTask db x.
Proof.
  intros H Hlt. unfold getTask. induction H as [|a b l l' [Hs Hk] _ IH]; simpl; [reflexivity|].
  destruct Hs as [Hid _]. rewrite Hid.
  destruct (Task.id a =? x) eqn:E; [|exact IH].
  apply String.eqb_eq in E. rewrite Hk; [reflexivity | rewrite E; exact Hlt].
Qed.

Lemma cascadeStep_childrenOf (rank : string -> nat) (p x : string) (db db' : TaskTable) :
  Forall2 (cascadeStep rank p) db db' -> ranked rank db -> rank p <= rank x ->
  childrenOf db' x = childrenOf db x.
Proof.
  intros H Hr Hle. unfold childrenOf.
  induction H as [|a b l l' [Hs Hk] _ IH]; simpl; [reflexivity|].
  assert (Hr' : ranked rank l) by (intros t q Ht; apply Hr; now right).
  destruct Hs as [Hid [_ [Hpar _]]]. rewrite Hpar.
  destruct (colEq (Task.parentTaskId a) x) eqn:E; [|auto].
  assert (Hpa : Task.parentTaskId a = Some x).
  { unfold colEq in E. destruct (Task.parentTaskId a); [|discriminate].
    apply String.eqb_eq in E. congruence. }
  assert (Hlt : rank x < rank (Task.id a)) by (apply (Hr a x); [now left | exact Hpa]).
  rewrite Hk by lia. f_equal. auto.
Qed.

Lemma recalculate_fuel_more (fuel : nat) (x : string) (db r : TaskTable) :
  recalculateParentTaskCompletion_fuel fuel x db = Some r ->
  recalculateParentTaskCompletion_fuel (S fuel) x db = Some r.
Proof.
  revert x db. induction fuel as [|fuel IH]; intros x db H; [discriminate|].
  simpl in H. change (recalculateParentTaskCompletion_fuel (S (S fuel)) x db)
    with (match getTask db x with
          | None => Some db
          | Some parentTask =>
            match childrenOf db x with
            | [] => Some db
            | _ :: _ =>
              match Task.parentTaskId parentTask with
              | Some p =>
                if truthy p
                then recalculateParentTaskCompletion_fuel (S fuel) p
                       (updateTask db x
                          (aggregateUpdates parentTask (avgPercentOf (childrenOf db x))))
                else Some (updateTask db x
                          (aggregateUpdates parentTask (avgPercentOf (childrenOf db x))))
              | None => Some (updateTask db x
                          (aggregateUpdates parentTask (avgPercentOf (childrenOf db x))))
              end
            end
          end).
  destruct (getTask db x) as [t|]; [|exact H].
  destruct (childrenOf db x) as [|c cs]; [exact H|].
  destruct (Task.parentTaskId t) as [p|]; [|exact H].
  destruct (truthy p); [|exact H]. apply IH. exact H.
Qed.

Lemma recalculate_fuel_node (fuel : nat) (db : TaskTable) (x : string) (t : Task.t) :
  getTask db x = Some t -> childrenOf db x <> [] ->
  recalculateParentTaskCompletion_fuel (S fuel) x db =
  let db1 := updateTask db x (aggregateUpdates t (avgPercentOf (childrenOf db x))) in
  match Task.parentTaskId t with
  | Some p => if truthy p then recalculateParentTaskCompletion_fuel fuel p db1 else Some db1
  | None => Some db1
  end.
Proof.
  intros Hget Hne. simpl. rewrite Hget.
  destruct (childrenOf db x) as [|c cs]; [contradiction | reflexivity].
Qed.

Lemma recalculate_fuel_mono (fuel fuel' : nat) (x : string) (db r : TaskTable) :
  fuel <= fuel' ->
  recalculateParentTaskCompletion_fuel fuel x db = Some r ->
  recalculateParentTaskCompletion_fuel fuel' x db = Some r.
Proof.
  induction 1 as [|m _ IH]; intros H; [exact H|].
  apply recalculate_fuel_more. auto.
Qed.

Lemma cascaded_before_update (rank : string -> nat) (db db' : TaskTable) (x : string)
  (u : TaskUpdates) (q : string) :
  ranked rank db ->
  cascaded (updateTask db x u) db' q -> rank q < rank x -> cascaded db db' q.
Proof.
  intros Hr H. induction H as [q Hnone | q Hleaf | q t Hget Hne Hfin Hup IH]; intros Hlt.
  - apply cascaded_missing.
    rewrite getTask_updateTask_other in Hnone; [exact Hnone|].
    intros ->. lia.
  - apply cascaded_leaf. rewrite childrenOf_updateTask in Hleaf.
    unfold updateTask in Hleaf. now apply map_eq_nil in Hleaf.
  - assert (Hxq : x <> q) by (intros ->; lia).
    rewrite getTask_updateTask_other in Hget by exact Hxq.
    apply cascaded_node with t; auto.
    + intros E. apply Hne. rewrite childrenOf_updateTask, E. reflexivity.
    + intros p Hp Htp. apply IH; auto.
      apply getTask_In in Hget. destruct Hget as [Hin Hid].
      specialize (Hr t p Hin Hp). rewrite Hid in Hr. lia.
Qed.

Lemma recalculate_fuel_spec (rank : string -> nat) (fuel : nat) :
  forall (db : TaskTable) (x : string),
    ranked rank db -> countLe rank db x < fuel ->
    exists db',
      recalculateParentTaskCompletion_fuel fuel x db = Some db' /\
      Forall2 (cascadeStep rank x) db db' /\
      cascaded db db' x.
Proof.
  induction fuel as [|fuel IH]; intros db x Hr Hfuel; [lia|].
  simpl. destruct (getTask db x) as [t|] eqn:Hget.
  2:{ exists db. repeat split.
      - apply Forall2_same. intros a. split; [apply sameButProgress_refl | reflexivity].
      - now apply cascaded_missing. }
  destruct (childrenOf db x) as [|c cs] eqn:Hch.
  { exists db. repeat split.
    - apply Forall2_same. intros a. split; [apply sameButProgress_refl | reflexivity].
    - now apply cascaded_leaf. }
  rewrite <- Hch.
  set (u := aggregateUpdates t (avgPercentOf (childrenOf db x))).
  assert (Hself : getTask (updateTask db x u) x
                  = Some (applyTaskUpdates
                            (aggregateUpdates t
                               (avgPercentOf (childrenOf (updateTask db x u) x))) t)).
  { rewrite (childrenOf_updateTask_self rank) by exact Hr.
    now apply getTask_updateTask_same. }
  assert (Hne : childrenOf db x <> []) by (rewrite Hch; discriminate).
  assert (Hstop : cascaded db (updateTask db x u) x ->
                  exists db', Some (updateTask db x u) = Some db' /\
                    Forall2 (cascadeStep rank x) db db' /\ cascaded db db' x).
  { intros Hc. exists (updateTask db x u). repeat split; auto.
    apply cascadeStep_updateTask. }
  destruct (Task.parentTaskId t) as [p|] eqn:Hp.
  2:{ apply Hstop. apply cascaded_node with t; auto.
      intros p Hp'. congruence. }
  destruct (truthy p) eqn:Htp.
  2:{ apply Hstop. apply cascaded_node with t; auto.
      intros p' Hp' Ht'. congruence. }
  destruct (getTask_In _ _ _ Hget) as [Hin Hid].
  assert (Hlt : rank p < rank x) by (rewrite <- Hid; now apply (Hr t p)).
  destruct (IH (updateTask db x u) p) as [db' [Hrun [Hstep Hcas]]].
  { now apply ranked_updateTask. }
  { rewrite countLe_updateTask.
    pose proof (countLe_parent rank db x p t Hin Hid Hlt). lia. }
  exists db'. split; [exact Hrun|]. split.
  - apply (Forall2_compose (cascadeStep rank x) (cascadeStep rank p) _ db
             (updateTask db x u) db'); auto.
    + intros a b d [Hs1 Hk1] [Hs2 Hk2]. split.
      * eapply sameButProgress_trans; eauto.
      * intros Hgt. destruct Hs1 as [Hid1 _].
        rewrite Hk2 by (rewrite Hid1; lia). auto.
    + apply cascadeStep_updateTask.
  - apply cascaded_node with t; auto.
    + rewrite (cascadeStep_getTask rank p x _ _ Hstep Hlt).
      rewrite (cascadeStep_childrenOf rank p x _ _ Hstep) by
        (try apply ranked_updateTask; auto; lia).
      exact Hself.
    + intros p' Hp' _. assert (p' = p) as -> by congruence.
      apply (cascaded_before_update rank db db' x u p); auto.
Qed.

Lemma rankedb_ranked (rank : string -> nat) (db : TaskTable) :
  rankedb rank db = true -> ranked rank db.
Proof.
  unfold rankedb, ranked. rewrite forallb_forall. intros H t p Hin Hp.
  specialize (H t Hin). rewrite Hp in H. now apply Nat.ltb_lt.
Qed.

Lemma recalculate_total (rank : string -> nat) (db : TaskTable) (x : string) :
  ranked rank db ->
  exists db',
    recalculateParentTaskCompletion db x = Some db' /\
    Forall2 (cascadeStep rank x) db db' /\
    cascaded db db' x.
Proof.
  intros Hr. apply recalculate_fuel_spec; auto.
  pose proof (countLe_length rank db x). lia.
Qed.

Lemma recalculate_noop (db : TaskTable) (x : string) :
  getTask db x = None \/ childrenOf db x = [] ->
  recalculateParentTaskCompletion db x = Some db.
Proof.
  unfold recalculateParentTaskCompletion. simpl. intros [H | H]; rewrite H.
  - reflexivity.
  - destruct (getTask db x); reflexivity.
Qed.

(** C1.  On a table without parent cycles, [recalculateParentTaskCompletion]
    called on a task [t] that has direct children returns, and in the table
    it returns the task holds the rounded mean [avg] of its children's
    [percentComplete], [isCompleted = (avg = 100)], and the status
    "completed" when [avg = 100], "in-progress" when [avg > 0], its stored
    status otherwise; its other columns and its children are as before.  When
    the task has a [parentTaskId] the result is that of the same function
    called on the parent after this write (the source makes the call for a
    non-empty [parentTaskId]; on one that is the id of no task the call would
    change nothing), and so on upwards: every task reached holds the
    aggregate of its children in the final table. *)
Theorem recalculateParentTaskCompletion_aggregates
  (rank : string -> nat) (db : TaskTable) (x : string) (t : Task.t) :
  ranked rank db -> getTask db x = Some t -> childrenOf db x <> [] ->
  let children := childrenOf db x in
  let avg := avgPercentOf children in
  let db1 := updateTask db x (aggregateUpdates t avg) in
  mean_rounds_to (map Task.percentComplete children) avg /\
  exists db' t',
    recalculateParentTaskCompletion db x = Some db' /\
    getTask db' x = Some t' /\
    sameButProgress t t' /\
    Task.percentComplete t' = avg /\
    Task.isCompleted t' = (avg =? 100)%Z /\
    (avg = 100%Z -> Task.status t' = "completed") /\
    (avg <> 100%Z -> (0 < avg)%Z -> Task.status t' = "in-progress") /\
    (avg <> 100%Z -> (avg <= 0)%Z -> Task.status t' = Task.status t) /\
    childrenOf db' x = children /\
    match Task.parentTaskId t with
    | Some p =>
      if truthy p then recalculateParentTaskCompletion db1 p = Some db'
      else db' = db1
    | None => db' = db1
    end /\
    (forall p, Task.parentTaskId t = Some p ->
               truthy p = true \/ getTask db p = None ->
               recalculateParentTaskCompletion db1 p = Some db') /\
    cascaded db db' x.
Proof.
  intros Hr Hget Hne children avg db1.
  split; [now apply avgPercentOf_rounds|].
  destruct (recalculate_total rank db x Hr) as [db' [Hrun [Hstep Hcas]]].
  exists db', (applyTaskUpdates (aggregateUpdates t avg) t).
  assert (Hch : childrenOf db' x = children).
  { apply (cascadeStep_childrenOf rank x x); auto. }
  assert (Hfin : getTask db' x = Some (applyTaskUpdates (aggregateUpdates t avg) t)).
  { inversion Hcas as [q Hnone | q Hleaf | q t0 Hget0 _ Hfin _]; subst.
    - congruence.
    - contradiction.
    - assert (t0 = t) as -> by congruence. rewrite Hfin, Hch. reflexivity. }
  split; [exact Hrun|]. split; [exact Hfin|].
  split; [apply sameButProgress_aggregate|].
  split; [reflexivity|]. split; [reflexivity|].
  split. { intros E. simpl. rewrite E. reflexivity. }
  split. { intros E1 E2. simpl. apply Z.eqb_neq in E1. rewrite E1.
           assert ((avg >? 0)%Z = true) as -> by (apply Z.gtb_lt; lia). reflexivity. }
  split. { intros E1 E2. simpl. apply Z.eqb_neq in E1. rewrite E1.
           assert ((avg >? 0)%Z = false) as -> by (rewrite Z.gtb_ltb; apply Z.ltb_ge; lia).
           reflexivity. }
  split; [exact Hch|].
  assert (Hstep' : match Task.parentTaskId t with
                   | Some p =>
                     if truthy p then recalculateParentTaskCompletion db1 p = Some db'
                     else db' = db1
                   | None => db' = db1
                   end).
  { unfold recalculateParentTaskCompletion in Hrun.
    rewrite (recalculate_fuel_node _ db x t Hget Hne) in Hrun.
    fold children avg db1 in Hrun.
    destruct (Task.parentTaskId t) as [p|]; [|congruence].
    destruct (truthy p); [|congruence].
    unfold recalculateParentTaskCompletion.
    apply (recalculate_fuel_mono (length db)); [|exact Hrun].
    unfold db1. rewrite updateTask_length. lia. }
  split; [exact Hstep'|]. split; [|exact Hcas].
  intros p Hp Hcase. rewrite Hp in Hstep'.
  destruct (truthy p); [exact Hstep'|].
  destruct Hcase as [Hc | Hc]; [discriminate|]. subst db'.
  apply recalculate_noop. left. now apply getTask_updateTask_none.
Qed.

Lemma recalculateParentTaskCompletion_aggregates_witness :
  ranked sampleRank sampleTasks /\
  getTask sampleTasks "C" = Some (sampleTask "C" (Some "A") 50 "in-progress" 0) /\
  childrenOf sampleTasks "C" <> [] /\
  exists db' c a,
    recalculateParentTaskCompletion sampleTasks "C" = Some db' /\
    getTask db' "C" = Some c /\
    Task.percentComplete c = 50%Z /\
    Task.status c = "in-progress" /\
    getTask db' "A" = Some a /\
    Task.percentComplete a = 75%Z /\
    Task.isCompleted a = false /\
    Task.status a = "in-progress".
Proof.
  assert (H1 : ranked sampleRank sampleTasks) by (apply rankedb_ranked; reflexivity).
  assert (H2 : getTask sampleTasks "C" = Some (sampleTask "C" (Some "A") 50 "in-progress" 0))
    by reflexivity.
  assert (H3 : childrenOf sampleTasks "C" <> []) by (vm_compute; discriminate).
  split; [exact H1|]. split; [exact H2|]. split; [exact H3|].
  destruct (recalculateParentTaskCompletion_aggregates
              sampleRank sampleTasks "C" _ H1 H2 H3)
    as [_ [db' [t' [Hrun [Hget [_ [Hpc [_ [_ [Hst _]]]]]]]]]].
  assert (Hdb : recalculateParentTaskCompletion sampleTasks "C"
                = Some [ sampleTask "A" None 75 "in-progress" 0;
                         sampleTask "B" (Some "A") 100 "completed" 1;
                         sampleTask "C" (Some "A") 50 "in-progress" 0;
                         sampleTask "D" (Some "C") 50 "blocked" 0 ])
    by (vm_compute; reflexivity).
  exists db', t', (sampleTask "A" None 75 "in-progress" 0).
  split; [exact Hrun|]. split; [exact Hget|]. split; [exact Hpc|].
  split; [apply Hst; vm_compute; [discriminate | reflexivity]|].
  rewrite Hdb in Hrun. inversion Hrun. repeat split.
Defined.

(** ** Missing ids and leaves *)

Lemma setProjectPercent_absent (ps : ProjectTable) (projectId : string) (v : Z) :
  getProject ps projectId = None -> setProjectPercent ps projectId v = ps.
Proof.
  unfold getProject, setProjectPercent. induction ps as [|p ps IH]; simpl; [reflexivity|].
  destruct (Project.id p =? projectId); [discriminate|].
  intros H. f_equal. auto.
Qed.

(** C9.  Neither recalculation fails on an id that is not there:
    [recalculateParentTaskCompletion] on an id with no row returns the table
    as it is, and so does it on a task without children, however often it is
    called; [recalculateProjectCompletion] on an id with no project row
    leaves the projects table as it is. *)
Theorem recalculate_missing_or_leaf_is_noop (ps : ProjectTable) (db : TaskTable)
  (x projectId : string) (n : nat) :
  (getTask db x = None -> recalculateParentTaskCompletion db x = Some db) /\
  (childrenOf db x = [] -> recalculateParentTaskCompletion db x = Some db) /\
  (getTask db x = None \/ childrenOf db x = [] -> recalculateTimes n x db = Some db) /\
  (getProject ps projectId = None ->
   recalculateProjectCompletion ps db projectId = ps).
Proof.
  split; [intros H; apply recalculate_noop; now left|].
  split; [intros H; apply recalculate_noop; now right|].
  split.
  - intros H. induction n as [|n IH]; simpl; [reflexivity|].
    rewrite (recalculate_noop db x H). exact IH.
  - intros H. unfold recalculateProjectCompletion.
    destruct (rootTasksOf db projectId); now apply setProjectPercent_absent.
Qed.

Lemma recalculate_missing_or_leaf_is_noop_witness :
  getTask sampleTasks "Z" = None /\
  childrenOf sampleTasks "B" = [] /\
  getProject sampleProjects "Z" = None /\
  recalculateParentTaskCompletion sampleTasks "Z" = Some sampleTasks /\
  recalculateTimes 5 "B" sampleTasks = Some sampleTasks /\
  recalculateProjectCompletion sampleProjects sampleTasks "Z" = sampleProjects.
Proof.
  assert (H1 : getTask sampleTasks "Z" = None) by reflexivity.
  assert (H2 : childrenOf sampleTasks "B" = []) by reflexivity.
  assert (H3 : getProject sampleProjects "Z" = None) by reflexivity.
  split; [exact H1|]. split; [exact H2|]. split; [exact H3|].
  split; [|split].
  - exact (proj1 (recalculate_missing_or_leaf_is_noop sampleProjects sampleTasks
                    "Z" "Z" 0) H1).
  - exact (proj1 (proj2 (proj2
      (recalculate_missing_or_leaf_is_noop sampleProjects sampleTasks "B" "Z" 5)))
      (or_intror H2)).
  - exact (proj2 (proj2 (proj2
      (recalculate_missing_or_leaf_is_noop sampleProjects sampleTasks "Z" "Z" 0))) H3).
Defined.

(** ** The project aggregate *)

Lemma rootTasksOf_In (db : TaskTable) (projectId : string) (t : Task.t) :
  In t (rootTasksOf db projectId) <->
  In t db /\ Task.projectId t = projectId /\ truthyOpt (Task.parentTaskId t) = false.
Proof.
  unfold rootTasksOf, getTasksByProject. rewrite !filter_In, negb_true_iff.
  rewrite String.eqb_eq. tauto.
Qed.

Lemma getProject_setProjectPercent_same (ps : ProjectTable) (x : string) (v : Z)
  (p : Project.t) :
  getProject ps x = Some p ->
  getProject (setProjectPercent ps x v) x
  = Some (applyProjectUpdates (mkProjectUpdates (Some v) None) p).
Proof.
  unfold getProject, setProjectPercent. induction ps as [|a ps IH]; simpl; [discriminate|].
  destruct (Project.id a =? x) eqn:E; simpl; rewrite E; [congruence | exact IH].
Qed.

Lemma getProject_setProjectPercent_other (ps : ProjectTable) (x y : string) (v : Z) :
  x <> y -> getProject (setProjectPercent ps x v) y = getProject ps y.
Proof.
  intros Hxy. unfold getProject, setProjectPercent.
  induction ps as [|a ps IH]; simpl; [reflexivity|].
  destruct (Project.id a =? x) eqn:E; simpl.
  - apply String.eqb_eq in E.
    assert ((Project.id a =? y) = false) as -> by (apply String.eqb_neq; congruence).
    exact IH.
  - destruct (Project.id a =? y); [reflexivity | exact IH].
Qed.

(** C2.  [recalculateProjectCompletion] writes into the project row 0 when
    the project has no root task and the rounded mean of the root tasks'
    [percentComplete] otherwise, whatever value the row held; the root tasks
    are the project's tasks whose [parentTaskId] is null or empty (the
    source tests [!t.parentTaskId]), which are those with a null
    [parentTaskId] when no row has an empty one.  Nothing else of the row
    and no other project changes. *)
Theorem recalculateProjectCompletion_mean (ps : ProjectTable) (db : TaskTable)
  (projectId : string) :
  let rootTasks := rootTasksOf db projectId in
  let ps' := recalculateProjectCompletion ps db projectId in
  (forall t, In t rootTasks <->
             In t db /\ Task.projectId t = projectId /\
             truthyOpt (Task.parentTaskId t) = false) /\
  ((forall t, In t db -> Task.parentTaskId t <> Some EmptyString) ->
   forall t, In t rootTasks <->
             In t db /\ Task.projectId t = projectId /\ Task.parentTaskId t = None) /\
  exists v,
    (rootTasks = [] -> v = 0%Z) /\
    (rootTasks <> [] -> mean_rounds_to (map Task.percentComplete rootTasks) v) /\
    (forall p, getProject ps projectId = Some p ->
       getProject ps' projectId =
       Some (Project.mk (Project.id p) (Project.name p) (Project.description p)
               (Project.categoryId p) (Project.status p) v
               (Project.roadblocks p) (Project.aiSuggestions p))) /\
    (forall p, In p ps' -> Project.id p = projectId -> Project.percentComplete p = v) /\
    (forall q, q <> projectId -> getProject ps' q = getProject ps q) /\
    length ps' = length ps.
Proof.
  intros rootTasks ps'. split; [intros t; apply rootTasksOf_In|].
  split.
  { intros Hnone t. unfold rootTasks. rewrite rootTasksOf_In. split.
    - intros [Hin [Hp Ht]]. repeat split; auto.
      destruct (Task.parentTaskId t) as [q|] eqn:Eq; [|reflexivity].
      exfalso. apply (Hnone t Hin). rewrite Eq. f_equal.
      simpl in Ht. unfold truthy in Ht. apply negb_false_iff in Ht.
      now apply String.eqb_eq.
    - intros [Hin [Hp Ht]]. repeat split; auto. now rewrite Ht. }
  exists (match rootTasks with [] => 0%Z | _ :: _ => avgPercentOf rootTasks end).
  assert (E : ps' = setProjectPercent ps projectId
                      (match rootTasks with [] => 0%Z | _ :: _ => avgPercentOf rootTasks end)).
  { unfold ps', recalculateProjectCompletion. fold rootTasks.
    destruct rootTasks; reflexivity. }
  rewrite E. repeat split.
  - intros ->. reflexivity.
  - destruct rootTasks as [|r rs] eqn:Er; [congruence|].
    rewrite <- Er. apply avgPercentOf_rounds; congruence.
  - destruct rootTasks as [|r rs] eqn:Er; [congruence|].
    rewrite <- Er. apply avgPercentOf_rounds; congruence.
  - intros p Hp. now rewrite (getProject_setProjectPercent_same ps projectId _ p Hp).
  - intros p Hin Hid. unfold setProjectPercent in Hin. apply in_map_iff in Hin.
    destruct Hin as [p0 [Hp0 _]].
    destruct (Project.id p0 =? projectId) eqn:E0; subst p.
    + reflexivity.
    + apply String.eqb_neq in E0. contradiction.
  - intros q Hq. apply getProject_setProjectPercent_other. congruence.
  - unfold setProjectPercent. apply length_map.
Qed.

Lemma recalculateProjectCompletion_mean_witness :
  rootTasksOf sampleTasks "P2" = [] /\
  rootTasksOf sampleTasks "P1" <> [] /\
  (exists p, getProject (recalculateProjectCompletion sampleProjects sampleTasks "P2") "P2"
             = Some p /\ Project.percentComplete p = 0%Z) /\
  (exists p, getProject (recalculateProjectCompletion sampleProjects sampleTasks "P1") "P1"
             = Some p /\
             mean_rounds_to (map Task.percentComplete (rootTasksOf sampleTasks "P1"))
               (Project.percentComplete p)).
Proof.
  assert (H1 : rootTasksOf sampleTasks "P2" = []) by reflexivity.
  assert (H2 : rootTasksOf sampleTasks "P1" <> []) by (vm_compute; discriminate).
  split; [exact H1|]. split; [exact H2|]. split.
  - destruct (recalculateProjectCompletion_mean sampleProjects sampleTasks "P2")
      as [_ [_ [v [Hz [_ [Hget _]]]]]].
    eexists. split; [apply Hget; reflexivity|]. simpl. now apply Hz.
  - destruct (recalculateProjectCompletion_mean sampleProjects sampleTasks "P1")
      as [_ [_ [v [_ [Hm [Hget _]]]]]].
    eexists. split; [apply Hget; reflexivity|]. simpl. now apply Hm.
Defined.

(** ** Deleting a subtree *)

Lemma inSubtree_trans (db : TaskTable) (x y z : string) :
  inSubtree db x y -> inSubtree db y z -> inSubtree db x z.
Proof.
  intros Hxy Hyz. induction Hyz as [|w t Hyw IH Hin Hp]; [exact Hxy|].
  now apply subtree_child with w.
Qed.

Lemma countGt_child (rank : string -> nat) (db : TaskTable) (x : string) (c : Task.t) :
  In c db -> rank x < rank (Task.id c) ->
  countGt rank db (Task.id c) < countGt rank db x.
Proof.
  intros Hin Hlt. unfold countGt. apply (filter_length_lt _ _ db c); auto.
  - intros b Hb. apply Nat.ltb_lt in Hb. apply Nat.ltb_lt. lia.
  - apply Nat.ltb_ge. lia.
  - now apply Nat.ltb_lt.
Qed.

Lemma countGt_length (rank : string -> nat) (db : TaskTable) (x : string) :
  countGt rank db x <= length db.
Proof. unfold countGt. apply filter_length_le. Qed.

Lemma filter_filter {A : Type} (f g : A -> bool) (l : list A) :
  filter f (filter g l) = filter (fun a => g a && f a) l.
Proof.
  induction l as [|a l IH]; simpl; [reflexivity|].
  destruct (g a); simpl; [destruct (f a)|]; rewrite IH; reflexivity.
Qed.

Section DeleteSubtree.

Variable rank : string -> nat.
Variable db0 : TaskTable.
Hypothesis db0_ranked : ranked rank db0.

Lemma deleteChildren_spec (fuel : nat) (x : string) :
  (forall c, In c db0 -> rank x < rank (Task.id c) -> deletesSubtree db0 fuel (Task.id c)) ->
  forall (cs : TaskTable) (keep : string -> bool),
    (forall c, In c cs -> In c db0 /\ rank x < rank (Task.id c)) ->
    closedDown db0 keep ->
    exists keep',
      forEach (fun child d => deleteTask_fuel fuel (Task.id child) d) cs (keptRows keep db0)
      = Some (keptRows keep' db0) /\
      closedDown db0 keep' /\
      forall y, keep' y = false <->
                keep y = false \/ exists c, In c cs /\ inSubtree db0 (Task.id c) y.
Proof.
  intros Hrec. induction cs as [|c cs IH]; intros keep Hcs Hclosed; simpl.
  - exists keep. split; [reflexivity|]. split; [exact Hclosed|].
    intros y. split; [now left|]. intros [H | [c [[] _]]]. exact H.
  - destruct (Hcs c (or_introl eq_refl)) as [Hin Hlt].
    destruct (Hrec c Hin Hlt keep Hclosed) as [keep1 [Hrun1 [Hcl1 Hk1]]].
    rewrite Hrun1.
    destruct (IH keep1) as [keep2 [Hrun2 [Hcl2 Hk2]]]; auto.
    { intros c' Hc'. apply Hcs. now right. }
    exists keep2. split; [exact Hrun2|]. split; [exact Hcl2|].
    intros y. rewrite Hk2, Hk1. split.
    + intros [[H | H] | [c' [Hc' H]]]; auto.
      * right. exists c. split; [now left | exact H].
      * right. exists c'. split; [now right | exact H].
    + intros [H | [c' [[<- | Hc'] H]]]; auto.
      right. exists c'. auto.
Qed.

Lemma deleteTask_fuel_spec (fuel : nat) :
  forall x, countGt rank db0 x < fuel -> deletesSubtree db0 fuel x.
Proof.
  induction fuel as [|fuel IH]; intros x Hfuel; [lia|].
  intros keep Hclosed. simpl.
  destruct (deleteChildren_spec fuel x) with
    (cs := childrenOf (keptRows keep db0) x) (keep := keep)
    as [keep1 [Hrun [Hcl1 Hk1]]]; auto.
  { intros c Hin Hlt. apply IH.
    pose proof (countGt_child rank db0 x c Hin Hlt). lia. }
  { intros c Hc. apply childrenOf_In in Hc. destruct Hc as [Hc Hp].
    unfold keptRows in Hc. apply filter_In in Hc. destruct Hc as [Hc _].
    split; [exact Hc | now apply (db0_ranked c x)]. }
  rewrite Hrun. exists (fun y => keep1 y && negb (y =? x)).
  split; [|split].
  - unfold deleteRow, keptRows. now rewrite filter_filter.
  - intros c y Hc Hp Hy. apply andb_false_iff in Hy. apply andb_false_iff.
    destruct Hy as [Hy | Hy].
    + left. now apply (Hcl1 c y).
    + apply negb_false_iff, String.eqb_eq in Hy. subst y.
      destruct (keep (Task.id c)) eqn:Ek.
      * left. apply Hk1. right. exists c. split; [|apply subtree_self].
        apply childrenOf_In. split; [|exact Hp].
        unfold keptRows. apply filter_In. auto.
      * left. apply Hk1. now left.
  - intros y. rewrite andb_false_iff, negb_false_iff, String.eqb_eq, Hk1. split.
    + intros [[H | [c [Hc H]]] | ->]; auto.
      * right. apply childrenOf_In in Hc. destruct Hc as [Hc Hp].
        unfold keptRows in Hc. apply filter_In in Hc. destruct Hc as [Hc _].
        apply inSubtree_trans with (Task.id c); [|exact H].
        apply subtree_child with x; auto. apply subtree_self.
      * right. apply subtree_self.
    + intros [H | H]; [now left; left|].
      induction H as [|w t Hw IHw Hin Hp]; [now right|].
      left. destruct IHw as [[Hkw | [c [Hc Hsub]]] | ->].
      * left. now apply (Hclosed t w).
      * right. exists c. split; [exact Hc|]. now apply subtree_child with w.
      * destruct (keep (Task.id t)) eqn:Ek; [|now left].
        right. exists t. split; [|apply subtree_self].
        apply childrenOf_In. split; [|exact Hp].
        unfold keptRows. apply filter_In. auto.
Qed.

End DeleteSubtree.

Lemma keptRows_all (db : TaskTable) : keptRows (fun _ => true) db = db.
Proof. unfold keptRows. induction db as [|a db IH]; simpl; congruence. Qed.

Lemma deleteTask_fuel_more (fuel : nat) :
  forall (x : string) (d r : TaskTable),
    deleteTask_fuel fuel x d = Some r -> deleteTask_fuel (S fuel) x d = Some r.
Proof.
  induction fuel as [|fuel IH]; intros x d r H; [discriminate|].
  simpl in H.
  change (deleteTask_fuel (S (S fuel)) x d)
    with (match forEach (fun child d' => deleteTask_fuel (S fuel) (Task.id child) d')
                  (childrenOf d x) d with
          | Some d' => Some (deleteRow d' x)
          | None => None
          end).
  destruct (forEach (fun child d' => deleteTask_fuel fuel (Task.id child) d')
              (childrenOf d x) d) as [d1|] eqn:E; [|discriminate].
  assert (E' : forEach (fun child d' => deleteTask_fuel (S fuel) (Task.id child) d')
                 (childrenOf d x) d = Some d1).
  { revert E. generalize (childrenOf d x). generalize d.
    intros d0 cs. revert d0. induction cs as [|c cs IHcs]; intros d0 E; [exact E|].
    cbn [forEach] in E.
    destruct (deleteTask_fuel fuel (Task.id c) d0) as [d2|] eqn:Ec; [|discriminate].
    cbn [forEach]. rewrite (IH _ _ _ Ec). auto. }
  now rewrite E'.
Qed.

Lemma deleteTask_fuel_mono (fuel fuel' : nat) (x : string) (d r : TaskTable) :
  fuel <= fuel' ->
  deleteTask_fuel fuel x d = Some r -> deleteTask_fuel fuel' x d = Some r.
Proof.
  induction 1 as [|m _ IH]; intros H; [exact H|].
  apply deleteTask_fuel_more. auto.
Qed.

Lemma deleteTask_fuel_incl (fuel : nat) :
  forall (x : string) (d r : TaskTable),
    deleteTask_fuel fuel x d = Some r -> incl r d.
Proof.
  induction fuel as [|fuel IH]; intros x d r H; [discriminate|].
  simpl in H.
  destruct (forEach (fun child d' => deleteTask_fuel fuel (Task.id child) d')
              (childrenOf d x) d) as [d1|] eqn:E; [|discriminate].
  inversion H; subst. clear H.
  assert (Hd1 : incl d1 d).
  { revert E. generalize (childrenOf d x). intros cs. revert d.
    induction cs as [|c cs IHcs]; intros d E.
    - simpl in E. inversion E. apply incl_refl.
    - simpl in E.
      destruct (deleteTask_fuel fuel (Task.id c) d) as [d2|] eqn:Ec; [|discriminate].
      eapply incl_tran; [apply (IHcs d2 E) | apply (IH _ _ _ Ec)]. }
  intros t Ht. apply Hd1. unfold deleteRow in Ht. now apply filter_In in Ht.
Qed.

Lemma ranked_incl (rank : string -> nat) (d d' : TaskTable) :
  incl d' d -> ranked rank d -> ranked rank d'.
Proof. intros Hi Hr t p Ht. apply Hr. now apply Hi. Qed.

Lemma deleteTask_total (rank : string -> nat) (db : TaskTable) (x : string) :
  ranked rank db ->
  exists keep,
    deleteTask db x = Some (keptRows keep db) /\
    forall y, keep y = false <-> inSubtree db x y.
Proof.
  intros Hr.
  destruct (deleteTask_fuel_spec rank db Hr (S (length db)) x) with (keep := fun _ : string => true)
    as [keep' [Hrun [_ Hk]]].
  { pose proof (countGt_length rank db x). lia. }
  { intros c y _ _ H. discriminate. }
  rewrite keptRows_all in Hrun. exists keep'. split; [exact Hrun|].
  intros y. rewrite Hk. split; [intros [H | H]; [discriminate | exact H] | now right].
Qed.

Lemma deleteTask_any_fuel (rank : string -> nat) (fuel : nat) (d r : TaskTable) (x : string) :
  ranked rank d -> deleteTask_fuel fuel x d = Some r -> deleteTask d x = Some r.
Proof.
  intros Hr H. destruct (deleteTask_total rank d x Hr) as [keep [Hrun _]].
  unfold deleteTask in *.
  pose proof (deleteTask_fuel_mono fuel (max fuel (S (length d))) x d r
                (Nat.le_max_l _ _) H) as H1.
  pose proof (deleteTask_fuel_mono (S (length d)) (max fuel (S (length d))) x d _
                (Nat.le_max_r _ _) Hrun) as H2.
  congruence.
Qed.

Lemma deleteChildren_any_fuel (rank : string -> nat) (fuel : nat) (cs : TaskTable) :
  forall d r,
    ranked rank d ->
    forEach (fun child d' => deleteTask_fuel fuel (Task.id child) d') cs d = Some r ->
    forEach (fun child d' => deleteTask d' (Task.id child)) cs d = Some r.
Proof.
  induction cs as [|c cs IH]; intros d r Hr H; [exact H|].
  simpl in H. destruct (deleteTask_fuel fuel (Task.id c) d) as [d1|] eqn:Ec; [|discriminate].
  simpl. rewrite (deleteTask_any_fuel rank fuel d d1 (Task.id c) Hr Ec).
  apply IH; [|exact H].
  apply (ranked_incl rank d); [|exact Hr]. now apply (deleteTask_fuel_incl fuel (Task.id c)).
Qed.

(** C8.  On a table without parent cycles [deleteTask] returns, and the
    table it returns is the old one without the rows of the task's subtree
    (the task itself and every descendant), the other rows staying as and
    where they were.  The call is [deleteTask] on each direct child in turn,
    then the removal of the row itself; a task without children is removed
    alone. *)
Theorem deleteTask_removes_subtree (rank : string -> nat) (db : TaskTable) (x : string) :
  ranked rank db ->
  exists db',
    deleteTask db x = Some db' /\
    (forall t, In t db' <-> In t db /\ ~ inSubtree db x (Task.id t)) /\
    (exists keep, db' = keptRows keep db) /\
    deleteTask db x
    = match forEach (fun child d => deleteTask d (Task.id child)) (childrenOf db x) db with
      | Some d => Some (deleteRow d x)
      | None => None
      end /\
    (childrenOf db x = [] -> db' = deleteRow db x).
Proof.
  intros Hr. destruct (deleteTask_total rank db x Hr) as [keep' [Hrun Hk]].
  exists (keptRows keep' db).
  split; [exact Hrun|]. split; [|split; [|split]].
  - intros t. unfold keptRows. rewrite filter_In.
    split; intros [Hin H]; split; auto.
    + intros Hs. assert (keep' (Task.id t) = false) by now apply Hk. congruence.
    + destruct (keep' (Task.id t)) eqn:E; [reflexivity|].
      apply Hk in E. contradiction.
  - now exists keep'.
  - rewrite Hrun. unfold deleteTask in Hrun. simpl in Hrun.
    destruct (forEach (fun child d => deleteTask_fuel (length db) (Task.id child) d)
                (childrenOf db x) db) as [d1|] eqn:E; [|discriminate].
    rewrite (deleteChildren_any_fuel rank (length db) _ db d1 Hr E). now symmetry.
  - intros Hleaf. unfold deleteTask in Hrun. simpl in Hrun. rewrite Hleaf in Hrun.
    simpl in Hrun. congruence.
Qed.

Lemma deleteTask_removes_subtree_witness :
  ranked sampleRank sampleTasks /\
  deleteTask sampleTasks "C"
  = Some [ sampleTask "A" None 0 "pending" 0;
           sampleTask "B" (Some "A") 100 "completed" 1 ] /\
  ~ In (sampleTask "D" (Some "C") 50 "blocked" 0)
       [ sampleTask "A" None 0 "pending" 0;
         sampleTask "B" (Some "A") 100 "completed" 1 ] /\
  inSubtree sampleTasks "C" "D".
Proof.
  assert (H1 : ranked sampleRank sampleTasks) by (apply rankedb_ranked; reflexivity).
  destruct (deleteTask_removes_subtree sampleRank sampleTasks "C" H1)
    as [db' [Hrun [Hin _]]].
  assert (E : db' = [ sampleTask "A" None 0 "pending" 0;
                      sampleTask "B" (Some "A") 100 "completed" 1 ]).
  { assert (Hc : deleteTask sampleTasks "C"
                 = Some [ sampleTask "A" None 0 "pending" 0;
                          sampleTask "B" (Some "A") 100 "completed" 1 ])
      by (vm_compute; reflexivity).
    congruence. }
  assert (Hsub : inSubtree sampleTasks "C" "D").
  { apply (subtree_child sampleTasks "C" "C" (sampleTask "D" (Some "C") 50 "blocked" 0)).
    - apply subtree_self.
    - simpl. tauto.
    - reflexivity. }
  split; [exact H1|]. split; [rewrite <- E; exact Hrun|]. split; [|exact Hsub].
  rewrite <- E. intros HD. apply Hin in HD. destruct HD as [_ HD]. apply HD. exact Hsub.
Defined.

(** ** The stable sort *)

Lemma insertBySortOrder_perm (t : Task.t) (l : list Task.t) :
  Permutation (insertBySortOrder t l) (t :: l).
Proof.
  induction l as [|h l IH]; simpl; [reflexivity|].
  destruct (Task.sortOrder t <=? Task.sortOrder h)%Z; [reflexivity|].
  rewrite IH. apply perm_swap.
Qed.

Lemma sortBySortOrder_perm (l : list Task.t) : Permutation (sortBySortOrder l) l.
Proof.
  induction l as [|t l IH]; simpl; [reflexivity|].
  rewrite insertBySortOrder_perm. now constructor.
Qed.

Lemma insertBySortOrder_sorted (t : Task.t) (l : list Task.t) :
  Sorted (fun a b => (Task.sortOrder a <= Task.sortOrder b)%Z) l ->
  Sorted (fun a b => (Task.sortOrder a <= Task.sortOrder b)%Z) (insertBySortOrder t l).
Proof.
  induction l as [|h l IH]; simpl; intros Hs.
  - repeat constructor.
  - destruct (Task.sortOrder t <=? Task.sortOrder h)%Z eqn:E.
    + constructor; [exact Hs|]. constructor. now apply Z.leb_le.
    + apply Z.leb_gt in E. inversion Hs as [|? ? Hs' Hhd]; subst.
      constructor; [auto|].
      destruct l as [|h' l]; simpl.
      * constructor. lia.
      * destruct (Task.sortOrder t <=? Task.sortOrder h')%Z; constructor; try lia.
        inversion Hhd; subst. assumption.
Qed.

Lemma sortBySortOrder_sorted (l : list Task.t) :
  Sorted (fun a b => (Task.sortOrder a <= Task.sortOrder b)%Z) (sortBySortOrder l).
Proof.
  induction l as [|t l IH]; simpl; [constructor|].
  now apply insertBySortOrder_sorted.
Qed.

Lemma insertBySortOrder_stable (t : Task.t) (l : list Task.t) (k : Z) :
  filter (fun a => (Task.sortOrder a =? k)%Z) (insertBySortOrder t l)
  = filter (fun a => (Task.sortOrder a =? k)%Z) (t :: l).
Proof.
  induction l as [|h l IH]; [reflexivity|].
  simpl insertBySortOrder.
  destruct (Task.sortOrder t <=? Task.sortOrder h)%Z eqn:E; [reflexivity|].
  apply Z.leb_gt in E. simpl in *. rewrite IH.
  destruct (Task.sortOrder h =? k)%Z eqn:Eh; [|reflexivity].
  destruct (Task.sortOrder t =? k)%Z eqn:Et; [|reflexivity].
  apply Z.eqb_eq in Eh, Et. lia.
Qed.

Lemma sortBySortOrder_stable (l : list Task.t) : stableSortOf l (sortBySortOrder l).
Proof.
  split; [apply sortBySortOrder_perm|]. split; [apply sortBySortOrder_sorted|].
  intros k. induction l as [|t l IH]; [reflexivity|].
  simpl sortBySortOrder. rewrite insertBySortOrder_stable. simpl. now rewrite IH.
Qed.

Lemma sortBySortOrder_In (l : list Task.t) (t : Task.t) :
  In t (sortBySortOrder l) <-> In t l.
Proof.
  split; apply Permutation_in;
    [apply sortBySortOrder_perm | apply Permutation_sym, sortBySortOrder_perm].
Qed.

(** ** The task tree *)

Lemma mapM_spec {A B : Type} (f : A -> option B) (P : A -> B -> Prop) (l : list A) :
  (forall a, In a l -> exists b, f a = Some b /\ P a b) ->
  exists bs, mapM f l = Some bs /\ Forall2 P l bs.
Proof.
  induction l as [|a l IH]; intros H; simpl.
  - exists []. split; [reflexivity | constructor].
  - destruct (H a (or_introl eq_refl)) as [b [Hb HP]]. rewrite Hb.
    destruct IH as [bs [Hbs HF]]; [intros a' Ha'; apply H; now right|].
    rewrite Hbs. exists (b :: bs). split; [reflexivity | now constructor].
Qed.

Lemma hasParent_Some (t : Task.t) (x : string) :
  hasParent (Some x) t = true <-> Task.parentTaskId t = Some x.
Proof.
  unfold hasParent, strictEq. destruct (Task.parentTaskId t) as [p|].
  - rewrite String.eqb_eq. split; congruence.
  - split; discriminate.
Qed.

Lemma hasParent_None (t : Task.t) :
  hasParent None t = true <-> Task.parentTaskId t = None.
Proof.
  unfold hasParent, strictEq. destruct (Task.parentTaskId t); split; congruence.
Qed.

Lemma hasParent_eq (t : Task.t) (parentId : option string) :
  hasParent parentId t = true <-> Task.parentTaskId t = parentId.
Proof.
  destruct parentId as [x|]; [apply hasParent_Some | apply hasParent_None].
Qed.

Lemma unique_id_row (allTasks : list Task.t) (t u : Task.t) :
  NoDup (map Task.id allTasks) -> In t allTasks -> In u allTasks ->
  Task.id t = Task.id u -> t = u.
Proof.
  induction allTasks as [|a l IH]; simpl; intros Hnd Ht Hu Hid; [contradiction|].
  inversion Hnd as [|? ? Hnotin Hnd']; subst.
  destruct Ht as [-> | Ht], Hu as [-> | Hu]; auto.
  - exfalso. apply Hnotin. rewrite Hid. now apply in_map.
  - exfalso. apply Hnotin. rewrite <- Hid. now apply in_map.
Qed.

Lemma upPath_unique (allTasks : list Task.t) :
  NoDup (map Task.id allTasks) ->
  forall parentId p1, upPath allTasks parentId p1 ->
  forall p2, upPath allTasks parentId p2 -> p1 = p2.
Proof.
  intros Hnd. induction 1 as [|x t rest Hin Hid Hup IH]; intros p2 H2;
    inversion H2 as [|x' t' rest' Hin' Hid' Hup']; subst; [reflexivity|].
  assert (t' = t) as -> by (apply (unique_id_row allTasks); auto).
  f_equal. now apply IH.
Qed.

Lemma upPath_suffix (allTasks : list Task.t) (y : string) (b : list string) :
  forall a parentId, upPath allTasks parentId (a ++ y :: b) ->
                     upPath allTasks (Some y) (y :: b).
Proof.
  induction a as [|x a IH]; simpl; intros parentId H;
    inversion H as [|x' t rest Hin Hid Hup]; subst.
  - now apply upPath_step with t.
  - eapply IH. exact Hup.
Qed.

Lemma upPath_NoDup (allTasks : list Task.t) :
  NoDup (map Task.id allTasks) ->
  forall parentId path, upPath allTasks parentId path -> NoDup path.
Proof.
  intros Hnd. induction 1 as [|x t rest Hin Hid Hup IH]; constructor; [|exact IH].
  intros Hx. apply in_split in Hx. destruct Hx as [a [b ->]].
  pose proof (upPath_suffix allTasks x b a _ Hup) as Hsuf.
  assert (Hfull : upPath allTasks (Some x) (x :: a ++ x :: b))
    by now apply upPath_step with t.
  pose proof (upPath_unique allTasks Hnd _ _ Hsuf _ Hfull) as E.
  apply (f_equal (@length string)) in E. simpl in E.
  rewrite length_app in E. simpl in E. lia.
Qed.

Lemma upPath_incl (allTasks : list Task.t) :
  forall parentId path, upPath allTasks parentId path ->
                        incl path (map Task.id allTasks).
Proof.
  induction 1 as [|x t rest Hin Hid Hup IH]; intros y Hy; [contradiction|].
  destruct Hy as [<- | Hy]; [|now apply IH].
  rewrite <- Hid. now apply in_map.
Qed.

Lemma upPath_length (allTasks : list Task.t) (parentId : option string)
  (path : list string) :
  NoDup (map Task.id allTasks) -> upPath allTasks parentId path ->
  length path <= length allTasks.
Proof.
  intros Hnd Hup. rewrite <- (length_map Task.id allTasks).
  apply NoDup_incl_length.
  - now apply (upPath_NoDup allTasks Hnd parentId).
  - now apply (upPath_incl allTasks parentId).
Qed.

Lemma buildTaskTree_fuel_spec (allTasks : list Task.t) :
  NoDup (map Task.id allTasks) ->
  forall (fuel : nat) (parentId : option string) (path : list string),
    upPath allTasks parentId path ->
    length allTasks < fuel + length path ->
    exists forest,
      buildTaskTree_fuel fuel allTasks parentId = Some forest /\
      forestOf allTasks parentId forest.
Proof.
  intros Hnd. induction fuel as [|fuel IH]; intros parentId path Hup Hfuel.
  { pose proof (upPath_length allTasks parentId path Hnd Hup). lia. }
  simpl.
  destruct (mapM_spec
              (fun task =>
                 match buildTaskTree_fuel fuel allTasks (Some (Task.id task)) with
                 | Some children => Some (TaskNode task children)
                 | None => None
                 end)
              (fun task n => nodeTask n = task /\
                             forestOf allTasks (Some (Task.id task)) (nodeChildren n))
              (sortBySortOrder (filter (hasParent parentId) allTasks)))
    as [forest [Hrun HF]].
  { intros c Hc. apply sortBySortOrder_In, filter_In in Hc. destruct Hc as [Hin Hp].
    apply hasParent_eq in Hp.
    destruct (IH (Some (Task.id c)) (Task.id c :: path)) as [cs [Hcs Hwf]].
    { apply upPath_step with c; auto. now rewrite Hp. }
    { simpl. lia. }
    rewrite Hcs. exists (TaskNode c cs). auto. }
  exists forest. split; [exact Hrun|]. constructor.
  - clear Hrun. induction HF as [|c n l f [Hn _] _ IHF]; simpl; congruence.
  - clear Hrun. induction HF as [|c n l f [Hn Hwf] _ IHF]; constructor; auto.
    now rewrite Hn.
Qed.

Lemma forestOf_node (allTasks : list Task.t) (n : TaskWithChildren) :
  forall forest, inForest n forest ->
  forall parentId, forestOf allTasks parentId forest ->
    In (nodeTask n) allTasks /\
    (hasParent parentId (nodeTask n) = true \/
     exists m, inForest m forest /\ In (nodeTask m) allTasks /\
               Task.parentTaskId (nodeTask n) = Some (Task.id (nodeTask m))) /\
    forestOf allTasks (Some (Task.id (nodeTask n))) (nodeChildren n).
Proof.
  induction 1 as [forest Hin | m forest Hm Hbelow IH]; intros parentId Hwf;
    inversion Hwf as [pid f Hmap Hall]; subst.
  - assert (Ht : In (nodeTask n) (map nodeTask forest)) by now apply in_map.
    rewrite Hmap in Ht. apply sortBySortOrder_In, filter_In in Ht.
    rewrite Forall_forall in Hall. destruct Ht; auto.
  - rewrite Forall_forall in Hall.
    assert (Hmt : In (nodeTask m) allTasks).
    { assert (Ht : In (nodeTask m) (map nodeTask forest)) by now apply in_map.
      rewrite Hmap in Ht. now apply sortBySortOrder_In, filter_In in Ht. }
    destruct (IH _ (Hall m Hm)) as [Hin [Hpar Hsub]].
    split; [exact Hin|]. split; [|exact Hsub]. right.
    destruct Hpar as [Hpar | [m' [Hm' [Hin' Hp']]]].
    + exists m. split; [now apply inForest_here|]. split; [exact Hmt|].
      now apply hasParent_Some.
    + exists m'. split; [now apply inForest_below with m|]. auto.
Qed.

(** C7.  On the flat list of a project's tasks, whose ids are distinct,
    [buildTaskTree] with [parentId] null returns a forest, a function of the
    list alone: its roots are the tasks whose [parentTaskId] is null, the
    children of every node, at any depth, are the tasks whose [parentTaskId]
    is that node's id, siblings are in ascending [sortOrder] with ties in the
    order of the list, the empty list gives the empty forest, and a task
    whose [parentTaskId] is the id of no task of the list is no node of the
    forest. *)
Theorem buildTaskTree_forest (allTasks : list Task.t) :
  NoDup (map Task.id allTasks) ->
  exists forest,
    buildTaskTree allTasks None = Some forest /\
    stableSortOf (filter (hasParent None) allTasks) (map nodeTask forest) /\
    (forall t, In t (map nodeTask forest) <->
               In t allTasks /\ Task.parentTaskId t = None) /\
    (forall n, inForest n forest ->
       stableSortOf (filter (hasParent (Some (Task.id (nodeTask n)))) allTasks)
                    (map nodeTask (nodeChildren n)) /\
       forall t, In t (map nodeTask (nodeChildren n)) <->
                 In t allTasks /\ Task.parentTaskId t = Some (Task.id (nodeTask n))) /\
    (allTasks = [] -> forest = []) /\
    (forall t p, In t allTasks -> Task.parentTaskId t = Some p ->
                 (forall u, In u allTasks -> Task.id u <> p) ->
                 forall n, inForest n forest -> nodeTask n <> t).
Proof.
  intros Hnd.
  destruct (buildTaskTree_fuel_spec allTasks Hnd (S (length allTasks)) None [])
    as [forest [Hrun Hwf]]; [constructor | simpl; lia |].
  assert (Hmem : forall parentId f,
             forestOf allTasks parentId f ->
             stableSortOf (filter (hasParent parentId) allTasks) (map nodeTask f) /\
             forall t, In t (map nodeTask f) <->
                       In t allTasks /\ Task.parentTaskId t = parentId).
  { intros parentId f H. inversion H as [pid f' Hmap _]; subst. rewrite Hmap.
    split; [apply sortBySortOrder_stable|].
    intros t. rewrite sortBySortOrder_In, filter_In, hasParent_eq. tauto. }
  exists forest. split; [exact Hrun|].
  split; [apply (Hmem None forest Hwf)|]. split; [apply (Hmem None forest Hwf)|].
  split; [|split].
  - intros n Hn. apply Hmem. now apply (forestOf_node allTasks n forest Hn None).
  - intros ->. inversion Hwf as [pid f Hmap _]; subst. simpl in Hmap.
    now apply map_eq_nil in Hmap.
  - intros t p Hin Hp Horphan n Hn E.
    destruct (forestOf_node allTasks n forest Hn None Hwf) as [_ [[Hroot | Hsub] _]].
    + apply hasParent_None in Hroot. congruence.
    + destruct Hsub as [m [_ [Hm Hpm]]]. apply (Horphan (nodeTask m) Hm). congruence.
Qed.

Lemma buildTaskTree_forest_witness :
  NoDup (map Task.id sampleWithOrphan) /\
  buildTaskTree sampleWithOrphan None
  = Some [ TaskNode (sampleTask "A" None 0 "pending" 0)
             [ TaskNode (sampleTask "C" (Some "A") 50 "in-progress" 0)
                 [ TaskNode (sampleTask "D" (Some "C") 50 "blocked" 0) [] ];
               TaskNode (sampleTask "F" (Some "A") 10 "in-progress" 0) [];
               TaskNode (sampleTask "B" (Some "A") 100 "completed" 1) [] ] ] /\
  forall n forest, buildTaskTree sampleWithOrphan None = Some forest ->
                   inForest n forest ->
                   nodeTask n <> sampleTask "E" (Some "gone") 20 "in-progress" 0.
Proof.
  assert (H1 : NoDup (map Task.id sampleWithOrphan)).
  { simpl. repeat constructor; simpl; intuition discriminate. }
  split; [exact H1|]. split; [vm_compute; reflexivity|].
  intros n forest Hrun Hn.
  destruct (buildTaskTree_forest sampleWithOrphan H1) as [f [Hf [_ [_ [_ [_ Horphan]]]]]].
  assert (f = forest) as -> by congruence.
  apply (Horphan _ "gone"); auto.
  - simpl. tauto.
  - intros u Hu. simpl in Hu.
    repeat (destruct Hu as [<- | Hu]; [discriminate|]). contradiction.
Defined.

(** ** The action interpreter *)

Section InterpreterFacts.

Variable genId : nat -> string.
Variable toLowerCase : string -> string.
Variable rejects : Store -> Write -> bool.
Variable categories : list Category.t.

Local Abbreviation tryA := (tryAction genId toLowerCase rejects categories).
Local Abbreviation execA := (execAction genId toLowerCase rejects categories).
Local Abbreviation runB := (runBatch genId toLowerCase rejects categories).
Local Abbreviation failsA := (actionFails genId toLowerCase rejects categories).

(** An exception leaves the variables of the loop and the database as they
    were before the action: every branch throws at its first write. *)
Lemma tryAction_throw_unchanged (b b' : Batch) (action : Action) :
  tryA b action = Throw b' -> b' = b.
Proof.
  unfold tryAction. destruct action as [n d c | p n d q | i pc ic rb | p pc rb |].
  - destruct (rejects _ _); [congruence | discriminate].
  - destruct (resolveProjectId b p) as [pid|]; [|discriminate].
    destruct (negb (truthy pid) || (pid =? NEW_PROJECT)); [discriminate|].
    destruct (rejects _ _); [congruence|].
    destruct (recalculateAfter _ _); discriminate.
  - destruct (getTask (tasks (store b)) i) as [t|]; [|discriminate].
    destruct (rejects _ _); [congruence|]. cbv zeta.
    destruct (getTask _ i); [|discriminate].
    destruct (recalculateAfter _ _); discriminate.
  - destruct (getProject (projects (store b)) p); [|discriminate].
    destruct (rejects _ _); [congruence | discriminate].
  - discriminate.
Qed.

Lemma recalculateAfter_spec (rank : string -> nat) (s : Store) (task : Task.t) :
  ranked rank (tasks s) ->
  exists ts,
    recalculateAfter s task
    = Some (mkStore (recalculateProjectCompletion (projects s) ts (Task.projectId task))
              ts (nextId s)) /\
    forall x, (forall p, Task.parentTaskId task = Some p -> rank p < rank x) ->
              getTask ts x = getTask (tasks s) x.
Proof.
  intros Hr. unfold recalculateAfter.
  destruct (Task.parentTaskId task) as [p|]; [|exists (tasks s); auto].
  destruct (truthy p); [|exists (tasks s); auto].
  destruct (recalculate_total rank (tasks s) p Hr) as [ts [Hrun [Hstep _]]].
  rewrite Hrun. exists ts. split; [reflexivity|].
  intros x Hx. apply (cascadeStep_getTask rank p); auto.
Qed.

(** What [update_task] leaves in the row of an existing task. *)
Lemma update_task_stored (rank : string -> nat) (b : Batch) (taskId : string)
  (pc : option Z) (ic : option bool) (rb : option (option string)) (existing : Task.t) :
  ranked rank (tasks (store b)) ->
  getTask (tasks (store b)) taskId = Some existing ->
  rejects (store b) (UpdateTask taskId (taskUpdatesOf existing pc ic rb)) = false ->
  exists b',
    execA b (update_task taskId pc ic rb) = Some b' /\
    getTask (tasks (store b')) taskId
    = Some (applyTaskUpdates (taskUpdatesOf existing pc ic rb) existing).
Proof.
  intros Hr Hget Hok. unfold execAction, tryAction.
  rewrite Hget, Hok. cbv zeta. cbn [tasks projects nextId].
  set (u := taskUpdatesOf existing pc ic rb).
  rewrite (getTask_updateTask_same _ _ u _ Hget).
  destruct (recalculateAfter_spec rank
              (mkStore (projects (store b)) (updateTask (tasks (store b)) taskId u)
                 (nextId (store b)))
              (applyTaskUpdates u existing)) as [ts [Hrun Hsame]].
  { now apply ranked_updateTask. }
  rewrite Hrun. eexists. split; [reflexivity|]. cbn [store tasks].
  rewrite (Hsame taskId).
  - now apply getTask_updateTask_same.
  - intros p Hp. simpl in Hp.
    destruct (getTask_In _ _ _ Hget) as [Hin Hid]. rewrite <- Hid. now apply (Hr existing p).
Qed.

(** C3, as the code has it.  An [update_task] that supplies [isCompleted]
    on an existing task stores that value, whatever [percentComplete] would
    give.  When it is true the stored [percentComplete] is 100, also when the
    action supplies another [percentComplete]; when it is false a supplied
    non-zero [percentComplete] is stored as given, and without one the task
    keeps the [percentComplete] it had. *)
Theorem update_task_explicit_isCompleted (rank : string -> nat) (b : Batch)
  (taskId : string) (pc : option Z) (c : bool) (rb : option (option string))
  (existing : Task.t) :
  ranked rank (tasks (store b)) ->
  getTask (tasks (store b)) taskId = Some existing ->
  rejects (store b) (UpdateTask taskId (taskUpdatesOf existing pc (Some c) rb)) = false ->
  exists b' t',
    execA b (update_task taskId pc (Some c) rb) = Some b' /\
    getTask (tasks (store b')) taskId = Some t' /\
    Task.isCompleted t' = c /\
    (c = true -> Task.percentComplete t' = 100%Z) /\
    (c = false -> forall v, pc = Some v -> v <> 0%Z -> Task.percentComplete t' = v) /\
    (c = false -> pc = None ->
     Task.percentComplete t' = Task.percentComplete existing).
Proof.
  intros Hr Hget Hok.
  destruct (update_task_stored rank b taskId pc (Some c) rb existing Hr Hget Hok)
    as [b' [Hrun Hrow]].
  exists b'. eexists. split; [exact Hrun|]. split; [exact Hrow|].
  split; [|split; [|split]].
  - destruct pc, rb; reflexivity.
  - intros ->. destruct pc, rb; reflexivity.
  - intros -> v -> Hv. apply Z.eqb_neq in Hv.
    destruct rb; simpl; rewrite Hv; reflexivity.
  - intros -> ->; destruct rb; reflexivity.
Qed.

(** C4, as the code has it.  An [update_task] that supplies
    [percentComplete] 0 on an existing task stores the status "pending",
    whatever status the task had. *)
Theorem update_task_zero_percent_sets_pending (rank : string -> nat) (b : Batch)
  (taskId : string) (ic : option bool) (rb : option (option string))
  (existing : Task.t) :
  ranked rank (tasks (store b)) ->
  getTask (tasks (store b)) taskId = Some existing ->
  rejects (store b) (UpdateTask taskId (taskUpdatesOf existing (Some 0%Z) ic rb)) = false ->
  exists b' t',
    execA b (update_task taskId (Some 0%Z) ic rb) = Some b' /\
    getTask (tasks (store b')) taskId = Some t' /\
    Task.status t' = "pending".
Proof.
  intros Hr Hget Hok.
  destruct (update_task_stored rank b taskId (Some 0%Z) ic rb existing Hr Hget Hok)
    as [b' [Hrun Hrow]].
  exists b'. eexists. split; [exact Hrun|]. split; [exact Hrow|].
  destruct ic, rb; reflexivity.
Qed.

(** C10.  An [update_task] that supplies [isCompleted] false together with
    [percentComplete] 0 leaves the task's [percentComplete] as it was: in
    [updates.percentComplete || existingTask.percentComplete] the 0 counts
    as absent. *)
Theorem update_task_false_zero_keeps_percent (rank : string -> nat) (b : Batch)
  (taskId : string) (rb : option (option string)) (existing : Task.t) :
  ranked rank (tasks (store b)) ->
  getTask (tasks (store b)) taskId = Some existing ->
  rejects (store b)
    (UpdateTask taskId (taskUpdatesOf existing (Some 0%Z) (Some false) rb)) = false ->
  exists b' t',
    execA b (update_task taskId (Some 0%Z) (Some false) rb) = Some b' /\
    getTask (tasks (store b')) taskId = Some t' /\
    Task.percentComplete t' = Task.percentComplete existing /\
    Task.isCompleted t' = false.
Proof.
  intros Hr Hget Hok.
  destruct (update_task_stored rank b taskId (Some 0%Z) (Some false) rb existing
              Hr Hget Hok) as [b' [Hrun Hrow]].
  exists b'. eexists. split; [exact Hrun|]. split; [exact Hrow|].
  destruct rb; split; reflexivity.
Qed.

End InterpreterFacts.

Lemma sampleTasks_ranked : ranked sampleRank (tasks (store sampleBatch)).
Proof. apply rankedb_ranked. reflexivity. Qed.

Lemma update_task_explicit_isCompleted_witness :
  ranked sampleRank (tasks (store sampleBatch)) /\
  getTask (tasks (store sampleBatch)) "D" = Some (sampleTask "D" (Some "C") 50 "blocked" 0) /\
  exists b' t',
    execAction sampleGenId sampleLower acceptAll sampleCategories sampleBatch
      (update_task "D" (Some 40%Z) (Some true) None) = Some b' /\
    getTask (tasks (store b')) "D" = Some t' /\
    Task.isCompleted t' = true /\ Task.percentComplete t' = 100%Z.
Proof.
  split; [exact sampleTasks_ranked|]. split; [reflexivity|].
  destruct (update_task_explicit_isCompleted sampleGenId sampleLower acceptAll
              sampleCategories sampleRank sampleBatch "D" (Some 40%Z) true None
              (sampleTask "D" (Some "C") 50 "blocked" 0)
              sampleTasks_ranked eq_refl eq_refl)
    as [b' [t' [Hrun [Hrow [Hc [H100 _]]]]]].
  exists b', t'. auto.
Defined.

(** C3 does not hold as the specification states it: a supplied
    [percentComplete] of 40 next to [isCompleted] true is stored as 100, not
    as given. *)
Lemma update_task_supplied_percent_not_kept :
  exists b' t',
    execAction sampleGenId sampleLower acceptAll sampleCategories sampleBatch
      (update_task "D" (Some 40%Z) (Some true) None) = Some b' /\
    getTask (tasks (store b')) "D" = Some t' /\
    Task.percentComplete t' = 100%Z /\
    Task.percentComplete t' <> 40%Z.
Proof.
  eexists. eexists. split; [vm_compute; reflexivity|].
  split; [vm_compute; reflexivity|]. split; [reflexivity | discriminate].
Qed.

Lemma update_task_zero_percent_sets_pending_witness :
  ranked sampleRank (tasks (store sampleBatch)) /\
  getTask (tasks (store sampleBatch)) "D" = Some (sampleTask "D" (Some "C") 50 "blocked" 0) /\
  exists b' t',
    execAction sampleGenId sampleLower acceptAll sampleCategories sampleBatch
      (update_task "D" (Some 0%Z) None None) = Some b' /\
    getTask (tasks (store b')) "D" = Some t' /\
    Task.status t' = "pending".
Proof.
  split; [exact sampleTasks_ranked|]. split; [reflexivity|].
  exact (update_task_zero_percent_sets_pending sampleGenId sampleLower acceptAll
           sampleCategories sampleRank sampleBatch "D" None None
           (sampleTask "D" (Some "C") 50 "blocked" 0)
           sampleTasks_ranked eq_refl eq_refl).
Defined.

(** C4 does not hold as the specification states it: the status "blocked"
    of a task is replaced by "pending" when the action supplies
    [percentComplete] 0. *)
Lemma update_task_zero_percent_drops_status :
  Task.status (sampleTask "D" (Some "C") 50 "blocked" 0) = "blocked" /\
  exists b' t',
    execAction sampleGenId sampleLower acceptAll sampleCategories sampleBatch
      (update_task "D" (Some 0%Z) None None) = Some b' /\
    getTask (tasks (store b')) "D" = Some t' /\
    Task.status t' = "pending" /\
    Task.status t' <> "blocked".
Proof.
  split; [reflexivity|].
  eexists. eexists. split; [vm_compute; reflexivity|].
  split; [vm_compute; reflexivity|]. split; [reflexivity | discriminate].
Qed.

Lemma update_task_false_zero_keeps_percent_witness :
  ranked sampleRank (tasks (store sampleBatch)) /\
  getTask (tasks (store sampleBatch)) "D" = Some (sampleTask "D" (Some "C") 50 "blocked" 0) /\
  exists b' t',
    execAction sampleGenId sampleLower acceptAll sampleCategories sampleBatch
      (update_task "D" (Some 0%Z) (Some false) None) = Some b' /\
    getTask (tasks (store b')) "D" = Some t' /\
    Task.percentComplete t' = 50%Z /\
    Task.isCompleted t' = false.
Proof.
  split; [exact sampleTasks_ranked|]. split; [reflexivity|].
  exact (update_task_false_zero_keeps_percent sampleGenId sampleLower acceptAll
           sampleCategories sampleRank sampleBatch "D" None
           (sampleTask "D" (Some "C") 50 "blocked" 0)
           sampleTasks_ranked eq_refl eq_refl).
Defined.

(** ** The batch *)

Lemma forEach_app {A S : Type} (f : A -> S -> option S) (l1 l2 : list A) (s : S) :
  forEach f (l1 ++ l2) s
  = match forEach f l1 s with
    | Some s' => forEach f l2 s'
    | None => None
    end.
Proof.
  revert s. induction l1 as [|a l1 IH]; intros s; simpl; [reflexivity|].
  destruct (f a s); [apply IH | reflexivity].
Qed.

Lemma setProjectPercent_ids (ps : ProjectTable) (x : string) (v : Z) :
  map Project.id (setProjectPercent ps x v) = map Project.id ps.
Proof.
  unfold setProjectPercent. rewrite map_map. apply map_ext.
  intros p. destruct (Project.id p =? x); reflexivity.
Qed.

Lemma recalculateProjectCompletion_ids (ps : ProjectTable) (db : TaskTable) (x : string) :
  map Project.id (recalculateProjectCompletion ps db x) = map Project.id ps.
Proof.
  unfold recalculateProjectCompletion.
  destruct (rootTasksOf db x); apply setProjectPercent_ids.
Qed.

Lemma updateProject_ids (ps : ProjectTable) (x : string) (u : ProjectUpdates) :
  map Project.id (updateProject ps x u) = map Project.id ps.
Proof.
  unfold updateProject. rewrite map_map. apply map_ext.
  intros p. destruct (Project.id p =? x); reflexivity.
Qed.

Lemma recalculateAfter_ids (s s' : Store) (task : Task.t) :
  recalculateAfter s task = Some s' ->
  map Project.id (projects s') = map Project.id (projects s).
Proof.
  unfold recalculateAfter.
  destruct (match Task.parentTaskId task with
            | Some p => if truthy p then recalculateParentTaskCompletion (tasks s) p
                        else Some (tasks s)
            | None => Some (tasks s)
            end) as [ts|]; [|discriminate].
  intros H. inversion H; subst. simpl. apply recalculateProjectCompletion_ids.
Qed.

Lemma recalculateAfter_rows (rank : string -> nat) (s : Store) (task : Task.t) :
  ranked rank (tasks s) ->
  exists s',
    recalculateAfter s task = Some s' /\
    Forall2 sameButProgress (tasks s) (tasks s').
Proof.
  intros Hr. unfold recalculateAfter.
  assert (Hsame : Forall2 sameButProgress (tasks s) (tasks s))
    by (apply Forall2_same, sameButProgress_refl).
  destruct (Task.parentTaskId task) as [p|]; [|eexists; split; [reflexivity | exact Hsame]].
  destruct (truthy p); [|eexists; split; [reflexivity | exact Hsame]].
  destruct (recalculate_total rank (tasks s) p Hr) as [ts [Hrun [Hstep _]]].
  rewrite Hrun. eexists. split; [reflexivity|]. simpl.
  eapply Forall2_impl; [|exact Hstep]. intros a c [H _]. exact H.
Qed.

Lemma lastId_snoc (ids : list string) (i : string) : lastId (ids ++ [i]) = Some i.
Proof. unfold lastId. now rewrite rev_unit. Qed.

Lemma lastId_In (ids : list string) (i : string) : lastId ids = Some i -> In i ids.
Proof.
  unfold lastId. intros H. apply in_rev.
  destruct (rev ids) as [|j l]; [discriminate|]. inversion H; subst. now left.
Qed.

Section BatchFacts.

Variable genId : nat -> string.
Variable toLowerCase : string -> string.
Variable rejects : Store -> Write -> bool.
Variable categories : list Category.t.

Local Abbreviation tryB := (tryAction genId toLowerCase rejects categories).
Local Abbreviation execB := (execAction genId toLowerCase rejects categories).
Local Abbreviation runAll := (runBatch genId toLowerCase rejects categories).
Local Abbreviation failsB := (actionFails genId toLowerCase rejects categories).

Lemma runBatch_app (l1 l2 : list Action) (b : Batch) :
  runAll (l1 ++ l2) b
  = match runAll l1 b with
    | Some b' => runAll l2 b'
    | None => None
    end.
Proof. unfold runBatch. apply forEach_app. Qed.

Lemma failed_action_unchanged (b : Batch) (action : Action) :
  failsB b action -> execB b action = Some b.
Proof.
  unfold execAction. intros [[b' Hthrow] | [i [pc [ic [rb [-> Hnone]]]]]].
  - rewrite Hthrow. f_equal. eapply tryAction_throw_unchanged. exact Hthrow.
  - unfold tryAction. rewrite Hnone. reflexivity.
Qed.

(** One action either keeps the ids of the projects table and the slot, or
    appends a generated id and leaves it in the slot. *)
Lemma execAction_slot (b b' : Batch) (action : Action) :
  execB b action = Some b' ->
  (map Project.id (projects (store b')) = map Project.id (projects (store b)) /\
   newlyCreatedProjectId b' = newlyCreatedProjectId b) \/
  (exists n,
      map Project.id (projects (store b')) = map Project.id (projects (store b)) ++ [genId n] /\
      newlyCreatedProjectId b' = Some (genId n)).
Proof.
  unfold execAction, tryAction.
  destruct action as [n d c | p n d q | i pc ic rb | p pc rb |].
  - destruct (rejects _ _); intros H; inversion H; subst; [now left|].
    right. exists (nextId (store b)). simpl. rewrite map_app. auto.
  - destruct (resolveProjectId b p) as [pid|]; [|intros H; inversion H; now left].
    destruct (negb (truthy pid) || (pid =? NEW_PROJECT)); [intros H; inversion H; now left|].
    destruct (rejects _ _); [intros H; inversion H; now left|].
    destruct (recalculateAfter _ _) as [s'|] eqn:E; [|discriminate].
    intros H; inversion H; subst. left. simpl.
    split; [|reflexivity]. now rewrite (recalculateAfter_ids _ _ _ E).
  - destruct (getTask (tasks (store b)) i) as [t|]; [|intros H; inversion H; now left].
    destruct (rejects _ _); [intros H; inversion H; now left|]. cbv zeta.
    destruct (getTask _ i) as [task|]; [|intros H; inversion H; now left].
    destruct (recalculateAfter _ _) as [s'|] eqn:E; [|discriminate].
    intros H; inversion H; subst. left. simpl.
    split; [|reflexivity]. now rewrite (recalculateAfter_ids _ _ _ E).
  - destruct (getProject (projects (store b)) p); [|intros H; inversion H; now left].
    destruct (rejects _ _); intros H; inversion H; subst; [now left|].
    left. simpl. split; [apply updateProject_ids | reflexivity].
  - intros H; inversion H. now left.
Qed.

(** The slot holds the id of the project created last since the start of
    the batch, and nothing when none has been created. *)
Lemma runBatch_slot (base : list string) (actions : list Action) :
  forall (b b1 : Batch) (created : list string),
    runAll actions b = Some b1 ->
    map Project.id (projects (store b)) = base ++ created ->
    newlyCreatedProjectId b = lastId created ->
    Forall (generatedBy genId) created ->
    exists created1,
      map Project.id (projects (store b1)) = base ++ created1 /\
      newlyCreatedProjectId b1 = lastId created1 /\
      Forall (generatedBy genId) created1.
Proof.
  unfold runBatch. induction actions as [|a actions IH]; intros b b1 created Hrun Hids Hslot Hgen.
  - simpl in Hrun. inversion Hrun; subst. exists created. auto.
  - simpl in Hrun. destruct (execB b a) as [b'|] eqn:E; [|discriminate].
    destruct (execAction_slot b b' a E) as [[Hi Hs] | [n [Hi Hs]]].
    + apply (IH b' b1 created); auto; congruence.
    + apply (IH b' b1 (created ++ [genId n])); auto.
      * rewrite Hi, Hids. now rewrite app_assoc.
      * now rewrite lastId_snoc.
      * apply Forall_app. split; [exact Hgen|]. constructor; [now exists n | constructor].
Qed.

(** C5.  When the ids the database generates are neither empty nor the
    placeholder, then after any part of a batch has run, the placeholder
    stands for the id of the project the batch created last: a
    [create_task] for "NEW_PROJECT" runs exactly as the same action with
    that id, and inserts one task row for that project; when the batch has
    created no project yet the action is skipped, and nothing changes. *)
Theorem create_task_placeholder (s0 : Store) (pre : list Action) (b1 : Batch)
  (name : string) (description parentTaskId : option string) :
  (forall n, genId n <> EmptyString /\ genId n <> NEW_PROJECT) ->
  runAll pre (initialBatch s0) = Some b1 ->
  exists created,
    map Project.id (projects (store b1)) = map Project.id (projects s0) ++ created /\
    newlyCreatedProjectId b1 = lastId created /\
    match lastId created with
    | None =>
      execB b1 (create_task (Some NEW_PROJECT) name description parentTaskId) = Some b1
    | Some pid =>
      let row := newTaskRow genId (store b1) pid name description parentTaskId in
      execB b1 (create_task (Some NEW_PROJECT) name description parentTaskId)
      = execB b1 (create_task (Some pid) name description parentTaskId) /\
      (forall rank,
          rejects (store b1) (InsertTask row) = false ->
          ranked rank (tasks (store b1) ++ [row]) ->
          exists b2 old new,
            execB b1 (create_task (Some NEW_PROJECT) name description parentTaskId)
            = Some b2 /\
            tasks (store b2) = old ++ [new] /\
            length old = length (tasks (store b1)) /\
            Task.projectId new = pid /\ Task.name new = name /\
            newlyCreatedProjectId b2 = Some pid)
    end.
Proof.
  intros Hgen Hrun.
  destruct (runBatch_slot (map Project.id (projects s0)) pre (initialBatch s0) b1 [] Hrun)
    as [created [Hids [Hslot Hall]]]; auto.
  { simpl. now rewrite app_nil_r. }
  exists created. split; [exact Hids|]. split; [exact Hslot|].
  destruct (lastId created) as [pid|] eqn:El.
  - assert (Hpid : truthy pid = true /\ (pid =? NEW_PROJECT) = false).
    { apply lastId_In in El. rewrite Forall_forall in Hall.
      destruct (Hall pid El) as [n ->]. destruct (Hgen n) as [H1 H2].
      unfold truthy. split; [apply negb_true_iff|]; now apply String.eqb_neq. }
    destruct Hpid as [Htruthy Hneq].
    assert (Hnew : resolveProjectId b1 (Some NEW_PROJECT) = Some pid).
    { unfold resolveProjectId. rewrite Hslot, String.eqb_refl. simpl. now rewrite Htruthy. }
    assert (Hown : resolveProjectId b1 (Some pid) = Some pid).
    { unfold resolveProjectId. now rewrite Hneq. }
    assert (Hsame : execB b1 (create_task (Some NEW_PROJECT) name description parentTaskId)
                    = execB b1 (create_task (Some pid) name description parentTaskId)).
    { unfold execAction, tryAction. now rewrite Hnew, Hown. }
    split; [exact Hsame|].
    intros rank Hok Hr. rewrite Hsame.
    unfold execAction, tryAction. rewrite Hown, Htruthy, Hneq. simpl. rewrite Hok.
    destruct (recalculateAfter_rows rank
                (mkStore (projects (store b1))
                   (tasks (store b1)
                    ++ [newTaskRow genId (store b1) pid name description parentTaskId])
                   (S (nextId (store b1))))
                (newTaskRow genId (store b1) pid name description parentTaskId) Hr)
      as [s' [Hafter Hrows]].
    rewrite Hafter. simpl in Hrows.
    apply Forall2_app_inv_l in Hrows. destruct Hrows as [old [new' [Hold [Hlast Hs']]]].
    inversion Hlast as [|r new l l' Hrn Hnil]; subst. inversion Hnil; subst.
    exists (mkBatch s' (newlyCreatedProjectId b1)
              (executedActions b1
               ++ [String.append "Created task "
                     (quoted (Task.name (newTaskRow genId (store b1) pid name description
                                           parentTaskId)))])), old, new.
    split; [reflexivity|]. split; [exact Hs'|].
    split; [symmetry; eapply Forall2_length; exact Hold|].
    destruct Hrn as [_ [Hp [_ [Hn _]]]]. simpl. auto.
  - unfold execAction, tryAction, resolveProjectId.
    rewrite Hslot, String.eqb_refl. simpl. rewrite ?orb_true_r. reflexivity.
Qed.

(** C6.  The actions run one after the other in the order of the array, and
    an action that fails, by an exception or because the task it names does
    not exist, changes nothing: the actions after it run as if it were not
    in the batch, from the database the actions before it have left. *)
Theorem failed_action_is_skipped (pre post : list Action) (b0 b1 : Batch)
  (action : Action) :
  runAll pre b0 = Some b1 ->
  failsB b1 action ->
  (forall l1 l2 b,
      runAll (l1 ++ l2) b
      = match runAll l1 b with
        | Some b' => runAll l2 b'
        | None => None
        end) /\
  (forall a rest b,
      runAll (a :: rest) b
      = match execB b a with
        | Some b' => runAll rest b'
        | None => None
        end) /\
  execB b1 action = Some b1 /\
  runAll (pre ++ action :: post) b0 = runAll post b1 /\
  runAll (pre ++ action :: post) b0 = runAll (pre ++ post) b0.
Proof.
  intros Hpre Hfail.
  pose proof (failed_action_unchanged b1 action Hfail) as Hskip.
  split; [exact runBatch_app|]. split; [reflexivity|]. split; [exact Hskip|].
  assert (E : runAll (pre ++ action :: post) b0 = runAll post b1).
  { rewrite runBatch_app, Hpre. unfold runBatch. simpl. fold execB.
    now rewrite Hskip. }
  split; [exact E|]. rewrite E, runBatch_app, Hpre. reflexivity.
Qed.

End BatchFacts.

Lemma sampleGenId_ok (n : nat) :
  sampleGenId n <> EmptyString /\ sampleGenId n <> NEW_PROJECT.
Proof. split; unfold sampleGenId, NEW_PROJECT; simpl; discriminate. Qed.

Lemma q2Batch_reached :
  runBatch sampleGenId sampleLower acceptAll sampleCategories
    [ create_project "Q2" None None ] emptyBatch = Some q2Batch.
Proof. vm_compute. reflexivity. Qed.

Lemma create_task_placeholder_witness :
  (forall n, sampleGenId n <> EmptyString /\ sampleGenId n <> NEW_PROJECT) /\
  runBatch sampleGenId sampleLower acceptAll sampleCategories
    [ create_project "Q2" None None ] emptyBatch = Some q2Batch /\
  newlyCreatedProjectId q2Batch = Some "id-" /\
  (exists b2 new,
      execAction sampleGenId sampleLower acceptAll sampleCategories q2Batch
        (create_task (Some NEW_PROJECT) "Kickoff" None None) = Some b2 /\
      tasks (store b2) = [new] /\
      Task.projectId new = "id-" /\ Task.name new = "Kickoff") /\
  execAction sampleGenId sampleLower acceptAll sampleCategories emptyBatch
    (create_task (Some NEW_PROJECT) "Kickoff" None None) = Some emptyBatch.
Proof.
  split; [exact sampleGenId_ok|]. split; [exact q2Batch_reached|].
  split; [reflexivity|]. split.
  - destruct (create_task_placeholder sampleGenId sampleLower acceptAll sampleCategories
                (mkStore [] [] 0) [ create_project "Q2" None None ] q2Batch
                "Kickoff" None None sampleGenId_ok q2Batch_reached)
      as [created [Hids [Hslot Hcase]]].
    simpl in Hids. subst created. simpl in Hcase. destruct Hcase as [_ Hins].
    destruct (Hins (fun _ => 0) eq_refl) as [b2 [old [new [Hrun [Hrows [Hlen [Hp [Hn _]]]]]]]].
    { apply rankedb_ranked. reflexivity. }
    exists b2, new. split; [exact Hrun|].
    destruct old; [|discriminate]. auto.
  - destruct (create_task_placeholder sampleGenId sampleLower acceptAll sampleCategories
                (mkStore [] [] 0) [] emptyBatch
                "Kickoff" None None sampleGenId_ok eq_refl)
      as [created [Hids [Hslot Hcase]]].
    simpl in Hids. subst created. exact Hcase.
Defined.

Lemma failed_action_is_skipped_witness :
  runBatch sampleGenId sampleLower acceptAll sampleCategories
    [ create_project "Q2" None None ] emptyBatch = Some q2Batch /\
  actionFails sampleGenId sampleLower acceptAll sampleCategories q2Batch
    (update_task "nope" (Some 50%Z) None None) /\
  runBatch sampleGenId sampleLower acceptAll sampleCategories sampleActions emptyBatch
  = runBatch sampleGenId sampleLower acceptAll sampleCategories
      [ create_task (Some NEW_PROJECT) "Kickoff" None None ] q2Batch /\
  exists b2 p t,
    runBatch sampleGenId sampleLower acceptAll sampleCategories sampleActions emptyBatch
    = Some b2 /\
    projects (store b2) = [p] /\ tasks (store b2) = [t] /\
    Project.name p = "Q2" /\ Project.percentComplete p = 0%Z /\
    Task.name t = "Kickoff" /\ Task.projectId t = Project.id p /\
    length (executedActions b2) = 2.
Proof.
  assert (Hfail : actionFails sampleGenId sampleLower acceptAll sampleCategories q2Batch
                    (update_task "nope" (Some 50%Z) None None)).
  { right. exists "nope", (Some 50%Z), None, None. split; reflexivity. }
  destruct (failed_action_is_skipped sampleGenId sampleLower acceptAll sampleCategories
              [ create_project "Q2" None None ]
              [ create_task (Some NEW_PROJECT) "Kickoff" None None ]
              emptyBatch q2Batch (update_task "nope" (Some 50%Z) None None)
              q2Batch_reached Hfail) as [_ [_ [_ [Hrest _]]]].
  split; [exact q2Batch_reached|]. split; [exact Hfail|]. split; [exact Hrest|].
  change (runBatch sampleGenId sampleLower acceptAll sampleCategories
            ([ create_project "Q2" None None ]
             ++ update_task "nope" (Some 50%Z) None None
                :: [ create_task (Some NEW_PROJECT) "Kickoff" None None ]) emptyBatch)
    with (runBatch sampleGenId sampleLower acceptAll sampleCategories sampleActions emptyBatch)
    in Hrest.
  rewrite Hrest. eexists. eexists. eexists.
  split; [vm_compute; reflexivity|]. repeat split.
Defined.

(** A database that refuses an empty update makes the branch throw; the
    loop catches it and goes on with the same database. *)
Example rejected_update_is_caught :
  tryAction sampleGenId sampleLower rejectEmptyUpdate sampleCategories sampleBatch
    (update_task "D" None None None) = Throw sampleBatch /\
  runBatch sampleGenId sampleLower rejectEmptyUpdate sampleCategories
    [ update_task "D" None None None; update_task "D" (Some 100%Z) None None ] sampleBatch
  = execAction sampleGenId sampleLower rejectEmptyUpdate sampleCategories sampleBatch
      (update_task "D" (Some 100%Z) None None).
Proof. split; vm_compute; reflexivity. Qed.

(** ** Further properties of the aggregation *)

Lemma updateTask_shape (db : TaskTable) (x : string) (t0 : Task.t) (avg : Z) :
  Forall2 sameButProgress db (updateTask db x (aggregateUpdates t0 avg)).
Proof.
  unfold updateTask. induction db as [|a db IH]; simpl; constructor; auto.
  destruct (Task.id a =? x); [apply sameButProgress_aggregate | apply sameButProgress_refl].
Qed.

Lemma recalculate_fuel_shape (fuel : nat) :
  forall (x : string) (db db' : TaskTable),
    recalculateParentTaskCompletion_fuel fuel x db = Some db' ->
    Forall2 sameButProgress db db'.
Proof.
  induction fuel as [|fuel IH]; intros x db db' H; [discriminate|].
  simpl in H. destruct (getTask db x) as [t|].
  2:{ inversion H; subst. apply Forall2_same, sameButProgress_refl. }
  destruct (childrenOf db x) as [|c cs] eqn:Hch.
  { inversion H; subst. apply Forall2_same, sameButProgress_refl. }
  rewrite <- Hch in H.
  assert (Hstop : Some (updateTask db x (aggregateUpdates t (avgPercentOf (childrenOf db x))))
                  = Some db' -> Forall2 sameButProgress db db').
  { intros E. inversion E; subst. apply updateTask_shape. }
  destruct (Task.parentTaskId t) as [p|]; [|auto].
  destruct (truthy p); [|auto].
  apply (Forall2_compose sameButProgress sameButProgress sameButProgress db
           (updateTask db x (aggregateUpdates t (avgPercentOf (childrenOf db x)))) db').
  - intros a1 a2 a3. apply sameButProgress_trans.
  - apply updateTask_shape.
  - eapply IH. exact H.
Qed.

Lemma recalculate_fuel_step (rank : string -> nat) (fuel : nat) :
  forall (x : string) (db db' : TaskTable),
    ranked rank db ->
    recalculateParentTaskCompletion_fuel fuel x db = Some db' ->
    Forall2 (cascadeStep rank x) db db'.
Proof.
  induction fuel as [|fuel IH]; intros x db db' Hr H; [discriminate|].
  assert (Hsame : Forall2 (cascadeStep rank x) db db)
    by (apply Forall2_same; intros a; split; [apply sameButProgress_refl | reflexivity]).
  simpl in H. destruct (getTask db x) as [t|] eqn:Hget; [|inversion H; subst; exact Hsame].
  destruct (childrenOf db x) as [|c cs] eqn:Hch; [inversion H; subst; exact Hsame|].
  rewrite <- Hch in H.
  assert (Hstop : Some (updateTask db x (aggregateUpdates t (avgPercentOf (childrenOf db x))))
                  = Some db' -> Forall2 (cascadeStep rank x) db db').
  { intros E. inversion E; subst. apply cascadeStep_updateTask. }
  destruct (Task.parentTaskId t) as [p|] eqn:Hp; [|auto].
  destruct (truthy p); [|auto].
  destruct (getTask_In _ _ _ Hget) as [Hin Hid].
  assert (Hlt : rank p < rank x) by (rewrite <- Hid; now apply (Hr t p)).
  apply (Forall2_compose (cascadeStep rank x) (cascadeStep rank p) _ db
           (updateTask db x (aggregateUpdates t (avgPercentOf (childrenOf db x)))) db').
  - intros a b d [Hs1 Hk1] [Hs2 Hk2]. split.
    + eapply sameButProgress_trans; eauto.
    + intros Hgt. destruct Hs1 as [Hid1 _]. rewrite Hk2 by (rewrite Hid1; lia). auto.
  - apply cascadeStep_updateTask.
  - apply IH; [now apply ranked_updateTask | exact H].
Qed.

Lemma aggregateUpdates_again (t : Task.t) (avg : Z) :
  aggregateUpdates (applyTaskUpdates (aggregateUpdates t avg) t) avg
  = aggregateUpdates t avg.
Proof.
  unfold aggregateUpdates. simpl.
  destruct (avg =? 100)%Z; [reflexivity|]. destruct (avg >? 0)%Z; reflexivity.
Qed.

Lemma updateTask_aggregate_twice (db : TaskTable) (x : string) (t : Task.t) (avg : Z) :
  updateTask (updateTask db x (aggregateUpdates t avg)) x (aggregateUpdates t avg)
  = updateTask db x (aggregateUpdates t avg).
Proof.
  unfold updateTask. rewrite map_map. apply map_ext. intros a.
  destruct (Task.id a =? x) eqn:E; simpl; rewrite E; reflexivity.
Qed.

Lemma updateTask_fixed_above (rank : string -> nat) (p x : string) (u : TaskUpdates)
  (db db' : TaskTable) :
  Forall2 (cascadeStep rank p) db db' -> rank p < rank x ->
  updateTask db x u = db -> updateTask db' x u = db'.
Proof.
  intros H Hlt. unfold updateTask.
  induction H as [|a b l l' [[Hid _] Hk] _ IH]; simpl; intros E; [reflexivity|].
  injection E as Ea El. f_equal; [|now apply IH].
  rewrite Hid. destruct (Task.id a =? x) eqn:Ex; [|reflexivity].
  apply String.eqb_eq in Ex.
  assert (b = a) as -> by (apply Hk; rewrite Ex; exact Hlt). exact Ea.
Qed.

Lemma recalculate_fuel_idem (rank : string -> nat) (fuel : nat) :
  forall (x : string) (db db' : TaskTable),
    ranked rank db ->
    recalculateParentTaskCompletion_fuel fuel x db = Some db' ->
    recalculateParentTaskCompletion_fuel fuel x db' = Some db'.
Proof.
  induction fuel as [|fuel IH]; intros x db db' Hr H; [discriminate|].
  destruct (getTask db x) as [t|] eqn:Hget.
  2:{ simpl in H. rewrite Hget in H. inversion H; subst. simpl. now rewrite Hget. }
  destruct (childrenOf db x) as [|c cs] eqn:Hch.
  { simpl in H. rewrite Hget, Hch in H. inversion H; subst. simpl. now rewrite Hget, Hch. }
  assert (Hne : childrenOf db x <> []) by (rewrite Hch; discriminate).
  rewrite (recalculate_fuel_node fuel db x t Hget Hne) in H. cbv zeta in H.
  set (avg := avgPercentOf (childrenOf db x)) in *.
  set (u := aggregateUpdates t avg) in *.
  set (db1 := updateTask db x u) in *.
  assert (Hget1 : getTask db1 x = Some (applyTaskUpdates u t))
    by now apply getTask_updateTask_same.
  assert (Hch1 : childrenOf db1 x = childrenOf db x)
    by now apply (childrenOf_updateTask_self rank).
  assert (Hfix1 : updateTask db1 x u = db1) by apply updateTask_aggregate_twice.
  assert (Hr1 : ranked rank db1) by now apply ranked_updateTask.
  assert (Hstop : Some db1 = Some db' ->
                  recalculateParentTaskCompletion_fuel (S fuel) x db' = Some db' ->
                  recalculateParentTaskCompletion_fuel (S fuel) x db' = Some db') by auto.
  assert (Hagain : forall d, getTask d x = Some (applyTaskUpdates u t) ->
                             childrenOf d x = childrenOf db x ->
                             updateTask d x u = d ->
                             recalculateParentTaskCompletion_fuel (S fuel) x d
                             = match Task.parentTaskId t with
                               | Some p =>
                                 if truthy p
                                 then recalculateParentTaskCompletion_fuel fuel p d
                                 else Some d
                               | None => Some d
                               end).
  { intros d Hd Hcd Hfd.
    rewrite (recalculate_fuel_node fuel d x _ Hd) by (rewrite Hcd; exact Hne).
    cbv zeta. rewrite Hcd. fold avg. unfold u. rewrite aggregateUpdates_again.
    fold u. rewrite Hfd. reflexivity. }
  destruct (Task.parentTaskId t) as [p|] eqn:Hp.
  2:{ inversion H; subst db'. now rewrite (Hagain db1). }
  destruct (truthy p) eqn:Htp.
  2:{ inversion H; subst db'. now rewrite (Hagain db1). }
  destruct (getTask_In _ _ _ Hget) as [Hin Hid].
  assert (Hlt : rank p < rank x) by (rewrite <- Hid; now apply (Hr t p)).
  pose proof (recalculate_fuel_step rank fuel p db1 db' Hr1 H) as Hstep.
  rewrite (Hagain db').
  - now apply (IH p db1).
  - now rewrite (cascadeStep_getTask rank p x db1 db' Hstep Hlt).
  - rewrite (cascadeStep_childrenOf rank p x db1 db' Hstep Hr1) by lia. exact Hch1.
  - now apply (updateTask_fixed_above rank p x u db1 db').
Qed.

(** X1.  The upward cascade is idempotent: on a table without parent cycles
    a second call of [recalculateParentTaskCompletion] on the same id, right
    after the first, returns the table the first one returned. *)
Theorem recalculateParentTaskCompletion_idempotent (rank : string -> nat)
  (db : TaskTable) (x : string) :
  ranked rank db ->
  exists db',
    recalculateParentTaskCompletion db x = Some db' /\
    recalculateParentTaskCompletion db' x = Some db'.
Proof.
  intros Hr. destruct (recalculate_total rank db x Hr) as [db' [Hrun [Hstep _]]].
  exists db'. split; [exact Hrun|].
  unfold recalculateParentTaskCompletion in *.
  rewrite <- (Forall2_length Hstep).
  exact (recalculate_fuel_idem rank _ x db db' Hr Hrun).
Qed.

Lemma recalculateParentTaskCompletion_idempotent_witness :
  ranked sampleRank sampleTasks /\
  exists db',
    recalculateParentTaskCompletion sampleTasks "C" = Some db' /\
    recalculateParentTaskCompletion db' "C" = Some db' /\
    db' <> sampleTasks.
Proof.
  assert (H1 : ranked sampleRank sampleTasks) by (apply rankedb_ranked; reflexivity).
  split; [exact H1|].
  destruct (recalculateParentTaskCompletion_idempotent sampleRank sampleTasks "C" H1)
    as [db' [Hrun Hagain]].
  exists db'. split; [exact Hrun|]. split; [exact Hagain|].
  intros E. rewrite E in Hrun. vm_compute in Hrun. discriminate.
Defined.

Lemma progressOkb_ok (t : Task.t) : progressOkb t = true -> progressOk t.
Proof.
  unfold progressOkb, progressOk. rewrite !andb_true_iff, !Z.leb_le.
  intros [[H1 H2] H3]. apply Bool.eqb_prop in H3. auto.
Qed.

Lemma progressOk_updateTask (db : TaskTable) (x : string) (t : Task.t)
  (rows : TaskTable) :
  rows <> [] -> incl rows db -> Forall progressOk db ->
  Forall progressOk (updateTask db x (aggregateUpdates t (avgPercentOf rows))).
Proof.
  intros Hne Hincl Hall.
  assert (Hrange : (0 <= avgPercentOf rows <= 100)%Z).
  { apply avgPercentOf_range; [exact Hne|]. rewrite Forall_forall in *.
    intros r Hr. now apply Hall, Hincl. }
  unfold updateTask. rewrite Forall_map. rewrite Forall_forall in *.
  intros a Ha. destruct (Task.id a =? x); [|auto].
  split; [exact Hrange | reflexivity].
Qed.

Lemma recalculate_fuel_progressOk (fuel : nat) :
  forall (x : string) (db db' : TaskTable),
    Forall progressOk db ->
    recalculateParentTaskCompletion_fuel fuel x db = Some db' ->
    Forall progressOk db'.
Proof.
  induction fuel as [|fuel IH]; intros x db db' Hall H; [discriminate|].
  simpl in H. destruct (getTask db x) as [t|]; [|inversion H; subst; exact Hall].
  destruct (childrenOf db x) as [|c cs] eqn:Hch; [inversion H; subst; exact Hall|].
  rewrite <- Hch in H.
  assert (Hup : Forall progressOk
                  (updateTask db x (aggregateUpdates t (avgPercentOf (childrenOf db x))))).
  { apply progressOk_updateTask; auto.
    - rewrite Hch. discriminate.
    - intros r Hr. now apply childrenOf_In in Hr. }
  destruct (Task.parentTaskId t) as [p|]; [|inversion H; subst; exact Hup].
  destruct (truthy p); [|inversion H; subst; exact Hup].
  eapply IH; [exact Hup | exact H].
Qed.

(** X2.  The cascade keeps the progress columns sound: when every row holds
    a percentage between 0 and 100 and [isCompleted] exactly at 100, so does
    every row afterwards, and no other column of any row has changed. *)
Theorem recalculate_keeps_progress_sound (rank : string -> nat) (db : TaskTable)
  (x : string) :
  ranked rank db -> Forall progressOk db ->
  exists db',
    recalculateParentTaskCompletion db x = Some db' /\
    Forall progressOk db' /\
    Forall2 sameButProgress db db'.
Proof.
  intros Hr Hall. destruct (recalculate_total rank db x Hr) as [db' [Hrun _]].
  exists db'. split; [exact Hrun|]. split.
  - eapply recalculate_fuel_progressOk; [exact Hall | exact Hrun].
  - eapply recalculate_fuel_shape. exact Hrun.
Qed.

Lemma recalculate_keeps_progress_sound_witness :
  ranked sampleRank sampleTasks /\ Forall progressOk sampleTasks /\
  exists db',
    recalculateParentTaskCompletion sampleTasks "C" = Some db' /\
    Forall progressOk db' /\ length db' = 4.
Proof.
  assert (H1 : ranked sampleRank sampleTasks) by (apply rankedb_ranked; reflexivity).
  assert (H2 : Forall progressOk sampleTasks).
  { repeat constructor; apply progressOkb_ok; reflexivity. }
  split; [exact H1|]. split; [exact H2|].
  destruct (recalculate_keeps_progress_sound sampleRank sampleTasks "C" H1 H2)
    as [db' [Hrun [Hok Hshape]]].
  exists db'. split; [exact Hrun|]. split; [exact Hok|].
  now rewrite <- (Forall2_length Hshape).
Defined.

Lemma inSubtree_updateTask (db : TaskTable) (x : string) (u : TaskUpdates) (a b : string) :
  inSubtree (updateTask db x u) a b -> inSubtree db a b.
Proof.
  induction 1 as [|y r Hy IH Hin Hp]; [apply subtree_self|].
  unfold updateTask in Hin. apply in_map_iff in Hin. destruct Hin as [r0 [Hr0 Hin0]].
  assert (Hsame : Task.id r = Task.id r0 /\ Task.parentTaskId r = Task.parentTaskId r0)
    by (destruct (Task.id r0 =? x); subst r; auto).
  destruct Hsame as [Hid Hpar]. rewrite Hid.
  apply subtree_child with y; auto. congruence.
Qed.

Lemma recalculate_fuel_frame (fuel : nat) :
  forall (x : string) (db db' : TaskTable),
    recalculateParentTaskCompletion_fuel fuel x db = Some db' ->
    Forall2 (fun t t' => t' = t \/ inSubtree db (Task.id t) x) db db'.
Proof.
  induction fuel as [|fuel IH]; intros x db db' H; [discriminate|].
  assert (Hsame : Forall2 (fun t t' => t' = t \/ inSubtree db (Task.id t) x) db db)
    by (apply Forall2_same; auto).
  simpl in H. destruct (getTask db x) as [t|] eqn:Hget; [|inversion H; subst; exact Hsame].
  destruct (childrenOf db x) as [|c cs] eqn:Hch; [inversion H; subst; exact Hsame|].
  rewrite <- Hch in H.
  set (db1 := updateTask db x (aggregateUpdates t (avgPercentOf (childrenOf db x)))) in *.
  assert (Hup : Forall2 (fun a b => (b = a \/ Task.id a = x) /\ Task.id b = Task.id a) db db1).
  { unfold db1. generalize (aggregateUpdates t (avgPercentOf (childrenOf db x))).
    intros u. unfold updateTask. clear.
    induction db as [|a db IH]; simpl; constructor; auto.
    destruct (Task.id a =? x) eqn:E; split; auto.
    right. now apply String.eqb_eq. }
  assert (Hstop : Some db1 = Some db' ->
                  Forall2 (fun t t' => t' = t \/ inSubtree db (Task.id t) x) db db').
  { intros E. inversion E; subst db'. eapply Forall2_impl; [|exact Hup].
    intros a b [[-> | <-] _]; [now left | right; apply subtree_self]. }
  destruct (Task.parentTaskId t) as [p|] eqn:Hp; [|auto].
  destruct (truthy p); [|auto].
  destruct (getTask_In _ _ _ Hget) as [Hin Hid].
  apply (Forall2_compose
           (fun a b => (b = a \/ Task.id a = x) /\ Task.id b = Task.id a)
           (fun b d => d = b \/ inSubtree db1 (Task.id b) p) _ db db1 db');
    [|exact Hup | now apply IH].
  intros a b d [Hab Hidb] [-> | Hsub].
  - destruct Hab as [-> | <-]; [now left | right; apply subtree_self].
  - right. rewrite Hidb in Hsub. apply inSubtree_updateTask in Hsub.
    rewrite <- Hid. now apply subtree_child with p.
Qed.

(** X3.  The cascade rewrites only the task it is called on and its
    ancestors: a row that differs afterwards is a row whose subtree contains
    the given id; every other row, descendants and siblings included, is
    exactly as before. *)
Theorem recalculate_rewrites_only_ancestors (rank : string -> nat) (db : TaskTable)
  (x : string) :
  ranked rank db ->
  exists db',
    recalculateParentTaskCompletion db x = Some db' /\
    Forall2 (fun t t' => t' = t \/ inSubtree db (Task.id t) x) db db' /\
    (forall y, rank x < rank y -> getTask db' y = getTask db y).
Proof.
  intros Hr. destruct (recalculate_total rank db x Hr) as [db' [Hrun [Hstep _]]].
  exists db'. split; [exact Hrun|]. split.
  - eapply recalculate_fuel_frame. exact Hrun.
  - intros y Hy. now apply (cascadeStep_getTask rank x).
Qed.

Lemma recalculate_rewrites_only_ancestors_witness :
  ranked sampleRank sampleTasks /\
  exists db',
    recalculateParentTaskCompletion sampleTasks "C" = Some db' /\
    getTask db' "D" = getTask sampleTasks "D" /\
    length db' = length sampleTasks.
Proof.
  assert (H1 : ranked sampleRank sampleTasks) by (apply rankedb_ranked; reflexivity).
  split; [exact H1|].
  destruct (recalculate_rewrites_only_ancestors sampleRank sampleTasks "C" H1)
    as [db' [Hrun [Hframe Habove]]].
  exists db'. split; [exact Hrun|]. split; [apply Habove; vm_compute; lia|].
  symmetry. exact (Forall2_length Hframe).
Defined.

Lemma sumZ_shortfall (rows : TaskTable) :
  shortfall rows
  = (100 * Z.of_nat (length rows) - sumZ (map Task.percentComplete rows))%Z.
Proof.
  unfold shortfall, sumZ. induction rows as [|r rows IH]; [reflexivity|].
  cbn [map fold_right length]. rewrite IH, Nat2Z.inj_succ. lia.
Qed.

(** X4.  Where the rounding puts the thresholds.  For children holding
    percentages, the aggregate is 100, and the parent marked completed,
    exactly when what the children lack to 100 sums to at most half their
    number; it is 0, and the parent's status left alone, exactly when their
    percentages sum to less than half their number; children that all hold
    the same value give that value. *)
Theorem aggregate_thresholds (rows : TaskTable) (parentTask : Task.t) :
  rows <> [] ->
  Forall (fun t => 0 <= Task.percentComplete t <= 100)%Z rows ->
  let n := Z.of_nat (length rows) in
  (avgPercentOf rows = 100%Z <-> (2 * shortfall rows <= n)%Z) /\
  (u_isCompleted (aggregateUpdates parentTask (avgPercentOf rows)) = Some true <->
   (2 * shortfall rows <= n)%Z) /\
  (avgPercentOf rows = 0%Z <-> (2 * totalPercent rows < n)%Z) /\
  ((2 * totalPercent rows < n)%Z ->
   u_status (aggregateUpdates parentTask (avgPercentOf rows))
   = Some (Task.status parentTask)) /\
  (forall v, Forall (fun t => Task.percentComplete t = v) rows -> avgPercentOf rows = v).
Proof.
  intros Hne Hall n.
  pose proof (avgPercentOf_rounds rows Hne) as Hm. unfold mean_rounds_to in Hm.
  rewrite length_map in Hm. fold n in Hm.
  assert (Hn : (0 < n)%Z) by (unfold n; destruct rows; [congruence | simpl length; lia]).
  assert (Hs : (n * 0 <= sumZ (map Task.percentComplete rows) <= n * 100)%Z).
  { unfold n. rewrite <- (length_map Task.percentComplete rows). apply sumZ_bounds.
    rewrite Forall_map. exact Hall. }
  rewrite sumZ_shortfall, totalPercent_sum. fold n.
  set (S := sumZ (map Task.percentComplete rows)) in *.
  set (v := avgPercentOf rows) in *.
  assert (H100 : v = 100%Z <-> (2 * (100 * n - S) <= n)%Z) by (split; intros; nia).
  assert (H0 : v = 0%Z <-> (2 * S < n)%Z) by (split; intros; nia).
  split; [exact H100|]. split; [|split; [exact H0|split]].
  - unfold aggregateUpdates. simpl. rewrite <- H100. split.
    + intros E. inversion E as [E']. now apply Z.eqb_eq.
    + intros ->. reflexivity.
  - intros Hlt. apply H0 in Hlt. unfold aggregateUpdates. simpl. rewrite Hlt. reflexivity.
  - intros w Hw.
    assert (HS : S = (n * w)%Z).
    { unfold S, n. clear - Hw. induction Hw as [|r rows Hr _ IH]; [reflexivity|].
      unfold sumZ in *. cbn [map fold_right length]. rewrite IH, Hr, Nat2Z.inj_succ.
      lia. }
    nia.
Qed.

Lemma aggregate_thresholds_witness :
  [ sampleTask "B" (Some "A") 100 "completed" 1;
    sampleTask "C" (Some "A") 99 "in-progress" 0 ] <> [] /\
  avgPercentOf [ sampleTask "B" (Some "A") 100 "completed" 1;
                 sampleTask "C" (Some "A") 99 "in-progress" 0 ] = 100%Z.
Proof.
  assert (Hne : [ sampleTask "B" (Some "A") 100 "completed" 1;
                  sampleTask "C" (Some "A") 99 "in-progress" 0 ] <> []) by discriminate.
  split; [exact Hne|].
  assert (Hrange : Forall (fun t => 0 <= Task.percentComplete t <= 100)%Z
                     [ sampleTask "B" (Some "A") 100 "completed" 1;
                       sampleTask "C" (Some "A") 99 "in-progress" 0 ]).
  { constructor; [simpl; lia|]. constructor; [simpl; lia|]. constructor. }
  destruct (aggregate_thresholds _ (sampleTask "A" None 0 "pending" 0) Hne Hrange)
    as [H100 _].
  apply H100. vm_compute. discriminate.
Defined.

(** X5.  [recalculateProjectCompletion] is idempotent, and with root tasks
    that hold percentages it leaves a percentage in the project row. *)
Theorem recalculateProjectCompletion_idempotent (ps : ProjectTable) (db : TaskTable)
  (projectId : string) :
  recalculateProjectCompletion (recalculateProjectCompletion ps db projectId) db projectId
  = recalculateProjectCompletion ps db projectId /\
  (Forall (fun t => 0 <= Task.percentComplete t <= 100)%Z (rootTasksOf db projectId) ->
   forall p, In p (recalculateProjectCompletion ps db projectId) ->
             Project.id p = projectId ->
             (0 <= Project.percentComplete p <= 100)%Z).
Proof.
  unfold recalculateProjectCompletion.
  assert (Htwice : forall v, setProjectPercent (setProjectPercent ps projectId v) projectId v
                             = setProjectPercent ps projectId v).
  { intros v. unfold setProjectPercent. rewrite map_map. apply map_ext. intros p.
    destruct (Project.id p =? projectId) eqn:E; simpl; rewrite E; reflexivity. }
  assert (Hval : forall v p, In p (setProjectPercent ps projectId v) ->
                             Project.id p = projectId -> Project.percentComplete p = v).
  { intros v p Hin Hid. unfold setProjectPercent in Hin. apply in_map_iff in Hin.
    destruct Hin as [p0 [Hp0 _]]. destruct (Project.id p0 =? projectId) eqn:E; subst p.
    - reflexivity.
    - apply String.eqb_neq in E. contradiction. }
  destruct (rootTasksOf db projectId) as [|r rs] eqn:Er.
  - split; [apply Htwice|]. intros _ p Hin Hid. rewrite (Hval _ p Hin Hid). lia.
  - split; [apply Htwice|]. intros Hall p Hin Hid. rewrite (Hval _ p Hin Hid).
    apply avgPercentOf_range; [discriminate | exact Hall].
Qed.

Lemma recalculateProjectCompletion_idempotent_witness :
  Forall (fun t => 0 <= Task.percentComplete t <= 100)%Z (rootTasksOf sampleTasks "P1") /\
  forall p, In p (recalculateProjectCompletion sampleProjects sampleTasks "P1") ->
            Project.id p = "P1" -> (0 <= Project.percentComplete p <= 100)%Z.
Proof.
  assert (H : Forall (fun t => 0 <= Task.percentComplete t <= 100)%Z
                (rootTasksOf sampleTasks "P1")).
  { vm_compute rootTasksOf. constructor; [simpl; lia | constructor]. }
  split; [exact H|].
  exact (proj2 (recalculateProjectCompletion_idempotent sampleProjects sampleTasks "P1") H).
Defined.

(** ** Further properties of the deletions *)

Lemma getTask_keptRows (keep : string -> bool) (db : TaskTable) (y : string) :
  getTask (keptRows keep db) y = if keep y then getTask db y else None.
Proof.
  unfold getTask, keptRows. induction db as [|a db IH]; simpl.
  - now destruct (keep y).
  - destruct (keep (Task.id a)) eqn:Ea; simpl; destruct (Task.id a =? y) eqn:E.
    + apply String.eqb_eq in E. rewrite <- E, Ea. reflexivity.
    + exact IH.
    + apply String.eqb_eq in E. rewrite IH, <- E, Ea. reflexivity.
    + exact IH.
Qed.

Lemma inSubtree_rank (rank : string -> nat) (db : TaskTable) (x y : string) :
  ranked rank db -> inSubtree db x y -> rank x <= rank y.
Proof.
  intros Hr. induction 1 as [|w t Hw IH Hin Hp]; [lia|].
  specialize (Hr t w Hin Hp). lia.
Qed.

Lemma childrenOf_keptRows (keep : string -> bool) (db : TaskTable) (p : string) :
  childrenOf (keptRows keep db) p = keptRows keep (childrenOf db p).
Proof.
  unfold childrenOf, keptRows. rewrite !filter_filter. apply filter_ext.
  intros a. apply andb_comm.
Qed.

(** X6.  [deleteTask] leaves no task behind without its parent: the parent
    of every task that remains is found exactly as before, so a reference
    that pointed to a row still points to it.  The table stays free of
    parent cycles, and ids that were distinct stay distinct. *)
Theorem deleteTask_leaves_no_orphan (rank : string -> nat) (db : TaskTable) (x : string) :
  ranked rank db ->
  exists db',
    deleteTask db x = Some db' /\
    (forall t p, In t db' -> Task.parentTaskId t = Some p ->
                 getTask db' p = getTask db p) /\
    ranked rank db' /\
    (NoDup (map Task.id db) -> NoDup (map Task.id db')).
Proof.
  intros Hr. destruct (deleteTask_total rank db x Hr) as [keep [Hrun Hk]].
  exists (keptRows keep db). split; [exact Hrun|]. split; [|split].
  - intros t p Hin Hp. rewrite getTask_keptRows.
    destruct (keep p) eqn:Ekp; [reflexivity|]. exfalso.
    unfold keptRows in Hin. apply filter_In in Hin. destruct Hin as [Hin Hkt].
    assert (Hsub : inSubtree db x (Task.id t)).
    { apply subtree_child with p; auto. now apply Hk. }
    apply Hk in Hsub. congruence.
  - apply (ranked_incl rank db); [|exact Hr]. apply incl_filter.
  - intros Hnd. unfold keptRows. clear Hrun Hk.
    induction db as [|a db IH]; simpl; [constructor|].
    inversion Hnd as [|? ? Hnotin Hnd']; subst.
    assert (Hr' : ranked rank db) by (intros t q Ht; apply Hr; now right).
    destruct (keep (Task.id a)); simpl; [|auto].
    constructor; [|auto]. intros Hin. apply Hnotin.
    apply in_map_iff in Hin. destruct Hin as [b [Hb Hinb]].
    apply filter_In in Hinb. rewrite <- Hb. apply in_map. tauto.
Qed.

Lemma deleteTask_leaves_no_orphan_witness :
  ranked sampleRank sampleTasks /\
  exists db',
    deleteTask sampleTasks "D" = Some db' /\
    getTask db' "A" = getTask sampleTasks "A" /\
    getTask db' "D" = None.
Proof.
  assert (H1 : ranked sampleRank sampleTasks) by (apply rankedb_ranked; reflexivity).
  split; [exact H1|].
  destruct (deleteTask_leaves_no_orphan sampleRank sampleTasks "D" H1)
    as [db' [Hrun [Hpar _]]].
  exists db'. split; [exact Hrun|].
  assert (E : deleteTask sampleTasks "D"
              = Some [ sampleTask "A" None 0 "pending" 0;
                       sampleTask "B" (Some "A") 100 "completed" 1;
                       sampleTask "C" (Some "A") 50 "in-progress" 0 ])
    by (vm_compute; reflexivity).
  rewrite E in Hrun. inversion Hrun; subst db'. split; [|reflexivity].
  apply (Hpar (sampleTask "B" (Some "A") 100 "completed" 1) "A").
  - simpl. tauto.
  - reflexivity.
Defined.

Lemma deleteRow_absent (db : TaskTable) (x : string) :
  getTask db x = None -> deleteRow db x = db.
Proof.
  unfold getTask, deleteRow. induction db as [|a db IH]; simpl; [reflexivity|].
  destruct (Task.id a =? x); [discriminate|]. simpl. intros H. f_equal. auto.
Qed.

(** X7.  Deleting twice is deleting once: after [deleteTask] the id has no
    row and no child left, and a second [deleteTask] on it returns the table
    unchanged. *)
Theorem deleteTask_twice (rank : string -> nat) (db : TaskTable) (x : string) :
  ranked rank db ->
  exists db',
    deleteTask db x = Some db' /\
    getTask db' x = None /\
    childrenOf db' x = [] /\
    deleteTask db' x = Some db'.
Proof.
  intros Hr. destruct (deleteTask_total rank db x Hr) as [keep [Hrun Hk]].
  exists (keptRows keep db).
  assert (Hx : keep x = false) by (apply Hk; apply subtree_self).
  assert (Hget : getTask (keptRows keep db) x = None)
    by (rewrite getTask_keptRows, Hx; reflexivity).
  assert (Hch : childrenOf (keptRows keep db) x = []).
  { rewrite childrenOf_keptRows. unfold keptRows.
    destruct (filter (fun t => keep (Task.id t)) (childrenOf db x)) as [|c cs] eqn:E;
      [reflexivity|]. exfalso.
    assert (Hc : In c (filter (fun t => keep (Task.id t)) (childrenOf db x)))
      by (rewrite E; now left).
    apply filter_In in Hc. destruct Hc as [Hc Hkc]. apply childrenOf_In in Hc.
    destruct Hc as [Hin Hp].
    assert (keep (Task.id c) = false)
      by (apply Hk; apply subtree_child with x; auto; apply subtree_self).
    congruence. }
  split; [exact Hrun|]. split; [exact Hget|]. split; [exact Hch|].
  unfold deleteTask. simpl. rewrite Hch. simpl. f_equal. now apply deleteRow_absent.
Qed.

Lemma deleteTask_twice_witness :
  ranked sampleRank sampleTasks /\
  exists db',
    deleteTask sampleTasks "C" = Some db' /\
    deleteTask db' "C" = Some db' /\
    length db' = 2.
Proof.
  assert (H1 : ranked sampleRank sampleTasks) by (apply rankedb_ranked; reflexivity).
  split; [exact H1|].
  destruct (deleteTask_twice sampleRank sampleTasks "C" H1) as [db' [Hrun [_ [_ Hagain]]]].
  exists db'. split; [exact Hrun|]. split; [exact Hagain|].
  vm_compute in Hrun. inversion Hrun. reflexivity.
Defined.

Lemma recalculateProjectCompletion_aggregated (ps : ProjectTable) (ts : TaskTable)
  (projectId : string) :
  projectAggregated (recalculateProjectCompletion ps ts projectId) ts projectId.
Proof.
  intros p Hin Hid. unfold recalculateProjectCompletion in Hin.
  assert (Hval : forall v, In p (setProjectPercent ps projectId v) ->
                           Project.percentComplete p = v).
  { intros v Hv. unfold setProjectPercent in Hv. apply in_map_iff in Hv.
    destruct Hv as [p0 [Hp0 _]]. destruct (Project.id p0 =? projectId) eqn:E; subst p.
    - reflexivity.
    - apply String.eqb_neq in E. contradiction. }
  destruct (rootTasksOf ts projectId) as [|r rs] eqn:Er.
  - left. split; [reflexivity | now apply Hval].
  - right. split; [discriminate|]. rewrite (Hval _ Hin).
    apply avgPercentOf_rounds. discriminate.
Qed.

Lemma getTask_shape (l l' : TaskTable) (y : string) :
  Forall2 sameButProgress l l' ->
  match getTask l y with
  | Some t => exists t', getTask l' y = Some t' /\ sameButProgress t t'
  | None => getTask l' y = None
  end.
Proof.
  unfold getTask. induction 1 as [|a b l l' Hab _ IH]; simpl; [reflexivity|].
  destruct Hab as [Hid Hrest] eqn:E. rewrite Hid.
  destruct (Task.id a =? y); [|exact IH].
  exists b. split; [reflexivity|]. unfold sameButProgress. auto.
Qed.

(** X8.  [DELETE /api/tasks/:id] on a database without parent cycles.  An id
    with no row gives 404 and changes nothing.  Otherwise the reply is 204:
    every id of the task's subtree has no row left, every other task is
    still there with only its progress columns possibly rewritten, and the
    project row holds the aggregate of the root tasks that remain (0 when
    none remains). *)
Theorem deleteTaskRoute_removes_and_recalculates (rank : string -> nat) (s : Store)
  (x : string) :
  ranked rank (tasks s) ->
  (getTask (tasks s) x = None -> deleteTaskRoute s x = Some (s, 404)) /\
  (forall task, getTask (tasks s) x = Some task ->
     exists s',
       deleteTaskRoute s x = Some (s', 204) /\
       (forall y, inSubtree (tasks s) x y -> getTask (tasks s') y = None) /\
       (forall y t, ~ inSubtree (tasks s) x y -> getTask (tasks s) y = Some t ->
                    exists t', getTask (tasks s') y = Some t' /\ sameButProgress t t') /\
       projectAggregated (projects s') (tasks s') (Task.projectId task) /\
       map Project.id (projects s') = map Project.id (projects s)).
Proof.
  intros Hr. split.
  { intros Hnone. unfold deleteTaskRoute. now rewrite Hnone. }
  intros task Hget. unfold deleteTaskRoute. rewrite Hget.
  destruct (deleteTask_total rank (tasks s) x Hr) as [keep [Hrun Hk]].
  rewrite Hrun.
  set (ts1 := keptRows keep (tasks s)).
  assert (Hr1 : ranked rank ts1).
  { apply (ranked_incl rank (tasks s)); [|exact Hr]. apply incl_filter. }
  assert (Hcas : exists ts2,
             match Task.parentTaskId task with
             | Some p =>
               if truthy p then
                 match getTask ts1 p with
                 | Some _ => recalculateParentTaskCompletion ts1 p
                 | None => Some ts1
                 end
               else Some ts1
             | None => Some ts1
             end = Some ts2 /\ Forall2 sameButProgress ts1 ts2).
  { assert (Hsame : Forall2 sameButProgress ts1 ts1)
      by (apply Forall2_same, sameButProgress_refl).
    destruct (Task.parentTaskId task) as [p|]; [|eauto].
    destruct (truthy p); [|eauto].
    destruct (getTask ts1 p); [|eauto].
    destruct (recalculate_total rank ts1 p Hr1) as [ts2 [Hrun2 _]].
    exists ts2. split; [exact Hrun2|]. eapply recalculate_fuel_shape. exact Hrun2. }
  destruct Hcas as [ts2 [Hcas Hshape]]. rewrite Hcas.
  eexists. split; [reflexivity|]. cbn [tasks projects].
  split; [|split; [|split]].
  - intros y Hy. apply Hk in Hy.
    pose proof (getTask_shape ts1 ts2 y Hshape) as Hs.
    unfold ts1 in Hs at 1. rewrite getTask_keptRows, Hy in Hs. exact Hs.
  - intros y t Hy Hgy.
    assert (Hky : keep y = true).
    { destruct (keep y) eqn:E; [reflexivity|]. apply Hk in E. contradiction. }
    pose proof (getTask_shape ts1 ts2 y Hshape) as Hs.
    unfold ts1 in Hs at 1. rewrite getTask_keptRows, Hky, Hgy in Hs. exact Hs.
  - apply recalculateProjectCompletion_aggregated.
  - apply recalculateProjectCompletion_ids.
Qed.

Lemma deleteTaskRoute_removes_and_recalculates_witness :
  ranked sampleRank (tasks sampleStore) /\
  getTask (tasks sampleStore) "Z" = None /\
  getTask (tasks sampleStore) "C" = Some (sampleTask "C" (Some "A") 50 "in-progress" 0) /\
  deleteTaskRoute sampleStore "Z" = Some (sampleStore, 404) /\
  exists s',
    deleteTaskRoute sampleStore "C" = Some (s', 204) /\
    getTask (tasks s') "D" = None /\
    projectAggregated (projects s') (tasks s') "P1".
Proof.
  assert (H1 : ranked sampleRank (tasks sampleStore)) by (apply rankedb_ranked; reflexivity).
  split; [exact H1|]. split; [reflexivity|]. split; [reflexivity|].
  destruct (deleteTaskRoute_removes_and_recalculates sampleRank sampleStore "Z" H1)
    as [H404 _].
  split; [apply H404; reflexivity|].
  destruct (deleteTaskRoute_removes_and_recalculates sampleRank sampleStore "C" H1)
    as [_ H204].
  destruct (H204 _ eq_refl) as [s' [Hrun [Hgone [_ [Hagg _]]]]].
  exists s'. split; [exact Hrun|]. split; [|exact Hagg].
  apply Hgone.
  apply (subtree_child _ "C" "C" (sampleTask "D" (Some "C") 50 "blocked" 0)).
  - apply subtree_self.
  - simpl. tauto.
  - reflexivity.
Defined.

(** X9.  Deleting the only child of a task through the route leaves the
    parent's row exactly as it was: a task without children is not
    recalculated, so it keeps the aggregate it last held. *)
Theorem deleteTaskRoute_only_child_keeps_parent (rank : string -> nat) (s : Store)
  (x p : string) (task : Task.t) :
  ranked rank (tasks s) ->
  getTask (tasks s) x = Some task ->
  Task.parentTaskId task = Some p ->
  (forall c, In c (tasks s) -> Task.parentTaskId c = Some p -> Task.id c = x) ->
  exists s',
    deleteTaskRoute s x = Some (s', 204) /\
    childrenOf (tasks s') p = [] /\
    getTask (tasks s') p = getTask (tasks s) p.
Proof.
  intros Hr Hget Hp Honly. unfold deleteTaskRoute. rewrite Hget, Hp.
  destruct (deleteTask_total rank (tasks s) x Hr) as [keep [Hrun Hk]].
  rewrite Hrun. set (ts1 := keptRows keep (tasks s)).
  assert (Hx : keep x = false) by (apply Hk; apply subtree_self).
  assert (Hch : childrenOf ts1 p = []).
  { unfold ts1. rewrite childrenOf_keptRows. unfold keptRows.
    destruct (filter (fun t => keep (Task.id t)) (childrenOf (tasks s) p)) as [|c cs] eqn:E;
      [reflexivity|]. exfalso.
    assert (Hc : In c (filter (fun t => keep (Task.id t)) (childrenOf (tasks s) p)))
      by (rewrite E; now left).
    apply filter_In in Hc. destruct Hc as [Hc Hkc]. apply childrenOf_In in Hc.
    destruct Hc as [Hin Hpc]. rewrite (Honly c Hin Hpc) in Hkc. congruence. }
  assert (Hkp : keep p = true).
  { destruct (keep p) eqn:E; [reflexivity|]. apply Hk in E.
    pose proof (inSubtree_rank rank (tasks s) x p Hr E) as Hle.
    destruct (getTask_In _ _ _ Hget) as [Hin Hid].
    pose proof (Hr task p Hin Hp) as Hlt. rewrite Hid in Hlt. lia. }
  assert (Hgp : getTask ts1 p = getTask (tasks s) p)
    by (unfold ts1; rewrite getTask_keptRows, Hkp; reflexivity).
  assert (Hcas : (if truthy p then
                    match getTask ts1 p with
                    | Some _ => recalculateParentTaskCompletion ts1 p
                    | None => Some ts1
                    end
                  else Some ts1) = Some ts1).
  { destruct (truthy p); [|reflexivity].
    destruct (getTask ts1 p); [|reflexivity].
    apply recalculate_noop. now right. }
  rewrite Hcas. eexists. split; [reflexivity|]. cbn [tasks]. auto.
Qed.

Lemma deleteTaskRoute_only_child_keeps_parent_witness :
  ranked sampleRank (tasks sampleStore) /\
  getTask (tasks sampleStore) "D" = Some (sampleTask "D" (Some "C") 50 "blocked" 0) /\
  exists s',
    deleteTaskRoute sampleStore "D" = Some (s', 204) /\
    childrenOf (tasks s') "C" = [] /\
    getTask (tasks s') "C" = Some (sampleTask "C" (Some "A") 50 "in-progress" 0).
Proof.
  assert (H1 : ranked sampleRank (tasks sampleStore)) by (apply rankedb_ranked; reflexivity).
  split; [exact H1|]. split; [reflexivity|].
  destruct (deleteTaskRoute_only_child_keeps_parent sampleRank sampleStore "D" "C"
              (sampleTask "D" (Some "C") 50 "blocked" 0) H1 eq_refl eq_refl)
    as [s' [Hrun [Hch Hsame]]].
  { intros c Hin Hpc. simpl in Hin.
    destruct Hin as [<- | [<- | [<- | [<- | []]]]]; try discriminate. reflexivity. }
  exists s'. split; [exact Hrun|]. split; [exact Hch|]. rewrite Hsame. reflexivity.
Defined.

(** X10.  [deleteProject] removes the project row and every task of the
    project, and nothing else: another project's row, task list and root
    tasks are what they were, so its tree and its aggregate are unaffected. *)
Theorem deleteProject_removes_only_the_project (s : Store) (id : string) :
  let s' := deleteProject s id in
  getProject (projects s') id = None /\
  getTasksByProject (tasks s') id = [] /\
  (forall t, In t (tasks s') <-> In t (tasks s) /\ Task.projectId t <> id) /\
  (forall q, q <> id ->
     getProject (projects s') q = getProject (projects s) q /\
     getTasksByProject (tasks s') q = getTasksByProject (tasks s) q /\
     rootTasksOf (tasks s') q = rootTasksOf (tasks s) q /\
     recalculateProjectCompletion (projects s') (tasks s') q
     = projects (deleteProject
                   (mkStore (recalculateProjectCompletion (projects s) (tasks s) q)
                      (tasks s) (nextId s)) id)).
Proof.
  intros s'. unfold s', deleteProject. cbn [projects tasks nextId].
  assert (Hby : forall q, q <> id ->
            getTasksByProject (filter (fun t => negb (Task.projectId t =? id)) (tasks s)) q
            = getTasksByProject (tasks s) q).
  { intros q Hq. unfold getTasksByProject. rewrite filter_filter. apply filter_ext.
    intros a. destruct (Task.projectId a =? q) eqn:E; [|apply andb_false_r].
    apply String.eqb_eq in E. rewrite andb_true_r, E.
    apply negb_true_iff. now apply String.eqb_neq. }
  split; [|split; [|split]].
  - clear Hby. unfold getProject.
    induction (projects s) as [|p ps IH]; simpl; [reflexivity|].
    destruct (Project.id p =? id) eqn:E; simpl; [exact IH|]. now rewrite E.
  - clear Hby. unfold getTasksByProject. rewrite filter_filter.
    induction (tasks s) as [|t ts IH]; simpl; [reflexivity|].
    destruct (Task.projectId t =? id); simpl; exact IH.
  - intros t. rewrite filter_In, negb_true_iff, String.eqb_neq. tauto.
  - intros q Hq. split; [|split; [|split]].
    + clear Hby. unfold getProject.
      induction (projects s) as [|p ps IH]; simpl; [reflexivity|].
      destruct (Project.id p =? id) eqn:E; simpl.
      * apply String.eqb_eq in E.
        assert ((Project.id p =? q) = false) as -> by (apply String.eqb_neq; congruence).
        exact IH.
      * destruct (Project.id p =? q); [reflexivity | exact IH].
    + now apply Hby.
    + unfold rootTasksOf. now rewrite Hby.
    + unfold recalculateProjectCompletion, rootTasksOf. rewrite (Hby q Hq).
      assert (Hcomm : forall v,
                setProjectPercent (filter (fun p => negb (Project.id p =? id)) (projects s)) q v
                = filter (fun p => negb (Project.id p =? id))
                    (setProjectPercent (projects s) q v)).
      { intros v. clear Hby. unfold setProjectPercent.
        induction (projects s) as [|p ps IH]; simpl; [reflexivity|].
        assert (Hidp : Project.id (if Project.id p =? q
                                   then applyProjectUpdates (mkProjectUpdates (Some v) None) p
                                   else p) = Project.id p)
          by (destruct (Project.id p =? q); reflexivity).
        rewrite Hidp. destruct (Project.id p =? id); simpl; rewrite IH; reflexivity. }
      destruct (filter _ (getTasksByProject (tasks s) q)); apply Hcomm.
Qed.

Lemma deleteProject_removes_only_the_project_witness :
  "P1" <> "P2" /\
  getProject (projects (deleteProject sampleStore "P2")) "P2" = None /\
  getTasksByProject (tasks (deleteProject sampleStore "P2")) "P1"
  = getTasksByProject (tasks sampleStore) "P1".
Proof.
  assert (H : "P1" <> "P2") by discriminate.
  split; [exact H|].
  destruct (deleteProject_removes_only_the_project sampleStore "P2")
    as [Hgone [_ [_ Hother]]].
  split; [exact Hgone|]. now apply Hother.
Defined.

(** ** Further properties of the task tree *)

Lemma TaskWithChildren_forall_ind (P : TaskWithChildren -> Prop) :
  (forall t cs, Forall P cs -> P (TaskNode t cs)) -> forall n, P n.
Proof.
  intros H. fix IH 1. intros [t cs]. apply H.
  induction cs as [|c cs IHcs]; constructor; [apply IH | exact IHcs].
Qed.

Lemma inForest_trans (n m : TaskWithChildren) (forest : list TaskWithChildren) :
  inForest n forest -> inForest m (nodeChildren n) -> inForest m forest.
Proof.
  induction 1 as [forest Hin | k forest Hk Hbelow IH]; intros Hm.
  - now apply inForest_below with n.
  - apply inForest_below with k; auto.
Qed.

Lemma forestOf_member (allTasks : list Task.t) (parentId : option string)
  (forest : list TaskWithChildren) (t : Task.t) :
  forestOf allTasks parentId forest ->
  (In t (map nodeTask forest) <-> In t allTasks /\ Task.parentTaskId t = parentId).
Proof.
  intros H. inversion H as [pid f Hmap _]; subst. rewrite Hmap.
  rewrite sortBySortOrder_In, filter_In, hasParent_eq. tauto.
Qed.

Lemma forest_node_path (allTasks : list Task.t) (n : TaskWithChildren) :
  forall forest, inForest n forest ->
  forall parentId path,
    forestOf allTasks parentId forest -> upPath allTasks parentId path ->
    exists path', upPath allTasks (Some (Task.id (nodeTask n))) path'.
Proof.
  induction 1 as [forest Hin | m forest Hm Hbelow IH]; intros parentId path Hwf Hup.
  - assert (Ht : In (nodeTask n) (map nodeTask forest)) by now apply in_map.
    apply (forestOf_member allTasks parentId forest) in Ht; [|exact Hwf].
    destruct Ht as [Hall Hp]. exists (Task.id (nodeTask n) :: path).
    apply upPath_step with (nodeTask n); auto. now rewrite Hp.
  - assert (Ht : In (nodeTask m) (map nodeTask forest)) by now apply in_map.
    apply (forestOf_member allTasks parentId forest) in Ht; [|exact Hwf].
    destruct Ht as [Hall Hp].
    inversion Hwf as [pid f _ Hsub]; subst. rewrite Forall_forall in Hsub.
    apply (IH (Some (Task.id (nodeTask m))) (Task.id (nodeTask m) :: path)).
    + now apply Hsub.
    + apply upPath_step with (nodeTask m); auto; try now rewrite Hp.
Qed.

Lemma forest_complete (allTasks : list Task.t) (forest : list TaskWithChildren) :
  NoDup (map Task.id allTasks) ->
  forestOf allTasks None forest ->
  forall parentId path, upPath allTasks parentId path ->
  forall t, In t allTasks -> parentId = Some (Task.id t) ->
            exists n, inForest n forest /\ nodeTask n = t.
Proof.
  intros Hnd Hwf. induction 1 as [|x t0 rest Hin0 Hid0 Hup IH]; intros t Hin E;
    [discriminate|].
  inversion E; subst x.
  assert (t0 = t) as -> by (apply (unique_id_row allTasks); auto).
  destruct (Task.parentTaskId t) as [q|] eqn:Hp.
  - inversion Hup as [|q' u rest' Hinu Hidu Hupu]; subst.
    destruct (IH u Hinu eq_refl) as [nu [Hnu Htu]].
    destruct (forestOf_node allTasks nu forest Hnu None Hwf) as [_ [_ Hsub]].
    assert (Hc : In t (map nodeTask (nodeChildren nu))).
    { apply (forestOf_member allTasks _ _ t Hsub). split; [exact Hin|].
      rewrite Htu. exact Hp. }
    apply in_map_iff in Hc. destruct Hc as [m [Hm Hinm]].
    exists m. split; [|exact Hm].
    apply (inForest_trans nu); [exact Hnu | now apply inForest_here].
  - assert (Hc : In t (map nodeTask forest))
      by (apply (forestOf_member allTasks None forest t Hwf); auto).
    apply in_map_iff in Hc. destruct Hc as [m [Hm Hinm]].
    exists m. split; [now apply inForest_here | exact Hm].
Qed.

(** X11.  The nodes of the forest [buildTaskTree] returns for [parentId]
    null are exactly the tasks of the list from which the parent references
    lead, through tasks of the list, to a task without parent: such a task
    is a node, and every node is such a task. *)
Theorem buildTaskTree_nodes_are_rooted_tasks (allTasks : list Task.t) :
  NoDup (map Task.id allTasks) ->
  exists forest,
    buildTaskTree allTasks None = Some forest /\
    forall t, (exists n, inForest n forest /\ nodeTask n = t) <->
              (In t allTasks /\ exists path, upPath allTasks (Some (Task.id t)) path).
Proof.
  intros Hnd.
  destruct (buildTaskTree_fuel_spec allTasks Hnd (S (length allTasks)) None [])
    as [forest [Hrun Hwf]]; [constructor | simpl; lia |].
  exists forest. split; [exact Hrun|]. intros t. split.
  - intros [n [Hn <-]]. split.
    + now apply (forestOf_node allTasks n forest Hn None Hwf).
    + apply (forest_node_path allTasks n forest Hn None []); [exact Hwf | constructor].
  - intros [Hin [path Hup]].
    now apply (forest_complete allTasks forest Hnd Hwf (Some (Task.id t)) path).
Qed.

Lemma buildTaskTree_nodes_are_rooted_tasks_witness :
  NoDup (map Task.id sampleWithOrphan) /\
  exists forest,
    buildTaskTree sampleWithOrphan None = Some forest /\
    (exists n, inForest n forest /\ nodeTask n = sampleTask "D" (Some "C") 50 "blocked" 0) /\
    ~ (exists path, upPath sampleWithOrphan (Some "E") path).
Proof.
  assert (H1 : NoDup (map Task.id sampleWithOrphan)).
  { simpl. repeat constructor; simpl; intuition discriminate. }
  split; [exact H1|].
  destruct (buildTaskTree_nodes_are_rooted_tasks sampleWithOrphan H1) as [forest [Hrun Hiff]].
  exists forest. split; [exact Hrun|]. split.
  - apply Hiff. split; [simpl; tauto|].
    exists ["D"; "C"; "A"].
    apply upPath_step with (sampleTask "D" (Some "C") 50 "blocked" 0);
      [simpl; tauto | reflexivity |].
    apply upPath_step with (sampleTask "C" (Some "A") 50 "in-progress" 0);
      [simpl; tauto | reflexivity |].
    apply upPath_step with (sampleTask "A" None 0 "pending" 0);
      [simpl; tauto | reflexivity |].
    constructor.
  - intros [path Hup].
    inversion Hup as [|x t rest Hin Hid Hrest]; subst.
    simpl in Hin.
    destruct Hin as [<- | [<- | [<- | [<- | [<- | [<- | []]]]]]]; try discriminate.
    simpl in Hrest. inversion Hrest as [|x t rest' Hin' Hid' _]; subst.
    simpl in Hin'.
    destruct Hin' as [<- | [<- | [<- | [<- | [<- | [<- | []]]]]]]; discriminate.
Defined.

Lemma path_suffix_head (pre pre' s : list string) (a b : string) :
  pre ++ a :: s = pre' ++ b :: s -> a = b.
Proof.
  intros H.
  assert (H' : (pre ++ [a]) ++ s = (pre' ++ [b]) ++ s)
    by (rewrite <- !app_assoc; exact H).
  apply app_inv_tail in H'. apply app_inj_tail in H'. tauto.
Qed.

Lemma NoDup_ids_filter (f : Task.t -> bool) (l : list Task.t) :
  NoDup (map Task.id l) -> NoDup (map Task.id (filter f l)).
Proof.
  induction l as [|a l IH]; simpl; intros H; [constructor|].
  inversion H as [|? ? Hnotin Hnd]; subst.
  destruct (f a); simpl; [|auto]. constructor; [|auto].
  intros Hin. apply Hnotin. apply in_map_iff in Hin. destruct Hin as [b [Hb Hinb]].
  apply filter_In in Hinb. rewrite <- Hb. apply in_map. tauto.
Qed.

Lemma flattenNode_inForest :
  forall n t,
    In t (flattenNode n) <->
    t = nodeTask n \/ exists m, inForest m (nodeChildren n) /\ nodeTask m = t.
Proof.
  induction n as [c cs IH] using TaskWithChildren_forall_ind. intros t. simpl.
  rewrite in_flat_map. rewrite Forall_forall in IH. split.
  - intros [<- | [k [Hk Ht]]]; [now left|]. right.
    apply (IH k Hk) in Ht. destruct Ht as [-> | [m [Hm Hmt]]].
    + exists k. split; [now apply inForest_here | reflexivity].
    + exists m. split; [now apply inForest_below with k | exact Hmt].
  - intros [-> | [m [Hm Hmt]]]; [now left|]. right.
    inversion Hm as [f Hin | k f Hk Hbelow]; subst.
    + exists m. split; [exact Hin|]. apply (IH m Hin). now left.
    + exists k. split; [exact Hk|]. apply (IH k Hk). right. now exists m.
Qed.

Lemma flattenForest_inForest (forest : list TaskWithChildren) (t : Task.t) :
  In t (flattenForest forest) <-> exists n, inForest n forest /\ nodeTask n = t.
Proof.
  unfold flattenForest. rewrite in_flat_map. split.
  - intros [k [Hk Ht]]. apply flattenNode_inForest in Ht.
    destruct Ht as [-> | [m [Hm Hmt]]].
    + exists k. split; [now apply inForest_here | reflexivity].
    + exists m. split; [now apply inForest_below with k | exact Hmt].
  - intros [m [Hm Hmt]]. inversion Hm as [f Hin | k f Hk Hbelow]; subst.
    + exists m. split; [exact Hin|]. apply flattenNode_inForest. now left.
    + exists k. split; [exact Hk|]. apply flattenNode_inForest. right. now exists m.
Qed.

Section ForestNoDup.

Variable allTasks : list Task.t.
Hypothesis ids_distinct : NoDup (map Task.id allTasks).

Lemma siblings_flat (path : list string) (cs : list TaskWithChildren) :
  NoDup (map (fun m => Task.id (nodeTask m)) cs) ->
  Forall (nodeGood allTasks path) cs ->
  NoDup (map Task.id (flat_map flattenNode cs)) /\
  forall t, In t (flat_map flattenNode cs) ->
            exists pre m, In m cs /\
              upPath allTasks (Some (Task.id t)) (pre ++ Task.id (nodeTask m) :: path).
Proof.
  induction cs as [|c cs IH]; simpl; intros Hnd Hall.
  - split; [constructor | contradiction].
  - inversion Hnd as [|? ? Hnotin Hnd']; subst.
    inversion Hall as [|? ? [Hpc Hndc] Hall']; subst.
    destruct (IH Hnd' Hall') as [Hndr Hpr].
    split.
    + rewrite map_app. apply NoDup_app; auto.
      intros i Hi Hi'. apply in_map_iff in Hi. destruct Hi as [t [<- Ht]].
      apply in_map_iff in Hi'. destruct Hi' as [t' [Hid Ht']].
      destruct (Hpc t Ht) as [pre Hup].
      destruct (Hpr t' Ht') as [pre' [m [Hm Hup']]].
      rewrite Hid in Hup'.
      pose proof (upPath_unique allTasks ids_distinct _ _ Hup _ Hup') as E.
      apply path_suffix_head in E. apply Hnotin. rewrite E.
      apply (in_map (fun m => Task.id (nodeTask m))). exact Hm.
    + intros t Ht. apply in_app_or in Ht. destruct Ht as [Ht | Ht].
      * destruct (Hpc t Ht) as [pre Hup]. exists pre, c. auto.
      * destruct (Hpr t Ht) as [pre [m [Hm Hup]]]. exists pre, m. auto.
Qed.

Lemma sibling_ids_distinct (parentId : option string) (forest : list TaskWithChildren) :
  forestOf allTasks parentId forest ->
  NoDup (map (fun m => Task.id (nodeTask m)) forest).
Proof.
  intros H. inversion H as [pid f Hmap _]; subst.
  rewrite <- (map_map nodeTask Task.id), Hmap.
  apply (Permutation_NoDup (l := map Task.id (filter (hasParent parentId) allTasks))).
  - apply Permutation_map, Permutation_sym, sortBySortOrder_perm.
  - now apply NoDup_ids_filter.
Qed.

Lemma node_good :
  forall n parentId path,
    upPath allTasks parentId path ->
    In (nodeTask n) allTasks ->
    Task.parentTaskId (nodeTask n) = parentId ->
    forestOf allTasks (Some (Task.id (nodeTask n))) (nodeChildren n) ->
    nodeGood allTasks path n.
Proof.
  induction n as [c cs IH] using TaskWithChildren_forall_ind.
  intros parentId path Hup Hin Hp Hwf. simpl in *.
  assert (Hupc : upPath allTasks (Some (Task.id c)) (Task.id c :: path))
    by (apply upPath_step with c; auto; now rewrite Hp).
  assert (Hgood : Forall (nodeGood allTasks (Task.id c :: path)) cs).
  { rewrite Forall_forall in *. intros m Hm.
    assert (Hmt : In (nodeTask m) (map nodeTask cs)) by now apply in_map.
    apply (forestOf_member allTasks _ cs _ Hwf) in Hmt. destruct Hmt as [Hma Hmp].
    inversion Hwf as [pid f _ Hsub]; subst. rewrite Forall_forall in Hsub.
    apply (IH m Hm (Some (Task.id c)) (Task.id c :: path)); auto. }
  destruct (siblings_flat (Task.id c :: path) cs
              (sibling_ids_distinct _ cs Hwf) Hgood) as [Hnd Hpaths].
  split.
  - intros t [<- | Ht]; [now exists []|].
    destruct (Hpaths t Ht) as [pre [m [_ Hupt]]].
    exists (pre ++ [Task.id (nodeTask m)]). now rewrite <- app_assoc.
  - simpl. constructor; [|exact Hnd].
    intros Hi. apply in_map_iff in Hi. destruct Hi as [t [Hid Ht]].
    destruct (Hpaths t Ht) as [pre [m [_ Hupt]]]. rewrite Hid in Hupt.
    pose proof (upPath_unique allTasks ids_distinct _ _ Hupc _ Hupt) as E.
    apply (f_equal (@length string)) in E. simpl in E.
    rewrite length_app in E. simpl in E. lia.
Qed.

Lemma forest_flat_NoDup (forest : list TaskWithChildren) :
  forestOf allTasks None forest ->
  NoDup (map Task.id (flattenForest forest)).
Proof.
  intros Hwf. unfold flattenForest.
  apply (siblings_flat [] forest (sibling_ids_distinct None forest Hwf)).
  rewrite Forall_forall. intros n Hn.
  assert (Ht : In (nodeTask n) (map nodeTask forest)) by now apply in_map.
  apply (forestOf_member allTasks None forest _ Hwf) in Ht. destruct Ht as [Hin Hp].
  inversion Hwf as [pid f _ Hsub]; subst. rewrite Forall_forall in Hsub.
  apply (node_good n None []); auto. constructor.
Qed.

End ForestNoDup.

(** X12.  No task occurs twice in the forest: the ids of its nodes, taken
    over all depths, are distinct, so the forest never has more nodes than
    the list has tasks. *)
Theorem buildTaskTree_no_duplicates (allTasks : list Task.t) :
  NoDup (map Task.id allTasks) ->
  exists forest,
    buildTaskTree allTasks None = Some forest /\
    NoDup (map Task.id (flattenForest forest)) /\
    (forall t, In t (flattenForest forest) <->
               exists n, inForest n forest /\ nodeTask n = t) /\
    length (flattenForest forest) <= length allTasks.
Proof.
  intros Hnd.
  destruct (buildTaskTree_fuel_spec allTasks Hnd (S (length allTasks)) None [])
    as [forest [Hrun Hwf]]; [constructor | simpl; lia |].
  exists forest. split; [exact Hrun|].
  pose proof (forest_flat_NoDup allTasks Hnd forest Hwf) as Hflat.
  split; [exact Hflat|]. split; [intros t; apply flattenForest_inForest|].
  rewrite <- (length_map Task.id (flattenForest forest)).
  rewrite <- (length_map Task.id allTasks).
  apply NoDup_incl_length; [exact Hflat|].
  intros i Hi. apply in_map_iff in Hi. destruct Hi as [t [<- Ht]].
  apply in_map. apply flattenForest_inForest in Ht. destruct Ht as [n [Hn <-]].
  now apply (forestOf_node allTasks n forest Hn None Hwf).
Qed.

Lemma buildTaskTree_no_duplicates_witness :
  NoDup (map Task.id sampleWithOrphan) /\
  exists forest,
    buildTaskTree sampleWithOrphan None = Some forest /\
    NoDup (map Task.id (flattenForest forest)) /\
    map Task.id (flattenForest forest) = ["A"; "C"; "D"; "F"; "B"].
Proof.
  assert (H1 : NoDup (map Task.id sampleWithOrphan)).
  { simpl. repeat constructor; simpl; intuition discriminate. }
  split; [exact H1|].
  destruct (buildTaskTree_no_duplicates sampleWithOrphan H1) as [forest [Hrun [Hnd _]]].
  exists forest. split; [exact Hrun|]. split; [exact Hnd|].
  vm_compute in Hrun. inversion Hrun. reflexivity.
Defined.

Lemma sortBySortOrder_sorted_input (l : list Task.t) :
  Sorted (fun a b => (Task.sortOrder a <= Task.sortOrder b)%Z) l ->
  sortBySortOrder l = l.
Proof.
  induction l as [|t l IH]; [reflexivity|]. intros Hs.
  inversion Hs as [|? ? Hs' Hhd]; subst. simpl. rewrite (IH Hs').
  destruct l as [|h l]; [reflexivity|]. simpl.
  inversion Hhd as [|? ? Hle]; subst. apply Z.leb_le in Hle. now rewrite Hle.
Qed.

Lemma Sorted_sortOrder_filter (f : Task.t -> bool) (l : list Task.t) :
  Sorted (fun a b => (Task.sortOrder a <= Task.sortOrder b)%Z) l ->
  Sorted (fun a b => (Task.sortOrder a <= Task.sortOrder b)%Z) (filter f l).
Proof.
  intros Hs. apply StronglySorted_Sorted.
  apply Sorted_StronglySorted in Hs; [|intros a b c Hab Hbc; lia].
  induction Hs as [|a l Hl IH Hall]; simpl; [constructor|].
  destruct (f a); [|exact IH]. constructor; [exact IH|].
  rewrite Forall_forall in *. intros b Hb. apply Hall. now apply filter_In in Hb.
Qed.

(** X13.  On a list that is already in ascending [sortOrder], as the
    queries of [getProjectWithTasks] and [getAllProjectsWithTasks] deliver
    it, the sort of [buildTaskTree] moves nothing: roots and children stand
    in the forest in the order they have in the list. *)
Theorem buildTaskTree_keeps_sorted_order (allTasks : list Task.t) :
  NoDup (map Task.id allTasks) ->
  Sorted (fun a b => (Task.sortOrder a <= Task.sortOrder b)%Z) allTasks ->
  exists forest,
    buildTaskTree allTasks None = Some forest /\
    map nodeTask forest = filter (hasParent None) allTasks /\
    forall n, inForest n forest ->
      map nodeTask (nodeChildren n)
      = filter (hasParent (Some (Task.id (nodeTask n)))) allTasks.
Proof.
  intros Hnd Hs.
  destruct (buildTaskTree_fuel_spec allTasks Hnd (S (length allTasks)) None [])
    as [forest [Hrun Hwf]]; [constructor | simpl; lia |].
  exists forest. split; [exact Hrun|].
  assert (Hroots : forall parentId f, forestOf allTasks parentId f ->
                                      map nodeTask f = filter (hasParent parentId) allTasks).
  { intros parentId f H. inversion H as [pid f' Hmap _]; subst. rewrite Hmap.
    apply sortBySortOrder_sorted_input. now apply Sorted_sortOrder_filter. }
  split; [now apply Hroots|].
  intros n Hn. apply Hroots. now apply (forestOf_node allTasks n forest Hn None Hwf).
Qed.

Lemma buildTaskTree_keeps_sorted_order_witness :
  NoDup (map Task.id (sortBySortOrder sampleWithOrphan)) /\
  Sorted (fun a b => (Task.sortOrder a <= Task.sortOrder b)%Z)
    (sortBySortOrder sampleWithOrphan) /\
  exists forest,
    buildTaskTree (sortBySortOrder sampleWithOrphan) None = Some forest /\
    map nodeTask forest = [ sampleTask "A" None 0 "pending" 0 ].
Proof.
  assert (H1 : NoDup (map Task.id (sortBySortOrder sampleWithOrphan))).
  { vm_compute. repeat constructor; simpl; intuition discriminate. }
  assert (H2 : Sorted (fun a b => (Task.sortOrder a <= Task.sortOrder b)%Z)
                 (sortBySortOrder sampleWithOrphan)) by apply sortBySortOrder_sorted.
  split; [exact H1|]. split; [exact H2|].
  destruct (buildTaskTree_keeps_sorted_order _ H1 H2) as [forest [Hrun [Hroots _]]].
  exists forest. split; [exact Hrun|]. rewrite Hroots. vm_compute. reflexivity.
Defined.

(** ** Further properties of the action interpreter *)

Section InterpreterMore.

Variable genId : nat -> string.
Variable toLowerCase : string -> string.
Variable rejects : Store -> Write -> bool.
Variable categories : list Category.t.

Local Abbreviation execM := (execAction genId toLowerCase rejects categories).
Local Abbreviation tryM := (tryAction genId toLowerCase rejects categories).
Local Abbreviation runM := (runBatch genId toLowerCase rejects categories).

Lemma first_category_listed (r : string) :
  orNull (firstCategoryId categories) = Some r ->
  exists c, In c categories /\ Category.id c = r.
Proof.
  unfold firstCategoryId, orNull. destruct categories as [|c cs]; [discriminate|].
  simpl. destruct (truthy (Category.id c)); [|discriminate].
  intros H. inversion H. exists c. split; [now left | reflexivity].
Qed.

(** X14.  The category a [create_project] action ends up with is never a
    dangling id: it is null or the id of a category of the list.  An id of
    the list is taken as it is, and with an empty list the category is
    null whatever the action says. *)
Theorem resolveCategoryId_is_listed (categoryId : option string) :
  (forall r, resolveCategoryId toLowerCase categories categoryId = Some r ->
             exists c, In c categories /\ Category.id c = r) /\
  (forall c, In c categories -> truthy (Category.id c) = true ->
             resolveCategoryId toLowerCase categories (Some (Category.id c))
             = Some (Category.id c)) /\
  (categories = [] -> resolveCategoryId toLowerCase categories categoryId = None).
Proof.
  split; [|split].
  - intros r. unfold resolveCategoryId.
    destruct (orNull (orElse categoryId (firstCategoryId categories))) as [resolved|];
      [|discriminate].
    destruct (existsb (fun c => Category.id c =? resolved) categories) eqn:Ex.
    + intros H. inversion H; subst r. apply existsb_exists in Ex.
      destruct Ex as [c [Hc Hid]]. exists c. split; [exact Hc | now apply String.eqb_eq].
    + destruct (find (fun c => toLowerCase (Category.name c) =? toLowerCase resolved)
                  categories) as [m|] eqn:Ef; simpl.
      * unfold orElse. simpl. destruct (truthy (Category.id m)) eqn:Etm.
        -- unfold orNull. simpl. rewrite Etm. intros H. inversion H; subst r.
           apply find_some in Ef. exists m. tauto.
        -- apply first_category_listed.
      * unfold orElse. simpl. apply first_category_listed.
  - intros c Hc Ht. unfold resolveCategoryId, orElse, orNull. simpl. rewrite Ht. simpl.
    rewrite Ht.
    assert (Hex : existsb (fun c0 => Category.id c0 =? Category.id c) categories = true).
    { apply existsb_exists. exists c. split; [exact Hc | apply String.eqb_refl]. }
    now rewrite Hex.
  - intros He. unfold resolveCategoryId. rewrite He. simpl.
    unfold orElse, orNull. simpl.
    destruct (truthyOpt categoryId) eqn:Et; simpl; [|reflexivity].
    rewrite Et. destruct categoryId as [r|]; [|discriminate]. reflexivity.
Qed.

(** X15.  [update_project] writes the project row and nothing else.  A
    project id with no row changes nothing and logs nothing.  Otherwise,
    when the database accepts the write, the tasks table and the slot of the
    last created project are untouched, the row gets the supplied
    [percentComplete] and [roadblocks] and keeps what was not supplied, and
    no recalculation runs: the next recalculation of the project replaces a
    [percentComplete] written this way by the aggregate. *)
Theorem update_project_writes_only_the_row (b : Batch) (projectId : string)
  (pc : option Z) (rb : option (option string)) :
  (getProject (projects (store b)) projectId = None ->
   execM b (update_project projectId pc rb) = Some b) /\
  (forall existing,
     getProject (projects (store b)) projectId = Some existing ->
     rejects (store b) (UpdateProject projectId (mkProjectUpdates pc rb)) = false ->
     exists b' p',
       execM b (update_project projectId pc rb) = Some b' /\
       tasks (store b') = tasks (store b) /\
       newlyCreatedProjectId b' = newlyCreatedProjectId b /\
       getProject (projects (store b')) projectId = Some p' /\
       sameProjectCore existing p' /\
       Project.percentComplete p' = orKeep pc (Project.percentComplete existing) /\
       Project.roadblocks p' = orKeep rb (Project.roadblocks existing) /\
       (forall q, q <> projectId ->
          getProject (projects (store b')) q = getProject (projects (store b)) q) /\
       (rb = None ->
        recalculateProjectCompletion (projects (store b')) (tasks (store b')) projectId
        = recalculateProjectCompletion (projects (store b)) (tasks (store b)) projectId)).
Proof.
  split.
  - intros Hnone. unfold execAction, tryAction. now rewrite Hnone.
  - intros existing Hget Hok. unfold execAction, tryAction. rewrite Hget, Hok.
    eexists. exists (applyProjectUpdates (mkProjectUpdates pc rb) existing).
    split; [reflexivity|]. cbn [store tasks projects newlyCreatedProjectId].
    split; [reflexivity|]. split; [reflexivity|].
    split; [|split; [|split; [|split; [|split]]]].
    + revert Hget. unfold getProject, updateProject.
      induction (projects (store b)) as [|a ps IH]; simpl; [discriminate|].
      destruct (Project.id a =? projectId) eqn:E; simpl; rewrite E; [congruence | exact IH].
    + unfold sameProjectCore. simpl. tauto.
    + reflexivity.
    + reflexivity.
    + intros q Hq. clear Hget Hok. unfold getProject, updateProject.
      induction (projects (store b)) as [|a ps IH]; simpl; [reflexivity|].
      destruct (Project.id a =? projectId) eqn:E; simpl.
      * apply String.eqb_eq in E.
        assert ((Project.id a =? q) = false) as -> by (apply String.eqb_neq; congruence).
        exact IH.
      * destruct (Project.id a =? q); [reflexivity | exact IH].
    + intros ->. unfold recalculateProjectCompletion.
      assert (Hset : forall v,
                setProjectPercent (updateProject (projects (store b)) projectId
                                     (mkProjectUpdates pc None)) projectId v
                = setProjectPercent (projects (store b)) projectId v).
      { intros v. unfold setProjectPercent, updateProject. rewrite map_map.
        apply map_ext. intros a.
        destruct (Project.id a =? projectId) eqn:E; simpl; rewrite E; reflexivity. }
      destruct (rootTasksOf (tasks (store b)) projectId); apply Hset.
Qed.

(** X16.  [update_task] touches only what the action supplies.  Without
    [percentComplete] the status of the task is never written, so a task
    completed through [isCompleted] alone keeps its status; with neither
    [percentComplete] nor [isCompleted] the progress columns stay as they
    were; [roadblocks] is stored as given, null included, and kept when
    absent; name, description, parent, project and sort order are never
    written. *)
Theorem update_task_touches_only_supplied (rank : string -> nat) (b : Batch)
  (taskId : string) (pc : option Z) (ic : option bool) (rb : option (option string))
  (existing : Task.t) :
  ranked rank (tasks (store b)) ->
  getTask (tasks (store b)) taskId = Some existing ->
  rejects (store b) (UpdateTask taskId (taskUpdatesOf existing pc ic rb)) = false ->
  exists b' t',
    execM b (update_task taskId pc ic rb) = Some b' /\
    getTask (tasks (store b')) taskId = Some t' /\
    sameLinks existing t' /\
    (pc = None -> Task.status t' = Task.status existing) /\
    (pc = None -> ic = Some true ->
     Task.percentComplete t' = 100%Z /\ Task.isCompleted t' = true) /\
    (pc = None -> ic = None ->
     Task.percentComplete t' = Task.percentComplete existing /\
     Task.isCompleted t' = Task.isCompleted existing) /\
    Task.roadblocks t' = orKeep rb (Task.roadblocks existing).
Proof.
  intros Hr Hget Hok.
  destruct (update_task_stored genId toLowerCase rejects categories rank b taskId pc ic rb
              existing Hr Hget Hok) as [b' [Hrun Hrow]].
  exists b'. eexists. split; [exact Hrun|]. split; [exact Hrow|].
  split; [unfold sameLinks; simpl; tauto|].
  split; [intros ->; destruct ic, rb; reflexivity|].
  split; [intros -> ->; destruct rb; split; reflexivity|].
  split; [intros -> ->; destruct rb; split; reflexivity|].
  destruct pc, ic, rb; reflexivity.
Qed.

End InterpreterMore.

Lemma resolveCategoryId_is_listed_witness :
  In (Category.mk "cat-mkt" "Marketing" "#10B981") twoCategories /\
  resolveCategoryId sampleLower twoCategories (Some "cat-mkt") = Some "cat-mkt" /\
  resolveCategoryId sampleLower twoCategories (Some "Marketing") = Some "cat-mkt" /\
  resolveCategoryId sampleLower twoCategories (Some "nothing") = Some "cat-dev" /\
  resolveCategoryId sampleLower [] (Some "cat-mkt") = None.
Proof.
  assert (H : In (Category.mk "cat-mkt" "Marketing" "#10B981") twoCategories)
    by (simpl; tauto).
  split; [exact H|].
  destruct (resolveCategoryId_is_listed sampleLower twoCategories (Some "cat-mkt"))
    as [_ [Hexact _]].
  split; [exact (Hexact _ H eq_refl)|].
  split; [reflexivity|]. split; [reflexivity|].
  now apply (resolveCategoryId_is_listed sampleLower [] (Some "cat-mkt")).
Defined.

Lemma update_project_writes_only_the_row_witness :
  getProject (projects (store sampleBatch)) "P1"
  = Some (Project.mk "P1" "Website" None None "active" 45 None None) /\
  exists b' p',
    execAction sampleGenId sampleLower acceptAll sampleCategories sampleBatch
      (update_project "P1" (Some 90%Z) None) = Some b' /\
    tasks (store b') = tasks (store sampleBatch) /\
    getProject (projects (store b')) "P1" = Some p' /\
    Project.percentComplete p' = 90%Z.
Proof.
  split; [reflexivity|].
  destruct (update_project_writes_only_the_row sampleGenId sampleLower acceptAll
              sampleCategories sampleBatch "P1" (Some 90%Z) None) as [_ H].
  destruct (H _ eq_refl eq_refl) as [b' [p' [Hrun [Ht [_ [Hg [_ [Hpc _]]]]]]]].
  exists b', p'. auto.
Defined.

Lemma update_task_touches_only_supplied_witness :
  ranked sampleRank (tasks (store sampleBatch)) /\
  getTask (tasks (store sampleBatch)) "D" = Some (sampleTask "D" (Some "C") 50 "blocked" 0) /\
  exists b' t',
    execAction sampleGenId sampleLower acceptAll sampleCategories sampleBatch
      (update_task "D" None (Some true) None) = Some b' /\
    getTask (tasks (store b')) "D" = Some t' /\
    Task.percentComplete t' = 100%Z /\ Task.isCompleted t' = true /\
    Task.status t' = "blocked".
Proof.
  split; [exact sampleTasks_ranked|]. split; [reflexivity|].
  destruct (update_task_touches_only_supplied sampleGenId sampleLower acceptAll
              sampleCategories sampleRank sampleBatch "D" None (Some true) None
              (sampleTask "D" (Some "C") 50 "blocked" 0)
              sampleTasks_ranked eq_refl eq_refl)
    as [b' [t' [Hrun [Hrow [_ [Hst [Hdone _]]]]]]].
  exists b', t'. split; [exact Hrun|]. split; [exact Hrow|].
  destruct (Hdone eq_refl eq_refl) as [H100 Hc].
  split; [exact H100|]. split; [exact Hc|]. now apply Hst.
Defined.

(** ** The batch only adds *)



Lemma sameButProgress_links (t t' : Task.t) : sameButProgress t t' -> sameLinks t t'.
Proof. unfold sameButProgress, sameLinks. tauto. Qed.








Section BatchExtends.

Variable genId : nat -> string.
Variable toLowerCase : string -> string.
Variable rejects : Store -> Write -> bool.
Variable categories : list Category.t.

Local Abbreviation execE := (execAction genId toLowerCase rejects categories).
Local Abbreviation runE := (runBatch genId toLowerCase rejects categories).




End BatchExtends.



(** X18.  What the two recalculations that follow every write of a task
    restore, on a table without parent cycles: they return; every ancestor
    of the written task that the cascade reaches holds the aggregate of its
    children, and the project row holds the aggregate of the project's root
    tasks (0 without root task), both read off the final table; no row is
    added or removed, and only progress columns differ. *)
Theorem recalculateAfter_restores_aggregates (rank : string -> nat) (s : Store)
  (task : Task.t) :
  ranked rank (tasks s) ->
  exists s',
    recalculateAfter s task = Some s' /\
    projectAggregated (projects s') (tasks s') (Task.projectId task) /\
    (forall p, Task.parentTaskId task = Some p -> truthy p = true ->
               cascaded (tasks s) (tasks s') p) /\
    Forall2 sameButProgress (tasks s) (tasks s') /\
    map Project.id (projects s') = map Project.id (projects s) /\
    nextId s' = nextId s.
Proof.
  intros Hr. unfold recalculateAfter.
  assert (Hdone : forall ts,
             Forall2 sameButProgress (tasks s) ts ->
             (forall p, Task.parentTaskId task = Some p -> truthy p = true ->
                        cascaded (tasks s) ts p) ->
             exists s',
               Some (mkStore
                       (recalculateProjectCompletion (projects s) ts (Task.projectId task))
                       ts (nextId s)) = Some s' /\
               projectAggregated (projects s') (tasks s') (Task.projectId task) /\
               (forall p, Task.parentTaskId task = Some p -> truthy p = true ->
                          cascaded (tasks s) (tasks s') p) /\
               Forall2 sameButProgress (tasks s) (tasks s') /\
               map Project.id (projects s') = map Project.id (projects s) /\
               nextId s' = nextId s).
  { intros ts Hshape Hcas. eexists. split; [reflexivity|]. cbn [tasks projects nextId].
    split; [apply recalculateProjectCompletion_aggregated|].
    split; [exact Hcas|]. split; [exact Hshape|].
    split; [apply recalculateProjectCompletion_ids | reflexivity]. }
  assert (Hsame : Forall2 sameButProgress (tasks s) (tasks s))
    by (apply Forall2_same, sameButProgress_refl).
  destruct (Task.parentTaskId task) as [p|].
  2:{ apply Hdone; [exact Hsame | intros p Hp; discriminate]. }
  destruct (truthy p) eqn:Htp.
  2:{ apply Hdone; [exact Hsame|]. intros q Hq Htq. inversion Hq; subst. congruence. }
  destruct (recalculate_total rank (tasks s) p Hr) as [ts [Hrun [Hstep Hcas]]].
  rewrite Hrun. apply Hdone.
  - eapply Forall2_impl; [|exact Hstep]. intros a c [H _]. exact H.
  - intros q Hq _. inversion Hq; subst. exact Hcas.
Qed.

Lemma recalculateAfter_restores_aggregates_witness :
  ranked sampleRank (tasks sampleStore) /\
  exists s',
    recalculateAfter sampleStore (sampleTask "D" (Some "C") 50 "blocked" 0) = Some s' /\
    projectAggregated (projects s') (tasks s') "P1" /\
    getProject (projects s') "P1"
    = Some (Project.mk "P1" "Website" None None "active" 75 None None).
Proof.
  assert (H1 : ranked sampleRank (tasks sampleStore)) by (apply rankedb_ranked; reflexivity).
  split; [exact H1|].
  destruct (recalculateAfter_restores_aggregates sampleRank sampleStore
              (sampleTask "D" (Some "C") 50 "blocked" 0) H1)
    as [s' [Hrun [Hagg _]]].
  exists s'. split; [exact Hrun|]. split; [exact Hagg|].
  vm_compute in Hrun. inversion Hrun. reflexivity.
Defined.

(** ** The streamed reply *)

Lemma splitOnSpace_nonempty (s : string) : splitOnSpace s <> [].
Proof.
  destruct s as [|c r]; simpl; [discriminate|].
  destruct (Ascii.eqb c " "%char); [discriminate|].
  destruct (splitOnSpace r); discriminate.
Qed.

Lemma append_empty_r (s : string) : String.append s EmptyString = s.
Proof. induction s as [|c s IH]; simpl; congruence. Qed.

Lemma append_assoc (a b c : string) :
  String.append (String.append a b) c = String.append a (String.append b c).
Proof. induction a as [|x a IH]; simpl; congruence. Qed.

Lemma assembleMessage_from (acc : string) (contents : list string) :
  fold_left (fun assistantMessage content =>
               if truthy content then String.append assistantMessage content
               else assistantMessage) contents acc
  = String.append acc (fold_right String.append EmptyString contents).
Proof.
  revert acc. induction contents as [|c cs IH]; intros acc; simpl.
  - now rewrite append_empty_r.
  - rewrite IH. unfold truthy. destruct c as [|x c]; simpl; [reflexivity|].
    now rewrite append_assoc.
Qed.

Lemma chunks_concat (s : string) :
  fold_right String.append EmptyString (streamChunks (splitOnSpace s)) = s.
Proof.
  induction s as [|c r IH]; [reflexivity|].
  pose proof (splitOnSpace_nonempty r) as Hne. simpl splitOnSpace.
  destruct (Ascii.eqb c " "%char) eqn:Ec.
  - apply Ascii.eqb_eq in Ec. subst c.
    destruct (splitOnSpace r) as [|w ws]; [congruence|].
    simpl in *. now rewrite IH.
  - destruct (splitOnSpace r) as [|w ws]; [congruence|].
    simpl in *. now rewrite IH.
Qed.

(** X19.  What the chat dialog puts together from the stream is the text
    the route saves as the assistant's message: the summary of the executed
    actions, when there is one, followed by the reply, whose pieces between
    spaces arrive one by one and join back to the reply, whatever its
    spaces. *)
Theorem streamed_reply_is_saved_reply (executedActions : list string)
  (responseMessage : string) :
  assembleMessage (streamedContents executedActions responseMessage)
  = fullResponse executedActions responseMessage /\
  assembleMessage (streamChunks (splitOnSpace responseMessage)) = responseMessage.
Proof.
  assert (Hreply : assembleMessage (streamChunks (splitOnSpace responseMessage))
                   = responseMessage).
  { unfold assembleMessage. rewrite assembleMessage_from. simpl. apply chunks_concat. }
  split; [|exact Hreply].
  unfold streamedContents, fullResponse.
  destruct executedActions as [|e es]; [exact Hreply|].
  unfold assembleMessage. rewrite assembleMessage_from. simpl.
  now rewrite chunks_concat.
Qed.

(** ** The route that patches a task *)

Lemma getTask_patchTask_same (db : TaskTable) (x : string) (u : TaskPatch) (t : Task.t) :
  getTask db x = Some t -> getTask (patchTask db x u) x = Some (applyTaskPatch u t).
Proof.
  unfold getTask, patchTask. induction db as [|a db IH]; simpl; [discriminate|].
  destruct (Task.id a =? x) eqn:E; simpl; rewrite E; [congruence | exact IH].
Qed.






Lemma recalculate_self_parent (fuel : nat) :
  forall (db : TaskTable) (x : string) (t : Task.t),
    getTask db x = Some t -> Task.parentTaskId t = Some x -> truthy x = true ->
    recalculateParentTaskCompletion_fuel fuel x db = None.
Proof.
  induction fuel as [|fuel IH]; intros db x t Hget Hp Htx; [reflexivity|].
  assert (Hne : childrenOf db x <> []).
  { destruct (getTask_In _ _ _ Hget) as [Hin _].
    assert (Hc : In t (childrenOf db x)) by (apply childrenOf_In; auto).
    intros E. rewrite E in Hc. contradiction. }
  rewrite (recalculate_fuel_node fuel db x t Hget Hne). cbv zeta. rewrite Hp, Htx.
  apply (IH _ x (applyTaskUpdates
                   (aggregateUpdates t (avgPercentOf (childrenOf db x))) t)); auto.
  now apply getTask_updateTask_same.
Qed.

(** X21.  Nothing guards the cascade against a task that is its own
    parent: for every bound on the number of nested calls
    [recalculateParentTaskCompletion] has not returned, and the route that
    patches a task accepts the patch that creates such a task and then does
    not reply. *)
Theorem self_parent_never_returns (refuses : Store -> string -> TaskPatch -> bool)
  (s : Store) (x : string) (t : Task.t) :
  getTask (tasks s) x = Some t -> truthy x = true ->
  (Task.parentTaskId t = Some x ->
   forall fuel, recalculateParentTaskCompletion_fuel fuel x (tasks s) = None) /\
  (refuses s x (movePatch (Some x)) = false ->
   patchTaskRoute refuses s x (movePatch (Some x)) = None).
Proof.
  intros Hget Htx. split.
  - intros Hp fuel. now apply (recalculate_self_parent fuel (tasks s) x t).
  - intros Hok. unfold patchTaskRoute. rewrite Hget, Hok. cbn [tasks].
    rewrite (getTask_patchTask_same _ _ (movePatch (Some x)) _ Hget).
    unfold recalculateAfter. cbn [Task.parentTaskId applyTaskPatch movePatch
                                  p_parentTaskId orKeep tasks].
    rewrite Htx. unfold recalculateParentTaskCompletion.
    rewrite (recalculate_self_parent _ _ x (applyTaskPatch (movePatch (Some x)) t));
      auto.
    now apply getTask_patchTask_same.
Qed.

Lemma self_parent_never_returns_witness :
  getTask (tasks sampleStore) "B" = Some (sampleTask "B" (Some "A") 100 "completed" 1) /\
  truthy "B" = true /\
  patchTaskRoute acceptPatch sampleStore "B" (movePatch (Some "B")) = None.
Proof.
  split; [reflexivity|]. split; [reflexivity|].
  now apply (self_parent_never_returns acceptPatch sampleStore "B" _ eq_refl eq_refl).
Defined.

(** ** Projects with their trees *)

(** X22.  [getAllProjectsWithTasks], on tasks with distinct ids, returns one
    entry per project, in order, and the tree of a project holds tasks of
    that project only.  A task whose parent belongs to another project is in
    no tree at all: neither under its parent, whose tree is built from the
    other project's tasks, nor as a root of its own project. *)
Theorem getAllProjectsWithTasks_keeps_projects_apart (allProjects : ProjectTable)
  (allCategories : list Category.t) (allTasks : TaskTable) :
  NoDup (map Task.id allTasks) ->
  exists result,
    getAllProjectsWithTasks allProjects allCategories allTasks = Some result /\
    map pwt_project result = allProjects /\
    (forall e n, In e result -> inForest n (pwt_tasks e) ->
                 In (nodeTask n) allTasks /\
                 Task.projectId (nodeTask n) = Project.id (pwt_project e)) /\
    (forall t u, In t allTasks -> In u allTasks ->
                 Task.parentTaskId t = Some (Task.id u) ->
                 Task.projectId t <> Task.projectId u ->
                 forall e n, In e result -> inForest n (pwt_tasks e) -> nodeTask n <> t).
Proof.
  intros Hnd. unfold getAllProjectsWithTasks.
  destruct (mapM_spec
              (fun project =>
                 match buildTaskTree
                         (filter (fun t => Task.projectId t =? Project.id project) allTasks)
                         None with
                 | Some taskTree =>
                   Some (mkProjectWithTasks project
                           (categoryOfProject allCategories project) taskTree)
                 | None => None
                 end)
              (fun project e =>
                 pwt_project e = project /\
                 forestOf (filter (fun t => Task.projectId t =? Project.id project) allTasks)
                   None (pwt_tasks e))
              allProjects) as [result [Hrun HF]].
  { intros project _.
    destruct (buildTaskTree_fuel_spec
                (filter (fun t => Task.projectId t =? Project.id project) allTasks)
                (NoDup_ids_filter _ _ Hnd)
                (S (length (filter (fun t => Task.projectId t =? Project.id project)
                              allTasks))) None [])
      as [forest [Hb Hwf]]; [constructor | simpl; lia |].
    unfold buildTaskTree. rewrite Hb. eexists. split; [reflexivity|]. auto. }
  exists result. split; [exact Hrun|].
  assert (Hentry : forall e, In e result ->
            forestOf (filter (fun t => Task.projectId t =? Project.id (pwt_project e))
                        allTasks) None (pwt_tasks e)).
  { clear Hrun. induction HF as [|p e ps es [Hp Hwf] _ IH]; intros e' He'; [contradiction|].
    destruct He' as [<- | He']; [now rewrite Hp | now apply IH]. }
  assert (Hnode : forall e n, In e result -> inForest n (pwt_tasks e) ->
                    In (nodeTask n) allTasks /\
                    Task.projectId (nodeTask n) = Project.id (pwt_project e)).
  { intros e n He Hn.
    destruct (forestOf_node _ n (pwt_tasks e) Hn None (Hentry e He)) as [Hin _].
    apply filter_In in Hin. destruct Hin as [Hin Hp]. split; [exact Hin|].
    now apply String.eqb_eq. }
  split; [|split; [exact Hnode|]].
  - clear Hrun Hentry Hnode. induction HF as [|p e ps es [Hp _] _ IH]; simpl; congruence.
  - intros t u Ht Hu Hp Hdiff e n He Hn E.
    destruct (forestOf_node _ n (pwt_tasks e) Hn None (Hentry e He))
      as [_ [[Hroot | [m [Hm [Hmin Hpm]]]] _]].
    + apply hasParent_None in Hroot. congruence.
    + destruct (Hnode e m He Hm) as [Hmall Hmp].
      destruct (Hnode e n He Hn) as [_ Hnp].
      assert (nodeTask m = u).
      { apply (unique_id_row allTasks); auto. congruence. }
      apply Hdiff. congruence.
Qed.

Lemma getAllProjectsWithTasks_keeps_projects_apart_witness :
  NoDup (map Task.id sampleCrossProject) /\
  exists result,
    getAllProjectsWithTasks sampleProjects sampleCategories sampleCrossProject
    = Some result /\
    map pwt_project result = sampleProjects /\
    map (fun e => map Task.id (flattenForest (pwt_tasks e))) result
    = [ ["A"; "C"; "D"; "B"]; [] ].
Proof.
  assert (H1 : NoDup (map Task.id sampleCrossProject)).
  { simpl. repeat constructor; simpl; intuition discriminate. }
  split; [exact H1|].
  destruct (getAllProjectsWithTasks_keeps_projects_apart sampleProjects sampleCategories
              sampleCrossProject H1) as [result [Hrun [Hps _]]].
  exists result. split; [exact Hrun|]. split; [exact Hps|].
  vm_compute in Hrun. inversion Hrun. reflexivity.
Defined.

(** ** The order of the rows does not matter *)

Lemma filter_perm {A : Type} (f : A -> bool) (l l' : list A) :
  Permutation l l' -> Permutation (filter f l) (filter f l').
Proof.
  induction 1 as [|a l l' _ IH | a b l | l l' l'' _ IH1 _ IH2]; simpl.
  - constructor.
  - destruct (f a); [now constructor | exact IH].
  - destruct (f a), (f b); try reflexivity. apply perm_swap.
  - now transitivity (filter f l').
Qed.

Lemma sumZ_perm (l l' : list Z) : Permutation l l' -> sumZ l = sumZ l'.
Proof.
  unfold sumZ. induction 1 as [|a l l' _ IH | a b l | l l' l'' _ IH1 _ IH2]; simpl; lia.
Qed.

Lemma avgPercentOf_perm (rows rows' : TaskTable) :
  Permutation rows rows' -> avgPercentOf rows = avgPercentOf rows'.
Proof.
  intros H. unfold avgPercentOf. rewrite !totalPercent_sum.
  rewrite (sumZ_perm _ _ (Permutation_map Task.percentComplete H)).
  now rewrite (Permutation_length H).
Qed.

Lemma getTask_perm (db db2 : TaskTable) (x : string) :
  NoDup (map Task.id db) -> Permutation db db2 -> getTask db2 x = getTask db x.
Proof.
  intros Hnd Hp.
  assert (Hnd2 : NoDup (map Task.id db2))
    by (eapply Permutation_NoDup; [apply Permutation_map; exact Hp | exact Hnd]).
  destruct (getTask db x) as [t|] eqn:E.
  - destruct (getTask_In _ _ _ E) as [Hin Hid].
    assert (Hin2 : In t db2) by (eapply Permutation_in; eauto).
    destruct (getTask db2 x) as [t2|] eqn:E2.
    + destruct (getTask_In _ _ _ E2) as [Hin2' Hid2]. f_equal.
      apply (unique_id_row db2); auto. congruence.
    + exfalso. unfold getTask in E2.
      pose proof (find_none _ _ E2 t Hin2) as Hf. simpl in Hf.
      apply String.eqb_neq in Hf. contradiction.
  - destruct (getTask db2 x) as [t2|] eqn:E2; [|reflexivity]. exfalso.
    destruct (getTask_In _ _ _ E2) as [Hin2 Hid2].
    assert (Hin : In t2 db) by (eapply Permutation_in; [apply Permutation_sym|]; eauto).
    unfold getTask in E. pose proof (find_none _ _ E t2 Hin) as Hf. simpl in Hf.
    apply String.eqb_neq in Hf. contradiction.
Qed.

Lemma updateTask_ids (db : TaskTable) (x : string) (u : TaskUpdates) :
  map Task.id (updateTask db x u) = map Task.id db.
Proof.
  unfold updateTask. rewrite map_map. apply map_ext.
  intros a. destruct (Task.id a =? x); reflexivity.
Qed.

Lemma recalculate_fuel_perm (fuel : nat) :
  forall (x : string) (db db2 r : TaskTable),
    NoDup (map Task.id db) -> Permutation db db2 ->
    recalculateParentTaskCompletion_fuel fuel x db = Some r ->
    exists r2,
      recalculateParentTaskCompletion_fuel fuel x db2 = Some r2 /\ Permutation r r2.
Proof.
  induction fuel as [|fuel IH]; intros x db db2 r Hnd Hp H; [discriminate|].
  simpl in H. simpl. rewrite (getTask_perm db db2 x Hnd Hp).
  destruct (getTask db x) as [t|]; [|inversion H; subst; eauto].
  pose proof (filter_perm (fun t0 => colEq (Task.parentTaskId t0) x) _ _ Hp) as Hch.
  fold (childrenOf db x) in Hch. fold (childrenOf db2 x) in Hch.
  destruct (childrenOf db x) as [|c cs] eqn:E1.
  { apply Permutation_nil in Hch. rewrite Hch. inversion H; subst; eauto. }
  destruct (childrenOf db2 x) as [|c2 cs2] eqn:E2.
  { apply Permutation_sym, Permutation_nil in Hch. discriminate. }
  rewrite <- (avgPercentOf_perm _ _ Hch).
  set (u := aggregateUpdates t (avgPercentOf (c :: cs))) in *.
  assert (Hup : Permutation (updateTask db x u) (updateTask db2 x u))
    by (apply Permutation_map; exact Hp).
  destruct (Task.parentTaskId t) as [p|]; [|inversion H; subst; eauto].
  destruct (truthy p); [|inversion H; subst; eauto].
  apply (IH p (updateTask db x u)); auto. now rewrite updateTask_ids.
Qed.

Lemma inSubtree_perm (db db2 : TaskTable) (x y : string) :
  Permutation db db2 -> inSubtree db x y -> inSubtree db2 x y.
Proof.
  intros Hp. induction 1 as [|w t Hw IH Hin Hpar]; [apply subtree_self|].
  apply subtree_child with w; auto. eapply Permutation_in; eauto.
Qed.

(** X23.  The result of the recalculations and of [deleteTask] does not
    depend on the order in which the database holds or returns the rows: on
    two tables with the same rows, distinct ids and no parent cycle, the
    cascade returns tables with the same rows, the project gets the same
    percentage, and [deleteTask] keeps the same rows, although it visits
    the children in the order of the table. *)
Theorem results_do_not_depend_on_row_order (rank : string -> nat) (ps : ProjectTable)
  (db db2 : TaskTable) (x : string) :
  NoDup (map Task.id db) -> Permutation db db2 -> ranked rank db ->
  (exists r r2,
      recalculateParentTaskCompletion db x = Some r /\
      recalculateParentTaskCompletion db2 x = Some r2 /\
      Permutation r r2) /\
  recalculateProjectCompletion ps db2 x = recalculateProjectCompletion ps db x /\
  (exists d d2,
      deleteTask db x = Some d /\ deleteTask db2 x = Some d2 /\ Permutation d d2).
Proof.
  intros Hnd Hp Hr. split; [|split].
  - destruct (recalculate_total rank db x Hr) as [r [Hrun _]].
    unfold recalculateParentTaskCompletion in *.
    destruct (recalculate_fuel_perm _ x db db2 r Hnd Hp Hrun) as [r2 [Hrun2 Hperm]].
    exists r, r2. rewrite <- (Permutation_length Hp). auto.
  - unfold recalculateProjectCompletion.
    assert (Hroots : Permutation (rootTasksOf db x) (rootTasksOf db2 x))
      by (unfold rootTasksOf, getTasksByProject; now do 2 apply filter_perm).
    destruct (rootTasksOf db x) as [|c cs] eqn:E1.
    { apply Permutation_nil in Hroots. now rewrite Hroots. }
    destruct (rootTasksOf db2 x) as [|c2 cs2] eqn:E2.
    { apply Permutation_sym, Permutation_nil in Hroots. discriminate. }
    now rewrite (avgPercentOf_perm _ _ Hroots).
  - assert (Hr2 : ranked rank db2).
    { intros t p Hin. apply Hr. eapply Permutation_in; [apply Permutation_sym|]; eauto. }
    destruct (deleteTask_total rank db x Hr) as [keep [Hrun Hk]].
    destruct (deleteTask_total rank db2 x Hr2) as [keep2 [Hrun2 Hk2]].
    exists (keptRows keep db), (keptRows keep2 db2).
    split; [exact Hrun|]. split; [exact Hrun2|].
    unfold keptRows.
    rewrite (filter_ext (fun t => keep (Task.id t)) (fun t => keep2 (Task.id t))).
    + now apply filter_perm.
    + intros a. destruct (keep (Task.id a)) eqn:E1, (keep2 (Task.id a)) eqn:E2; auto.
      * apply Hk2 in E2. apply (inSubtree_perm db2 db) in E2;
          [|now apply Permutation_sym]. apply Hk in E2. congruence.
      * apply Hk in E1. apply (inSubtree_perm db db2) in E1; [|exact Hp].
        apply Hk2 in E1. congruence.
Qed.

Lemma results_do_not_depend_on_row_order_witness :
  NoDup (map Task.id sampleTasks) /\
  Permutation sampleTasks (rev sampleTasks) /\
  ranked sampleRank sampleTasks /\
  exists r r2,
    recalculateParentTaskCompletion sampleTasks "C" = Some r /\
    recalculateParentTaskCompletion (rev sampleTasks) "C" = Some r2 /\
    Permutation r r2.
Proof.
  assert (H1 : NoDup (map Task.id sampleTasks)).
  { simpl. repeat constructor; simpl; intuition discriminate. }
  assert (H2 : Permutation sampleTasks (rev sampleTasks)) by apply Permutation_rev.
  assert (H3 : ranked sampleRank sampleTasks) by (apply rankedb_ranked; reflexivity).
  split; [exact H1|]. split; [exact H2|]. split; [exact H3|].
  exact (proj1 (results_do_not_depend_on_row_order sampleRank sampleProjects
                  sampleTasks (rev sampleTasks) "C" H1 H2 H3)).
Defined.
